(** * LogFlux JavaScript SDK: the batching and delivery engine

    A shallow embedding of [src/client/index.ts] (the transport client
    [LogFluxClient]), [src/client/batch.ts] (the batching engine
    [BatchClient]), the client factories, the configuration validators
    and the message constructors and [LogEntryBuilder] of
    [src/types/index.ts], followed by the properties the specification
    states about them and by further properties of the code.

    Modelling conventions.
    - A JavaScript [number] is an exact rational ([Q]); counters that the
      code only ever increments from zero are integers ([Z]).  [NaN],
      the infinities and rounding are outside the model.
    - A JavaScript string is the list of its UTF-16 code units.
    - An [async] method is a computation in the monad [M]: it may read
      and change the object it belongs to and the outside world, and it
      ends by returning a value or by throwing (a rejected promise).  A
      state change made before a [throw] stays, as in JavaScript.  An
      awaited call runs to completion before its caller continues, and
      the callers of the engine await each call; the one place where
      other callers are let in is the await inside [flush], where
      entries may arrive ([BatchClient.flushWhile]).
    - The outside world ([World]) holds what the code cannot decide: the
      socket files that exist, the clock read by [Date.now()], and a
      script of network behaviours, one for each awaited socket
      operation.  Everything the code does to the world is appended to
      its [log], together with the calls and returns of the transport
      client's public methods, as a spy on the client would record
      them. *)

From Stdlib Require Import List ZArith QArith Qpower Qminmax Bool String Ascii
  Lia Lqa.
Import ListNotations.

Set Implicit Arguments.

Local Open Scope Z_scope.

(** ** JavaScript strings *)

Module Js.

Definition JsString : Type := list N.

Definition of_ascii (s : string) : JsString :=
  List.map N_of_ascii (list_ascii_of_string s).

Definition eqb (a b : JsString) : bool :=
  if list_eq_dec N.eq_dec a b then true else false.

(** [!s] on a string: only the empty string is falsy. *)
Definition truthy (s : JsString) : bool :=
  match s with [] => false | _ :: _ => true end.

Definition is_high_surrogate (c : N) : bool :=
  ((55296 <=? c) && (c <=? 56319))%N.

Definition is_low_surrogate (c : N) : bool :=
  ((56320 <=? c) && (c <=? 57343))%N.

(** [Buffer.byteLength(s, 'utf8')]: one byte below U+0080, two below
    U+0800, four for a surrogate pair, three otherwise (an unpaired
    surrogate is encoded as U+FFFD). *)
Fixpoint byteLength (s : JsString) : Z :=
  match s with
  | [] => 0
  | c :: rest =>
      if (c <? 128)%N then 1 + byteLength rest
      else if (c <? 2048)%N then 2 + byteLength rest
      else if is_high_surrogate c then
        match rest with
        | d :: rest' =>
            if is_low_surrogate d then 4 + byteLength rest'
            else 3 + byteLength rest
        | [] => 3
        end
      else 3 + byteLength rest
  end.

(** A string without unpaired surrogates. *)
Fixpoint well_formed (s : JsString) : bool :=
  match s with
  | [] => true
  | c :: rest =>
      if is_high_surrogate c then
        match rest with
        | d :: rest' => is_low_surrogate d && well_formed rest'
        | [] => false
        end
      else negb (is_low_surrogate c) && well_formed rest
  end.

(** [s.split(sep)] for a one-unit separator. *)
Fixpoint split_on (sep : N) (s : JsString) : list JsString :=
  match s with
  | [] => [[]]
  | c :: rest =>
      if (c =? sep)%N then [] :: split_on sep rest
      else match split_on sep rest with
           | [] => [[c]]
           | piece :: pieces => (c :: piece) :: pieces
           end
  end.

(** White space and line terminators, which [parseInt] skips. *)
Definition is_space (c : N) : bool :=
  ((c =? 32) || ((9 <=? c) && (c <=? 13)) || (c =? 160) || (c =? 5760)
   || ((8192 <=? c) && (c <=? 8202)) || (c =? 8232) || (c =? 8233)
   || (c =? 8239) || (c =? 8287) || (c =? 12288) || (c =? 65279))%N.

Fixpoint skip_spaces (s : JsString) : JsString :=
  match s with
  | c :: rest => if is_space c then skip_spaces rest else s
  | [] => []
  end.

Definition digit_of (c : N) : option Z :=
  if ((48 <=? c) && (c <=? 57))%N then Some (Z.of_N c - 48) else None.

Fixpoint digits_prefix (acc : Z) (s : JsString) : Z :=
  match s with
  | c :: rest =>
      match digit_of c with
      | Some d => digits_prefix (10 * acc + d) rest
      | None => acc
      end
  | [] => acc
  end.

Definition starts_with_digit (s : JsString) : bool :=
  match s with
  | c :: _ => match digit_of c with Some _ => true | None => false end
  | [] => false
  end.

(** [parseInt(s, 10)]; [None] is [NaN].  [undefined] is passed as the
    text "undefined", which has no digits. *)
Definition parseInt10 (s : option JsString) : option Z :=
  match s with
  | None => None
  | Some s =>
      let t := skip_spaces s in
      let '(neg, u) :=
        match t with
        | 45%N :: u => (true, u)
        | 43%N :: u => (false, u)
        | _ => (false, t)
        end in
      if starts_with_digit u
      then Some (if neg then - digits_prefix 0 u else digits_prefix 0 u)
      else None
  end.

End Js.

Abbreviation JsString := Js.JsString.

(** ** Numbers *)

Definition number : Type := Q.

Bind Scope Q_scope with number.

Definition num_le (a b : number) : bool := Qle_bool a b.
Definition num_lt (a b : number) : bool := negb (Qle_bool b a).
Definition num_ge (a b : number) : bool := Qle_bool b a.
Definition num_gt (a b : number) : bool := negb (Qle_bool a b).

(** [Math.min(a, b)] *)
Definition Math_min (a b : number) : number :=
  if Qle_bool a b then a else b.

(** [x ?? d] *)
Definition nullish {A : Type} (x : option A) (d : A) : A :=
  match x with Some v => v | None => d end.

Notation "x ?? d" := (nullish x d) (at level 45, left associativity).

Definition of_Z (z : Z) : number := inject_Z z.

Definition of_len {A : Type} (l : list A) : number :=
  inject_Z (Z.of_nat (List.length l)).

(** ** Messages ([src/types/index.ts]) *)

Record LogEntry : Type := mkLogEntry {
  entry_version : option JsString;
  payload : JsString;
  source : JsString;
  timestamp : option JsString;
  payloadType : option JsString;
  metadata : option (list (JsString * JsString));
  entryType : Z;
  logLevel : Z
}.

Record LogBatch : Type := mkLogBatch {
  batch_version : option JsString;
  entries : list LogEntry
}.

Record PingRequest : Type := mkPingRequest {
  ping_version : option JsString;
  ping_action : JsString
}.

Record AuthRequest : Type := mkAuthRequest {
  auth_version : option JsString;
  auth_action : JsString;
  shared_secret : JsString
}.

Definition DEFAULT_PROTOCOL_VERSION : JsString := Js.of_ascii "1.0".

(** What [sendData] serialises: [LogEntry | LogBatch | PingRequest |
    AuthRequest]. *)
Inductive Message : Type :=
| MsgEntry (e : LogEntry)
| MsgBatch (b : LogBatch)
| MsgPing (p : PingRequest)
| MsgAuth (a : AuthRequest).

(** A parsed JSON document, as [JSON.parse] returns it. *)
#[local] Unset Elimination Schemes.
Inductive Json : Type :=
| JNull
| JBool (b : bool)
| JNum (n : number)
| JStr (s : JsString)
| JArr (items : list Json)
| JObj (fields : list (JsString * Json)).
#[local] Set Elimination Schemes.

(** Truthiness of a parsed value, for [response && ...]. *)
Definition json_truthy (j : Json) : bool :=
  match j with
  | JNull => false
  | JBool b => b
  | JNum n => negb (Qeq_bool n 0)
  | JStr s => Js.truthy s
  | JArr _ => true
  | JObj _ => true
  end.

(** [obj[key]] on parsed fields: a repeated key keeps its last value. *)
Fixpoint field_lookup (key : JsString) (fields : list (JsString * Json))
  : option Json :=
  match fields with
  | [] => None
  | (k, v) :: rest =>
      match field_lookup key rest with
      | Some v' => Some v'
      | None => if Js.eqb k key then Some v else None
      end
  end.

(** [response.status]: only an object has one. *)
Definition json_status (j : Json) : option Json :=
  match j with
  | JObj fields => field_lookup (Js.of_ascii "status") fields
  | _ => None
  end.

(** [response.status === text] *)
Definition status_is (text : string) (j : Json) : bool :=
  match json_status j with
  | Some (JStr s) => Js.eqb s (Js.of_ascii text)
  | _ => false
  end.

(** ** Errors

    The code throws plain [Error] objects; each constructor is one
    [new Error(...)] site, and [message] gives its text. *)

Inductive Error : Type :=
| ErrAddressRequired
| ErrTimeoutPositive
| ErrBatchSizeRange
| ErrFlushIntervalPositive
| ErrMaxRetriesNegative
| ErrRetryDelayNegative
| ErrMaxBatchSizeRange
| ErrMaxMemoryUsagePositive
| ErrInitialRetryDelayPositive
| ErrMaxRetryDelayPositive
| ErrBackoffMultiplier
| ErrInitialAboveMax
| ErrFailureThresholdPositive
| ErrOpenTimeoutPositive
| ErrBatchClientStopped
| ErrBatchEmpty
| ErrBatchTooLarge
| ErrSharedSecretRequired
| ErrSharedSecretEmpty
| ErrUnsupportedNetwork (name : JsString)
| ErrUnixSocketNotFound (path : JsString)
| ErrInvalidTcpAddress (address : JsString)
| ErrBadPort (port : Z)
| ErrConnectionTimeout
| ErrSendTimeout
| ErrReadTimeout
| ErrNoSocket
| ErrInvalidJson
| ErrSocket (code : JsString).

Definition message (e : Error) : string :=
  match e with
  | ErrAddressRequired => "address is required"
  | ErrTimeoutPositive => "timeout must be positive"
  | ErrBatchSizeRange => "batchSize must be between 1 and 100"
  | ErrFlushIntervalPositive => "flushInterval must be positive"
  | ErrMaxRetriesNegative => "maxRetries must be non-negative"
  | ErrRetryDelayNegative => "retryDelay must be non-negative"
  | ErrMaxBatchSizeRange => "maxBatchSize must be between 1 and 100"
  | ErrMaxMemoryUsagePositive => "maxMemoryUsage must be positive"
  | ErrInitialRetryDelayPositive => "initialRetryDelay must be positive"
  | ErrMaxRetryDelayPositive => "maxRetryDelay must be positive"
  | ErrBackoffMultiplier => "retryBackoffMultiplier must be greater than 1"
  | ErrInitialAboveMax =>
      "initialRetryDelay must be less than or equal to maxRetryDelay"
  | ErrFailureThresholdPositive =>
      "circuitBreakerFailureThreshold must be positive"
  | ErrOpenTimeoutPositive => "circuitBreakerOpenTimeout must be positive"
  | ErrBatchClientStopped => "batch client has been stopped"
  | ErrBatchEmpty => "batch must contain at least one entry"
  | ErrBatchTooLarge => "batch cannot contain more than 100 entries"
  | ErrSharedSecretRequired =>
      "shared secret is required for TCP authentication"
  | ErrSharedSecretEmpty => "sharedSecret cannot be empty for authentication"
  | ErrUnsupportedNetwork _ => "unsupported network type"
  | ErrUnixSocketNotFound _ => "Unix socket not found"
  | ErrInvalidTcpAddress _ => "Invalid TCP address format"
  | ErrBadPort _ => "Port should be >= 0 and < 65536"
  | ErrConnectionTimeout => "Connection timeout"
  | ErrSendTimeout => "Send timeout"
  | ErrReadTimeout => "Read timeout"
  | ErrNoSocket => "No socket connection"
  | ErrInvalidJson => "Invalid JSON response"
  | ErrSocket _ => "socket error"
  end%string.


(** Errors that come from the socket or its timers. *)
Definition is_transport_error (e : Error) : bool :=
  match e with
  | ErrUnixSocketNotFound _ | ErrInvalidTcpAddress _ | ErrBadPort _
  | ErrConnectionTimeout | ErrSendTimeout | ErrReadTimeout | ErrNoSocket
  | ErrInvalidJson | ErrSocket _ => true
  | _ => false
  end.

(** ** The monad of methods *)

Inductive Result (A : Type) : Type :=
| Ok (a : A)
| Throw (e : Error).

Arguments Ok {A} a.
Arguments Throw {A} e.

Definition M (S A : Type) : Type := S -> Result A * S.

Definition ret {S A : Type} (a : A) : M S A := fun s => (Ok a, s).

Definition throw {S A : Type} (e : Error) : M S A := fun s => (Throw e, s).

Definition bind {S A B : Type} (m : M S A) (k : A -> M S B) : M S B :=
  fun s =>
    match m s with
    | (Ok a, s') => k a s'
    | (Throw e, s') => (Throw e, s')
    end.

(** [try { m } catch (e) { h e }] *)
Definition try_catch {S A : Type} (m : M S A) (h : Error -> M S A) : M S A :=
  fun s =>
    match m s with
    | (Ok a, s') => (Ok a, s')
    | (Throw e, s') => h e s'
    end.

(** [await call] while other callers run [meanwhile]: when the caller
    continues with the outcome of the call, the others have run.  What
    they throw goes to them, not to the caller. *)
Definition await_while {S A : Type} (call : M S A) (meanwhile : M S unit)
  : M S A :=
  fun s =>
    match call s with
    | (r, s1) => (r, snd (meanwhile s1))
    end.

Definition gets {S A : Type} (f : S -> A) : M S A := fun s => (Ok (f s), s).

Definition modify {S : Type} (f : S -> S) : M S unit := fun s => (Ok tt, f s).

Definition when {S : Type} (b : bool) (m : M S unit) : M S unit :=
  if b then m else ret tt.

(** Run a computation on one component of a pair of states. *)
Definition on_snd {S T A : Type} (m : M T A) : M (S * T) A :=
  fun st =>
    match m (snd st) with
    | (r, t') => (r, (fst st, t'))
    end.

Declare Scope method_scope.
Delimit Scope method_scope with method.

Notation "x <- m ;; k" := (bind m (fun x => k))
  (at level 61, m at next level, right associativity) : method_scope.
Notation "m ;; k" := (bind m (fun _ => k))
  (at level 61, right associativity) : method_scope.

Local Open Scope method_scope.

Definition threw {A : Type} (r : Result A) : bool :=
  match r with Ok _ => false | Throw _ => true end.

(** ** Configuration ([src/config/index.ts]) *)

Inductive NetworkType : Type :=
| Unix
| TCP
| OtherNetwork (name : JsString).

Definition is_TCP (n : NetworkType) : bool :=
  match n with TCP => true | _ => false end.

(** [Config].  Its [flushInterval] field is written [conn_flushInterval]
    here, because [BatchConfig] has a field of the same name. *)
Record Config : Type := mkConfig {
  network : NetworkType;
  address : JsString;
  timeout : number;
  sharedSecret : option JsString;
  batchSize : number;
  conn_flushInterval : number;
  maxRetries : number;
  retryDelay : number
}.

Record BatchConfig : Type := mkBatchConfig {
  maxBatchSize : number;
  flushInterval : number;
  maxMemoryUsage : number;
  flushOnExit : bool;
  initialRetryDelay : option number;
  maxRetryDelay : option number;
  retryBackoffMultiplier : option number;
  circuitBreakerFailureThreshold : option number;
  circuitBreakerOpenTimeout : option number
}.

Definition MIN_BATCH_SIZE : number := 1.
Definition MAX_BATCH_SIZE : number := 100.
Definition DEFAULT_TIMEOUT : number := 2000.
Definition DEFAULT_FLUSH_INTERVAL : number := 1000.
Definition DEFAULT_RETRY_DELAY : number := 1000.
Definition DEFAULT_INITIAL_RETRY_DELAY : number := 500.
Definition DEFAULT_MAX_RETRY_DELAY : number := 30000.
Definition DEFAULT_RETRY_BACKOFF_MULTIPLIER : number := 2.
Definition DEFAULT_CIRCUIT_BREAKER_FAILURE_THRESHOLD : number := 5.
Definition DEFAULT_CIRCUIT_BREAKER_OPEN_TIMEOUT : number := 10000.

Definition createDefaultConfig : Config :=
  {| network := Unix;
     address := Js.of_ascii "/tmp/logflux-agent.sock";
     timeout := DEFAULT_TIMEOUT;
     sharedSecret := None;
     batchSize := 10;
     conn_flushInterval := DEFAULT_FLUSH_INTERVAL;
     maxRetries := 3;
     retryDelay := DEFAULT_RETRY_DELAY |}.

Definition createDefaultBatchConfig : BatchConfig :=
  {| maxBatchSize := MAX_BATCH_SIZE;
     flushInterval := DEFAULT_FLUSH_INTERVAL;
     maxMemoryUsage := 512 * 1024;
     flushOnExit := true;
     initialRetryDelay := Some DEFAULT_INITIAL_RETRY_DELAY;
     maxRetryDelay := Some DEFAULT_MAX_RETRY_DELAY;
     retryBackoffMultiplier := Some DEFAULT_RETRY_BACKOFF_MULTIPLIER;
     circuitBreakerFailureThreshold :=
       Some DEFAULT_CIRCUIT_BREAKER_FAILURE_THRESHOLD;
     circuitBreakerOpenTimeout := Some DEFAULT_CIRCUIT_BREAKER_OPEN_TIMEOUT |}.

(** [!s] for an optional string: undefined and the empty string are
    falsy. *)
Definition falsy_string (s : option JsString) : bool :=
  match s with
  | None => true
  | Some t => negb (Js.truthy t)
  end.

(** A synchronous validator: the first failing check throws. *)
Definition check (bad : bool) (e : Error) : option Error :=
  if bad then Some e else None.

Fixpoint first_error (checks : list (option Error)) : option Error :=
  match checks with
  | [] => None
  | Some e :: _ => Some e
  | None :: rest => first_error rest
  end.

(** [validateConfig], without its warning on the console (see
    [LogFluxClient.new]). *)
Definition validateConfig (config : Config) : option Error :=
  first_error
    [ check (negb (Js.truthy (address config))) ErrAddressRequired;
      check (num_le (timeout config) 0) ErrTimeoutPositive;
      check (num_lt (batchSize config) MIN_BATCH_SIZE
             || num_gt (batchSize config) MAX_BATCH_SIZE) ErrBatchSizeRange;
      check (num_le (conn_flushInterval config) 0) ErrFlushIntervalPositive;
      check (num_lt (maxRetries config) 0) ErrMaxRetriesNegative;
      check (num_lt (retryDelay config) 0) ErrRetryDelayNegative ].

(** [x !== undefined && x <= bound] *)
Definition defined_le (x : option number) (bound : number) : bool :=
  match x with
  | Some v => num_le v bound
  | None => false
  end.

Definition validateBatchBasicConfig (config : BatchConfig) : option Error :=
  first_error
    [ check (num_lt (maxBatchSize config) MIN_BATCH_SIZE
             || num_gt (maxBatchSize config) MAX_BATCH_SIZE)
        ErrMaxBatchSizeRange;
      check (num_le (flushInterval config) 0) ErrFlushIntervalPositive;
      check (num_le (maxMemoryUsage config) 0) ErrMaxMemoryUsagePositive ].

Definition validateBatchRetryConfig (config : BatchConfig) : option Error :=
  first_error
    [ check (defined_le (initialRetryDelay config) 0)
        ErrInitialRetryDelayPositive;
      check (defined_le (maxRetryDelay config) 0) ErrMaxRetryDelayPositive;
      check (defined_le (retryBackoffMultiplier config) 1)
        ErrBackoffMultiplier;
      check (match initialRetryDelay config, maxRetryDelay config with
             | Some i, Some m => num_gt i m
             | _, _ => false
             end) ErrInitialAboveMax ].

Definition validateBatchCircuitBreakerConfig (config : BatchConfig)
  : option Error :=
  first_error
    [ check (defined_le (circuitBreakerFailureThreshold config) 0)
        ErrFailureThresholdPositive;
      check (defined_le (circuitBreakerOpenTimeout config) 0)
        ErrOpenTimeoutPositive ].

Definition validateBatchConfig (config : BatchConfig) : option Error :=
  first_error
    [ validateBatchBasicConfig config;
      validateBatchRetryConfig config;
      validateBatchCircuitBreakerConfig config ].

(** ** Message constructors ([src/types/index.ts]) *)

Definition createPingRequest : PingRequest :=
  {| ping_version := Some DEFAULT_PROTOCOL_VERSION;
     ping_action := Js.of_ascii "ping" |}.

Definition createAuthRequest (secret : JsString) : Result AuthRequest :=
  if negb (Js.truthy secret) then Throw ErrSharedSecretEmpty
  else Ok {| auth_version := Some DEFAULT_PROTOCOL_VERSION;
             auth_action := Js.of_ascii "authenticate";
             shared_secret := secret |}.

(** ** The outside world *)

Inductive Socket : Type :=
| UnixSocket (path : JsString)
| TcpSocket (port : Z) (host : JsString).

Inductive ConnectReply : Type :=
| Connects
| ConnectFails (code : JsString)
| ConnectSilent.

Inductive WriteReply : Type :=
| Written
| WriteFails (code : JsString)
| WriteSilent.

(** [Data None] is a chunk of bytes that is not a JSON document. *)
Inductive ReadReply : Type :=
| Data (document : option Json)
| ReadSilent.

(** How the network behaves during one awaited socket operation, and how
    long the operation takes (in milliseconds).  A silent peer makes the
    operation's timer fire. *)
Record NetReply : Type := mkNetReply {
  elapsed : N;
  on_connect : ConnectReply;
  on_write : WriteReply;
  on_read : ReadReply
}.

Definition silence : NetReply :=
  {| elapsed := 0; on_connect := ConnectSilent;
     on_write := WriteSilent; on_read := ReadSilent |}.

Inductive ConsoleLine : Type :=
| WarnTcpWithoutSecret
| ErrorAuthenticationFailed (e : Error)
| WarnCircuitOpenDropped (droppedCount : nat)
| ErrorDuringBatchStop (e : Error)
| ErrorDuringTimerFlush (e : Error)
| ErrorDuringExitFlush (e : Error)
| WarnEntriesLostOnExit (count : nat).

(** A public method of the transport client.  The log records, as a spy
    on the client would, when such a method is called and when it
    returns; the code never reads the log. *)
Inductive Method : Type :=
| CallConnect
| CallClose
| CallSendLogEntry (e : LogEntry)
| CallSendLogBatch (b : LogBatch)
| CallPing
| CallAuthenticate.

Inductive Event : Type :=
| Called (m : Method)
| Returned (m : Method)
| FsExistsSync (path : JsString)
| CreateConnection (s : Socket)
| SocketWrite (m : Message)
| SocketOnceData
| SocketDestroy
| Console (line : ConsoleLine).

Record World : Type := mkWorld {
  files : list JsString;
  clock : Z;
  script : list NetReply;
  log : list Event
}.

Definition emit (e : Event) : M World unit :=
  modify (fun w =>
    {| files := files w; clock := clock w; script := script w;
       log := log w ++ [e] |}).

(** [Date.now()] *)
Definition Date_now : M World Z := gets clock.

(** [fs.existsSync(path)] *)
Definition existsSync (path : JsString) : M World bool :=
  emit (FsExistsSync path) ;;
  gets (fun w => existsb (Js.eqb path) (files w)).

(** Await one socket operation: the next behaviour of the script, with
    the clock advanced by the time it took.  Past the end of the script
    the peer is silent. *)
Definition await_network : M World NetReply :=
  fun w =>
    match script w with
    | [] => (Ok silence, w)
    | r :: rest =>
        (Ok r, {| files := files w; clock := clock w + Z.of_N (elapsed r);
                  script := rest; log := log w |})
    end.

(** Time passing between two calls. *)
Definition sleep (ms : N) (w : World) : World :=
  {| files := files w; clock := clock w + Z.of_N ms;
     script := script w; log := log w |}.

(** ** The transport client ([src/client/index.ts]) *)

Module LogFluxClient.

Record t : Type := mk {
  config : Config;
  socket : option Socket;
  connected : bool
}.

Definition set_socket (s : option Socket) (c : t) : t :=
  {| config := config c; socket := s; connected := connected c |}.

Definition set_connected (b : bool) (c : t) : t :=
  {| config := config c; socket := socket c; connected := b |}.

(** A method runs on the client object and the world. *)
Definition St : Type := (t * World)%type.

Definition this {A : Type} (f : t -> A) : M St A :=
  gets (fun st => f (fst st)).

Definition update (f : t -> t) : M St unit :=
  modify (fun st => (f (fst st), snd st)).

Definition world {A : Type} (m : M World A) : M St A := on_snd m.

(** The body of a public method, between the two records of the spy. *)
Definition spied {A : Type} (m : Method) (body : M St A) : M St A :=
  world (emit (Called m)) ;;
  result <- body ;;
  world (emit (Returned m)) ;;
  ret result.

(** [new LogFluxClient(config)]: [validateConfig] throws on the first
    bad field and warns about a TCP configuration without a secret. *)
Definition new (cfg : option Config) : M World t :=
  let config := cfg ?? createDefaultConfig in
  match validateConfig config with
  | Some e => throw e
  | None =>
      when (is_TCP (network config) && falsy_string (sharedSecret config))
        (emit (Console WarnTcpWithoutSecret)) ;;
      ret {| config := config; socket := None; connected := false |}
  end.

(** [this.socket?.destroy()] *)
Definition destroy_socket : M St unit :=
  s <- this socket ;;
  match s with
  | Some _ => world (emit SocketDestroy)
  | None => ret tt
  end.

(** The part of [connectUnix] and [connectTCP] after
    [net.createConnection]: the first of the 'connect' event, the
    'error' event and the timer decides. *)
Definition await_connect (s : Socket) : M St unit :=
  world (emit (CreateConnection s)) ;;
  update (set_socket (Some s)) ;;
  r <- world await_network ;;
  match on_connect r with
  | Connects => ret tt
  | ConnectFails code => throw (ErrSocket code)
  | ConnectSilent => destroy_socket ;; throw ErrConnectionTimeout
  end.

(** [connectUnix] (index.ts 137-163) *)
Definition connectUnix : M St unit :=
  path <- this (fun c => address (config c)) ;;
  found <- world (existsSync path) ;;
  if negb found then throw (ErrUnixSocketNotFound path)
  else await_connect (UnixSocket path).

(** [!port] for the result of [parseInt]: [NaN] and [0] are falsy. *)
Definition falsy_port (p : option Z) : bool :=
  match p with
  | None => true
  | Some n => n =? 0
  end.

(** [connectTCP] (index.ts 165-192).  [net.createConnection(port, host)]
    throws at once when the port is outside 0..65535, before the socket
    is stored. *)
Definition connectTCP : M St unit :=
  addr <- this (fun c => address (config c)) ;;
  let parts := Js.split_on 58 addr in
  let host := List.hd [] parts in
  let port := Js.parseInt10 (List.nth_error parts 1) in
  if negb (Js.truthy host) || falsy_port port
  then throw (ErrInvalidTcpAddress addr)
  else
    let p := port ?? 0 in
    if (p <? 0) || (65535 <? p) then throw (ErrBadPort p)
    else await_connect (TcpSocket p host).

(** [connect] (index.ts 27-44) *)
Definition connect : M St unit :=
  spied CallConnect
    (c <- this connected ;;
     if c then ret tt
     else
       (n <- this (fun c => network (config c)) ;;
        match n with
        | Unix => connectUnix
        | TCP => connectTCP
        | OtherNetwork name => throw (ErrUnsupportedNetwork name)
        end) ;;
       update (set_connected true)).

(** [close] (index.ts 49-55) *)
Definition close : M St unit :=
  spied CallClose
    (s <- this socket ;;
     match s with
     | Some _ =>
         world (emit SocketDestroy) ;;
         update (set_socket None)
     | None => ret tt
     end ;;
     update (set_connected false)).

(** [sendSocket] (index.ts 208-232): the write callback or the send
    timer settles the promise. *)
Definition sendSocket (data : Message) : M St unit :=
  s <- this socket ;;
  match s with
  | None => throw ErrNoSocket
  | Some _ =>
      world (emit (SocketWrite data)) ;;
      r <- world await_network ;;
      match on_write r with
      | Written => ret tt
      | WriteFails code => throw (ErrSocket code)
      | WriteSilent => throw ErrSendTimeout
      end
  end.

(** [sendData] (index.ts 195-206) *)
Definition sendData (data : Message) : M St unit :=
  n <- this (fun c => network (config c)) ;;
  match n with
  | Unix | TCP => sendSocket data
  | OtherNetwork name => throw (ErrUnsupportedNetwork name)
  end.

(** [readResponse] (index.ts 235-261): one 'data' event, parsed as
    JSON, or the read timer. *)
Definition readResponse : M St Json :=
  s <- this socket ;;
  match s with
  | None => throw ErrNoSocket
  | Some _ =>
      world (emit SocketOnceData) ;;
      r <- world await_network ;;
      match on_read r with
      | Data (Some response) => ret response
      | Data None => throw ErrInvalidJson
      | ReadSilent => throw ErrReadTimeout
      end
  end.

(** [sendLogEntry] (index.ts 60-66) *)
Definition sendLogEntry (entry : LogEntry) : M St unit :=
  spied (CallSendLogEntry entry)
    (c <- this connected ;;
     when (negb c) connect ;;
     sendData (MsgEntry entry)).

(** [sendLogBatch] (index.ts 71-86) *)
Definition sendLogBatch (batch : LogBatch) : M St unit :=
  spied (CallSendLogBatch batch)
    match entries batch with
    | [] => throw ErrBatchEmpty
    | _ :: _ =>
        if (100 <? Z.of_nat (List.length (entries batch)))
        then throw ErrBatchTooLarge
        else
          c <- this connected ;;
          when (negb c) connect ;;
          sendData (MsgBatch batch)
    end.

(** [Boolean(response && response.status === text)] *)
Definition response_has_status (text : string) (response : Json) : bool :=
  json_truthy response && status_is text response.

(** [ping] (index.ts 91-107) *)
Definition ping : M St bool :=
  spied CallPing
    (c <- this connected ;;
     when (negb c) connect ;;
     try_catch
       (sendData (MsgPing createPingRequest) ;;
        response <- readResponse ;;
        ret (response_has_status "pong" response))
       (fun _ => ret false)).

(** [authenticate] (index.ts 112-135) *)
Definition authenticate : M St bool :=
  spied CallAuthenticate
    (n <- this (fun c => network (config c)) ;;
     if negb (is_TCP n) then ret true
     else
       secret <- this (fun c => sharedSecret (config c)) ;;
       if falsy_string secret then throw ErrSharedSecretRequired
       else
         c <- this connected ;;
         when (negb c) connect ;;
         try_catch
           (match createAuthRequest (secret ?? []) with
            | Throw e => throw e
            | Ok authRequest =>
                sendData (MsgAuth authRequest) ;;
                response <- readResponse ;;
                ret (response_has_status "success" response)
            end)
           (fun error =>
              world (emit (Console (ErrorAuthenticationFailed error))) ;;
              ret false)).

Definition getConfig (c : t) : Config := config c.

Definition isConnected (c : t) : bool := connected c.

Definition createUnixClient (socketPath : option JsString) : M World t :=
  new (Some
    {| network := Unix;
       address := socketPath ?? Js.of_ascii "/tmp/logflux-agent.sock";
       timeout := timeout createDefaultConfig;
       sharedSecret := sharedSecret createDefaultConfig;
       batchSize := batchSize createDefaultConfig;
       conn_flushInterval := conn_flushInterval createDefaultConfig;
       maxRetries := maxRetries createDefaultConfig;
       retryDelay := retryDelay createDefaultConfig |}).

End LogFluxClient.

(** ** The batching engine ([src/client/batch.ts]) *)

Record BatchStats : Type := mkBatchStats {
  entriesProcessed : Z;
  batchesSent : Z;
  errors : Z;
  averageBatchSize : number;
  lastFlushTime : option Z
}.

Module BatchClient.

(** [flushTimer] holds the delay of the pending timer; [exitHandlers]
    tells whether the process hooks are registered. *)
Record t : Type := mk {
  client : LogFluxClient.t;
  config : BatchConfig;
  batch : list LogEntry;
  flushTimer : option number;
  stopped : bool;
  exitHandlers : bool;
  stats : BatchStats;
  consecutiveFailures : Z;
  nextRetryDelay : number;
  circuitOpen : bool;
  circuitOpenTime : option Z
}.

Definition set_client (c : LogFluxClient.t) (s : t) : t :=
  mk c (config s) (batch s) (flushTimer s) (stopped s) (exitHandlers s)
     (stats s) (consecutiveFailures s) (nextRetryDelay s) (circuitOpen s)
     (circuitOpenTime s).

Definition set_batch (b : list LogEntry) (s : t) : t :=
  mk (client s) (config s) b (flushTimer s) (stopped s) (exitHandlers s)
     (stats s) (consecutiveFailures s) (nextRetryDelay s) (circuitOpen s)
     (circuitOpenTime s).

Definition set_flushTimer (d : option number) (s : t) : t :=
  mk (client s) (config s) (batch s) d (stopped s) (exitHandlers s)
     (stats s) (consecutiveFailures s) (nextRetryDelay s) (circuitOpen s)
     (circuitOpenTime s).

Definition set_stopped (b : bool) (s : t) : t :=
  mk (client s) (config s) (batch s) (flushTimer s) b (exitHandlers s)
     (stats s) (consecutiveFailures s) (nextRetryDelay s) (circuitOpen s)
     (circuitOpenTime s).

Definition set_exitHandlers (b : bool) (s : t) : t :=
  mk (client s) (config s) (batch s) (flushTimer s) (stopped s) b
     (stats s) (consecutiveFailures s) (nextRetryDelay s) (circuitOpen s)
     (circuitOpenTime s).

Definition set_stats (st : BatchStats) (s : t) : t :=
  mk (client s) (config s) (batch s) (flushTimer s) (stopped s)
     (exitHandlers s) st (consecutiveFailures s) (nextRetryDelay s)
     (circuitOpen s) (circuitOpenTime s).

Definition set_consecutiveFailures (n : Z) (s : t) : t :=
  mk (client s) (config s) (batch s) (flushTimer s) (stopped s)
     (exitHandlers s) (stats s) n (nextRetryDelay s) (circuitOpen s)
     (circuitOpenTime s).

Definition set_nextRetryDelay (d : number) (s : t) : t :=
  mk (client s) (config s) (batch s) (flushTimer s) (stopped s)
     (exitHandlers s) (stats s) (consecutiveFailures s) d (circuitOpen s)
     (circuitOpenTime s).

Definition set_circuit (open : bool) (since : option Z) (s : t) : t :=
  mk (client s) (config s) (batch s) (flushTimer s) (stopped s)
     (exitHandlers s) (stats s) (consecutiveFailures s) (nextRetryDelay s)
     open since.

Definition St : Type := (t * World)%type.

Definition this {A : Type} (f : t -> A) : M St A :=
  gets (fun st => f (fst st)).

Definition update (f : t -> t) : M St unit :=
  modify (fun st => (f (fst st), snd st)).

Definition world {A : Type} (m : M World A) : M St A := on_snd m.

(** A method of [this.client], run on the client the engine owns. *)
Definition on_client {A : Type} (m : M LogFluxClient.St A) : M St A :=
  fun st =>
    match m (client (fst st), snd st) with
    | (r, (c', w')) => (r, (set_client c' (fst st), w'))
    end.

(** The defaults the methods fall back on ([?? 1000] and the like). *)
Definition initialDelay (c : BatchConfig) : number :=
  initialRetryDelay c ?? 1000%Q.

Definition multiplier (c : BatchConfig) : number :=
  retryBackoffMultiplier c ?? 2%Q.

Definition maxDelay (c : BatchConfig) : number :=
  maxRetryDelay c ?? 60000%Q.

Definition openTimeout (c : BatchConfig) : number :=
  circuitBreakerOpenTimeout c ?? 10000%Q.

Definition threshold (c : BatchConfig) : number :=
  circuitBreakerFailureThreshold c ?? 5%Q.

(** The delay [scheduleNextFlush] uses. *)
Definition timerDelay (s : t) : number :=
  if 0 <? consecutiveFailures s then nextRetryDelay s
  else flushInterval (config s).

Definition initialStats : BatchStats :=
  {| entriesProcessed := 0; batchesSent := 0; errors := 0;
     averageBatchSize := 0; lastFlushTime := None |}.

(** [new BatchClient(client, batchConfig)], for a client that is not
    null.  [startFlushTimer] schedules the first timer and the exit
    hooks are registered when [flushOnExit] is set. *)
Definition new (client : LogFluxClient.t) (batchConfig : option BatchConfig)
  : Result t :=
  let config := batchConfig ?? createDefaultBatchConfig in
  match validateBatchConfig config with
  | Some e => Throw e
  | None =>
      Ok {| client := client;
            config := config;
            batch := [];
            flushTimer := Some (flushInterval config);
            stopped := false;
            exitHandlers := flushOnExit config;
            stats := initialStats;
            consecutiveFailures := 0;
            nextRetryDelay := initialDelay config;
            circuitOpen := false;
            circuitOpenTime := None |}
  end.

(** The size of one entry in [getEstimatedMemoryUsage]'s loop body,
    added to the running total. *)
Definition addEntrySize (totalSize : Z) (entry : LogEntry) : Z :=
  let totalSize := totalSize + 200 in
  let totalSize := totalSize + Js.byteLength (payload entry) in
  match metadata entry with
  | Some fields =>
      List.fold_left
        (fun total kv => total + Js.byteLength (fst kv ++ snd kv))
        fields totalSize
  | None => totalSize
  end.

(** [getEstimatedMemoryUsage] (batch.ts 266-282) *)
Definition getEstimatedMemoryUsage (s : t) : Z :=
  List.fold_left addEntrySize (batch s) 0.

(** [calculateNextRetryDelay] (batch.ts 287-295) *)
Definition calculateNextRetryDelay : M St unit :=
  update (fun s =>
    set_nextRetryDelay
      (Math_min (nextRetryDelay s * multiplier (config s))
                (maxDelay (config s))) s).

(** [updateAverageBatchSize] (batch.ts 311-314) *)
Definition updateAverageBatchSize (batchSize : Z) : M St unit :=
  update (fun s =>
    let st := stats s in
    let totalEntries :=
      (averageBatchSize st * (of_Z (batchesSent st) - 1) + of_Z batchSize)%Q in
    set_stats
      {| entriesProcessed := entriesProcessed st;
         batchesSent := batchesSent st;
         errors := errors st;
         averageBatchSize := (totalEntries / of_Z (batchesSent st))%Q;
         lastFlushTime := lastFlushTime st |} s).

(** [this.circuitOpenTime && Date.now() - this.circuitOpenTime >=
    openTimeout]: an undefined or zero time is falsy. *)
Definition cooldownElapsed (s : t) (now : Z) : bool :=
  match circuitOpenTime s with
  | Some since =>
      negb (since =? 0) && num_ge (of_Z (now - since)) (openTimeout (config s))
  | None => false
  end.

(** [isCircuitOpen] (batch.ts 319-335) *)
Definition isCircuitOpen : M St bool :=
  isOpen <- this circuitOpen ;;
  if negb isOpen then ret false
  else
    now <- world Date_now ;;
    elapsed <- this (fun s => cooldownElapsed s now) ;;
    if elapsed then
      update (set_circuit false None) ;;
      ret false
    else ret true.

(** [openCircuit] (batch.ts 340-346) *)
Definition openCircuit : M St unit :=
  reached <- this (fun s =>
    num_ge (of_Z (consecutiveFailures s)) (threshold (config s))) ;;
  if reached then
    now <- world Date_now ;;
    update (set_circuit true (Some now))
  else ret tt.

(** [this.stats.errors++] *)
Definition bumpErrors (s : t) : t :=
  let st := stats s in
  set_stats
    {| entriesProcessed := entriesProcessed st;
       batchesSent := batchesSent st;
       errors := errors st + 1;
       averageBatchSize := averageBatchSize st;
       lastFlushTime := lastFlushTime st |} s.

(** [this.stats.entriesProcessed++] *)
Definition bumpEntriesProcessed (s : t) : t :=
  let st := stats s in
  set_stats
    {| entriesProcessed := entriesProcessed st + 1;
       batchesSent := batchesSent st;
       errors := errors st;
       averageBatchSize := averageBatchSize st;
       lastFlushTime := lastFlushTime st |} s.

(** [this.stats.batchesSent++; this.stats.lastFlushTime = new Date()] *)
Definition recordSend (now : Z) (s : t) : t :=
  let st := stats s in
  set_stats
    {| entriesProcessed := entriesProcessed st;
       batchesSent := batchesSent st + 1;
       errors := errors st;
       averageBatchSize := averageBatchSize st;
       lastFlushTime := Some now |} s.

(** The start of [addLogEntry] (batch.ts 75-80): the stopped check, the
    push and the count. *)
Definition enqueue (entry : LogEntry) : M St unit :=
  isStopped <- this stopped ;;
  if isStopped then throw ErrBatchClientStopped
  else
    update (fun s => set_batch (batch s ++ [entry]) s) ;;
    update bumpEntriesProcessed.

(** Entries that other callers add while a flush awaits the transport.
    Each of them stays below the flush thresholds, so that its
    [addLogEntry] call is [enqueue] and nothing more. *)
Fixpoint arrive (arrivals : list LogEntry) : M St unit :=
  match arrivals with
  | [] => ret tt
  | entry :: rest =>
      try_catch (enqueue entry) (fun _ => ret tt) ;;
      arrive rest
  end.

(** [flush] (batch.ts 95-140), with the entries that arrive while it
    awaits [sendLogBatch]. *)
Definition flushWhile (arrivals : list LogEntry) : M St unit :=
  pending <- this batch ;;
  match pending with
  | [] => ret tt
  | _ :: _ =>
      blocked <- isCircuitOpen ;;
      if blocked then
        droppedCount <- this (fun s => List.length (batch s)) ;;
        update (set_batch []) ;;
        world (emit (Console (WarnCircuitOpenDropped droppedCount)))
      else
        batchToSend <- this batch ;;
        update (set_batch []) ;;
        try_catch
          (await_while
             (on_client (LogFluxClient.sendLogBatch
                {| batch_version := None; entries := batchToSend |}))
             (arrive arrivals) ;;
           update (set_consecutiveFailures 0) ;;
           update (fun s => set_nextRetryDelay (initialDelay (config s)) s) ;;
           now <- world Date_now ;;
           update (recordSend now) ;;
           updateAverageBatchSize (Z.of_nat (List.length batchToSend)))
          (fun error =>
             update bumpErrors ;;
             update (fun s =>
               set_consecutiveFailures (consecutiveFailures s + 1) s) ;;
             calculateNextRetryDelay ;;
             openCircuit ;;
             update (fun s => set_batch (batchToSend ++ batch s) s) ;;
             throw error)
  end.

(** [flush] when every call is awaited before the next one is made. *)
Definition flush : M St unit := flushWhile [].

(** [addLogEntry] (batch.ts 74-90) *)
Definition addLogEntry (entry : LogEntry) : M St unit :=
  enqueue entry ;;
  full <- this (fun s =>
    num_ge (of_len (batch s)) (maxBatchSize (config s))) ;;
  if full then flush
  else
    heavy <- this (fun s =>
      num_ge (of_Z (getEstimatedMemoryUsage s))
             (maxMemoryUsage (config s))) ;;
    if heavy then flush else ret tt.

(** [removeExitHandlers] (batch.ts 255-264) *)
Definition removeExitHandlers : M St unit :=
  update (set_exitHandlers false).

(** [stop] (batch.ts 145-167) *)
Definition stop : M St unit :=
  update (set_stopped true) ;;
  update (set_flushTimer None) ;;
  removeExitHandlers ;;
  pending <- this batch ;;
  match pending with
  | _ :: _ =>
      try_catch flush
        (fun error => world (emit (Console (ErrorDuringBatchStop error))))
  | [] => ret tt
  end ;;
  on_client LogFluxClient.close.

Definition getStats (s : t) : BatchStats := stats s.

Definition getPendingCount (s : t) : nat := List.length (batch s).

Definition getConfig (s : t) : BatchConfig := config s.

Definition isStopped (s : t) : bool := stopped s.

Definition getCurrentRetryDelay (s : t) : number := nextRetryDelay s.

Definition getConsecutiveFailures (s : t) : Z := consecutiveFailures s.

(** The callback of the flush timer (batch.ts 204-218).  The promise of [flush()] is not
    awaited, so the next timer is scheduled, from the failure count and
    delay of that moment, before the send settles. *)
Definition onFlushTimer : M St unit :=
  isStopped <- this stopped ;;
  pending <- this batch ;;
  when (negb isStopped)
    (update (fun s => set_flushTimer (Some (timerDelay s)) s)) ;;
  match isStopped, pending with
  | false, _ :: _ =>
      try_catch flush
        (fun error =>
           world (emit (Console (ErrorDuringTimerFlush error))) ;;
           update bumpErrors)
  | _, _ => ret tt
  end.

(** [exitHandler], run on SIGINT and SIGTERM. *)
Definition exitHandler : M St unit :=
  isStopped <- this stopped ;;
  if isStopped then ret tt
  else
    try_catch stop
      (fun error => world (emit (Console (ErrorDuringExitFlush error)))).

(** [syncExitHandler], run on 'exit'. *)
Definition syncExitHandler : M St unit :=
  isStopped <- this stopped ;;
  pending <- this batch ;;
  match isStopped, pending with
  | false, _ :: _ =>
      world (emit (Console (WarnEntriesLostOnExit (List.length pending))))
  | _, _ => ret tt
  end.

End BatchClient.

(** ** Observations

    What an observer of the world reads off the log. *)

(** The entries handed over by the [sendLogBatch] calls that returned,
    in the order of the calls. *)
Definition delivered (l : list Event) : list LogEntry :=
  List.flat_map
    (fun ev =>
       match ev with
       | Returned (CallSendLogBatch b) => entries b
       | _ => []
       end) l.

(** The batches [sendLogBatch] was called with. *)
Definition sendLogBatchCalls (l : list Event) : list LogBatch :=
  List.flat_map
    (fun ev =>
       match ev with
       | Called (CallSendLogBatch b) => [b]
       | _ => []
       end) l.

(** The batches of the [sendLogBatch] calls that returned. *)
Definition sendLogBatchReturns (l : list Event) : list LogBatch :=
  List.flat_map
    (fun ev =>
       match ev with
       | Returned (CallSendLogBatch b) => [b]
       | _ => []
       end) l.

(** The number of [sendLogBatch] calls that did not return: the calls
    that threw. *)
Definition unanswered (l : list Event) : Z :=
  Z.of_nat (List.length (sendLogBatchCalls l))
  - Z.of_nat (List.length (sendLogBatchReturns l)).

Definition consoleLines (l : list Event) : list ConsoleLine :=
  List.flat_map
    (fun ev =>
       match ev with
       | Console line => [line]
       | _ => []
       end) l.

(** The sizes of the batches dropped by the open circuit. *)
Definition drops (l : list Event) : list nat :=
  List.flat_map
    (fun ev =>
       match ev with
       | Console (WarnCircuitOpenDropped n) => [n]
       | _ => []
       end) l.

(** Anything done to the socket or the file system. *)
Definition is_network_event (ev : Event) : bool :=
  match ev with
  | FsExistsSync _ | CreateConnection _ | SocketWrite _ | SocketOnceData
  | SocketDestroy => true
  | _ => false
  end.

(** What can happen inside one call of a transport method other than
    [sendLogBatch]: no batch call starts or returns and nothing is
    printed. *)
Definition inner_event (ev : Event) : Prop :=
  match ev with
  | Called (CallSendLogBatch _) | Returned (CallSendLogBatch _)
  | Console _ => False
  | _ => True
  end.

(** A computation is tame for [Q] when it only appends events that
    satisfy [Q] to the log and never turns the clock back. *)
Definition tame (Q : Event -> Prop) {S A : Type} (wld : S -> World)
  (m : M S A) : Prop :=
  forall s,
    exists evs,
      log (wld (snd (m s))) = log (wld s) ++ evs /\
      Forall Q evs /\
      clock (wld s) <= clock (wld (snd (m s))).

(** ** The engine between the steps of its methods *)

(** The world with more events in its log. *)
Definition logged (evs : list Event) (w : World) : World :=
  {| files := files w; clock := clock w; script := script w;
     log := log w ++ evs |}.

(** The client after [close()], and what [close()] logs. *)
Definition closed (c : LogFluxClient.t) : LogFluxClient.t :=
  {| LogFluxClient.config := LogFluxClient.config c;
     LogFluxClient.socket := None;
     LogFluxClient.connected := false |}.

Definition closeEvents (c : LogFluxClient.t) : list Event :=
  Called CallClose
  :: match LogFluxClient.socket c with
     | Some _ => [SocketDestroy]
     | None => []
     end
  ++ [Returned CallClose].

(** The engine once [addLogEntry] has taken the entry in. *)
Definition accept (entry : LogEntry) (s : BatchClient.t) : BatchClient.t :=
  BatchClient.bumpEntriesProcessed
    (BatchClient.set_batch (BatchClient.batch s ++ [entry]) s).

(** The two thresholds of [addLogEntry]. *)
Definition mustFlush (s : BatchClient.t) : bool :=
  num_ge (of_len (BatchClient.batch s))
         (maxBatchSize (BatchClient.config s))
  || num_ge (of_Z (BatchClient.getEstimatedMemoryUsage s))
            (maxMemoryUsage (BatchClient.config s)).

(** The engine once [stop] has set its flags. *)
Definition halted (s : BatchClient.t) : BatchClient.t :=
  BatchClient.set_exitHandlers false
    (BatchClient.set_flushTimer None (BatchClient.set_stopped true s)).

(** The gate of [flush]: the circuit is open and the cooldown has not
    elapsed at time [now]. *)
Definition blocked (s : BatchClient.t) (now : Z) : bool :=
  BatchClient.circuitOpen s && negb (BatchClient.cooldownElapsed s now).

(** The engine once the gate has let a flush through: an open circuit
    whose cooldown has elapsed is closed. *)
Definition probe (s : BatchClient.t) (now : Z) : BatchClient.t :=
  if BatchClient.circuitOpen s && BatchClient.cooldownElapsed s now
  then BatchClient.set_circuit false None s
  else s.

(** The engine after [sendLogBatch] returned at time [now]. *)
Definition afterSend (now : Z) (sent : list LogEntry) (s : BatchClient.t)
  : BatchClient.t :=
  let s1 := BatchClient.set_consecutiveFailures 0 s in
  let s2 :=
    BatchClient.set_nextRetryDelay
      (BatchClient.initialDelay (BatchClient.config s1)) s1 in
  let s3 := BatchClient.recordSend now s2 in
  let st := BatchClient.stats s3 in
  BatchClient.set_stats
    {| entriesProcessed := entriesProcessed st;
       batchesSent := batchesSent st;
       errors := errors st;
       averageBatchSize :=
         ((averageBatchSize st * (of_Z (batchesSent st) - 1)
           + of_Z (Z.of_nat (List.length sent)))
          / of_Z (batchesSent st))%Q;
       lastFlushTime := lastFlushTime st |} s3.

(** The engine after [sendLogBatch] threw at time [now]. *)
Definition afterFailure (now : Z) (sent : list LogEntry) (s : BatchClient.t)
  : BatchClient.t :=
  let s1 := BatchClient.bumpErrors s in
  let s2 :=
    BatchClient.set_consecutiveFailures
      (BatchClient.consecutiveFailures s1 + 1) s1 in
  let s3 :=
    BatchClient.set_nextRetryDelay
      (Math_min
         (BatchClient.nextRetryDelay s2
          * BatchClient.multiplier (BatchClient.config s2))
         (BatchClient.maxDelay (BatchClient.config s2))) s2 in
  let s4 :=
    if num_ge (of_Z (BatchClient.consecutiveFailures s3))
              (BatchClient.threshold (BatchClient.config s3))
    then BatchClient.set_circuit true (Some now) s3
    else s3 in
  BatchClient.set_batch (sent ++ BatchClient.batch s4) s4.

(** The batch [flush] builds from the pending entries, and the call it
    makes when the gate lets it through. *)
Definition pendingBatch (s : BatchClient.t) : LogBatch :=
  {| batch_version := None; entries := BatchClient.batch s |}.

Definition sendPending (s : BatchClient.t) (w : World)
  : Result unit * LogFluxClient.St :=
  LogFluxClient.sendLogBatch (pendingBatch s) (BatchClient.client s, w).

(** The engine once the entries of [arrive] are in: a stopped engine
    takes none. *)
Definition arrived (arrivals : list LogEntry) (s : BatchClient.t)
  : BatchClient.t :=
  List.fold_left
    (fun s entry => if BatchClient.stopped s then s else accept entry s)
    arrivals s.

(** The state a flush that reaches the transport hands to its [try]
    block: the gate has been passed, the buffer drained, and the
    transport call has left the client as [c]. *)
Definition inFlight (s : BatchClient.t) (now : Z) (c : LogFluxClient.t)
  : BatchClient.t :=
  BatchClient.set_client c (BatchClient.set_batch [] (probe s now)).

Inductive FlushOutcome : Type :=
| NothingPending
| Dropped
| Sent
| Failed (e : Error).

(** How a flush started in state [st] ends. *)
Definition flushOutcome (st : BatchClient.St) : FlushOutcome :=
  let (s, w) := st in
  match BatchClient.batch s with
  | [] => NothingPending
  | _ :: _ =>
      if blocked s (clock w) then Dropped
      else
        match fst (sendPending s w) with
        | Ok _ => Sent
        | Throw e => Failed e
        end
  end.

(** ** Runs

    A caller that awaits every call, a timer and the process signals
    drive the engine; time passes between the calls. *)

Inductive Op : Type :=
| Add (entry : LogEntry)
| Flush
| TimerFires
| Stop
| Signal
| Exit
| Sleep (ms : N).

Definition step (op : Op) : M BatchClient.St unit :=
  match op with
  | Add entry => BatchClient.addLogEntry entry
  | Flush => BatchClient.flush
  | TimerFires => BatchClient.onFlushTimer
  | Stop => BatchClient.stop
  | Signal => BatchClient.exitHandler
  | Exit => BatchClient.syncExitHandler
  | Sleep ms => modify (fun st => (fst st, sleep ms (snd st)))
  end.

(** The state after a list of operations; the caller catches what they
    throw. *)
Fixpoint run (ops : list Op) (st : BatchClient.St) : BatchClient.St :=
  match ops with
  | [] => st
  | op :: rest => run rest (snd (step op st))
  end.



(** ** Entry sizes *)

Definition sumZ (l : list Z) : Z := List.fold_right Z.add 0 l.

(** The size [getEstimatedMemoryUsage] gives one entry. *)
Definition entrySize (entry : LogEntry) : Z :=
  200 + Js.byteLength (payload entry)
  + match metadata entry with
    | Some fields =>
        sumZ
          (List.map (fun kv => Js.byteLength (fst kv ++ snd kv)) fields)
    | None => 0
    end.

(** The size of one entry with every metadata key and value measured on
    its own, as the specification words the estimate. *)
Definition separateEntrySize (entry : LogEntry) : Z :=
  200 + Js.byteLength (payload entry)
  + match metadata entry with
    | Some fields =>
        sumZ (List.map
                (fun kv => Js.byteLength (fst kv) + Js.byteLength (snd kv))
                fields)
    | None => 0
    end.

(** No metadata key of the entry has an unpaired surrogate. *)
Definition wellFormedKeys (entry : LogEntry) : bool :=
  match metadata entry with
  | Some fields => List.forallb (fun kv => Js.well_formed (fst kv)) fields
  | None => true
  end.

(** ** Requests and answers *)

(** One request and its answer: [sendData] followed by
    [readResponse]. *)
Definition exchange (request : Message) : M LogFluxClient.St Json :=
  LogFluxClient.sendData request ;; LogFluxClient.readResponse.

(** The agent answered the request with a JSON object whose [status]
    is the given text. *)
Definition answered (request : Message) (text : string)
  (st : LogFluxClient.St) : Prop :=
  exists response st',
    exchange request st = (Ok response, st') /\
    json_status response = Some (JStr (Js.of_ascii text)).

(** What [ping] and [authenticate] do first when the client is not
    connected. *)
Definition ensureConnected (st : LogFluxClient.St)
  : Result unit * LogFluxClient.St :=
  if LogFluxClient.connected (fst st) then (Ok tt, st)
  else LogFluxClient.connect st.

(** The request [authenticate] sends for the client's secret. *)
Definition authRequestOf (c : LogFluxClient.t) : AuthRequest :=
  {| auth_version := Some DEFAULT_PROTOCOL_VERSION;
     auth_action := Js.of_ascii "authenticate";
     shared_secret := sharedSecret (LogFluxClient.config c) ?? [] |}.

(** ** Sample data *)

Definition entryOf (text : string) : LogEntry :=
  {| entry_version := Some DEFAULT_PROTOCOL_VERSION;
     payload := Js.of_ascii text;
     source := Js.of_ascii "app";
     timestamp := None;
     payloadType := Some (Js.of_ascii "generic");
     metadata := Some [];
     entryType := 1;
     logLevel := 7 |}.

Definition entryA : LogEntry := entryOf "A".
Definition entryB : LogEntry := entryOf "B".
Definition entryC : LogEntry := entryOf "C".

Definition agentSocket : JsString := Js.of_ascii "/tmp/logflux-agent.sock".

(** A client for the default Unix socket, not yet connected. *)
Definition unixClient : LogFluxClient.t :=
  {| LogFluxClient.config := createDefaultConfig;
     LogFluxClient.socket := None;
     LogFluxClient.connected := false |}.

(** The same client once connected. *)
Definition connectedClient : LogFluxClient.t :=
  {| LogFluxClient.config := createDefaultConfig;
     LogFluxClient.socket := Some (UnixSocket agentSocket);
     LogFluxClient.connected := true |}.

Definition jsonStatus (text : string) : Json :=
  JObj [(Js.of_ascii "status", JStr (Js.of_ascii text))].

(** An agent that accepts the operation and answers "pong". *)
Definition healthy : NetReply :=
  {| elapsed := 3; on_connect := Connects; on_write := Written;
     on_read := Data (Some (jsonStatus "pong")) |}.

(** An agent that refuses the operation. *)
Definition refusing : NetReply :=
  {| elapsed := 1;
     on_connect := ConnectFails (Js.of_ascii "ECONNREFUSED");
     on_write := WriteFails (Js.of_ascii "EPIPE");
     on_read := ReadSilent |}.

(** A world in which the agent's socket file exists. *)
Definition agentWorld (replies : list NetReply) : World :=
  {| files := [agentSocket]; clock := 1700000000000;
     script := replies; log := [] |}.

(** A world without the agent. *)
Definition noAgentWorld : World :=
  {| files := []; clock := 1700000000000; script := []; log := [] |}.

(** A TCP client with a shared secret, not yet connected. *)
Definition tcpClient : LogFluxClient.t :=
  {| LogFluxClient.config :=
       {| network := TCP;
          address := Js.of_ascii "localhost:8080";
          timeout := DEFAULT_TIMEOUT;
          sharedSecret := Some (Js.of_ascii "s3cret");
          batchSize := 10;
          conn_flushInterval := DEFAULT_FLUSH_INTERVAL;
          maxRetries := 3;
          retryDelay := DEFAULT_RETRY_DELAY |};
     LogFluxClient.socket := None;
     LogFluxClient.connected := false |}.

(** An agent that accepts the operation and answers "success". *)
Definition welcoming : NetReply :=
  {| elapsed := 3; on_connect := Connects; on_write := Written;
     on_read := Data (Some (jsonStatus "success")) |}.

(** Batches of two, the circuit opening at the second failure. *)
Definition smallConfig : BatchConfig :=
  {| maxBatchSize := 2;
     flushInterval := 1000;
     maxMemoryUsage := 512 * 1024;
     flushOnExit := false;
     initialRetryDelay := Some 500%Q;
     maxRetryDelay := Some 30000%Q;
     retryBackoffMultiplier := Some 2%Q;
     circuitBreakerFailureThreshold := Some 2%Q;
     circuitBreakerOpenTimeout := Some 10000%Q |}.

(** No size trigger below 100 entries, the circuit opening at the first
    failure. *)
Definition manualConfig : BatchConfig :=
  {| maxBatchSize := 100;
     flushInterval := 1000;
     maxMemoryUsage := 512 * 1024;
     flushOnExit := false;
     initialRetryDelay := Some 500%Q;
     maxRetryDelay := Some 30000%Q;
     retryBackoffMultiplier := Some 2%Q;
     circuitBreakerFailureThreshold := Some 1%Q;
     circuitBreakerOpenTimeout := Some 10000%Q |}.

(** The engine [new BatchClient(client, config)] builds. *)
Definition started (client : LogFluxClient.t) (config : BatchConfig)
  : BatchClient.t :=
  {| BatchClient.client := client;
     BatchClient.config := config;
     BatchClient.batch := [];
     BatchClient.flushTimer := Some (flushInterval config);
     BatchClient.stopped := false;
     BatchClient.exitHandlers := flushOnExit config;
     BatchClient.stats := BatchClient.initialStats;
     BatchClient.consecutiveFailures := 0;
     BatchClient.nextRetryDelay := BatchClient.initialDelay config;
     BatchClient.circuitOpen := false;
     BatchClient.circuitOpenTime := None |}.

(** An engine whose circuit opened at time [since], with [pending]
    entries in its buffer. *)
Definition tripped (config : BatchConfig) (since : Z)
  (pending : list LogEntry) : BatchClient.t :=
  {| BatchClient.client := unixClient;
     BatchClient.config := config;
     BatchClient.batch := pending;
     BatchClient.flushTimer := Some (flushInterval config);
     BatchClient.stopped := false;
     BatchClient.exitHandlers := flushOnExit config;
     BatchClient.stats :=
       {| entriesProcessed := Z.of_nat (List.length pending);
          batchesSent := 0; errors := 1; averageBatchSize := 0;
          lastFlushTime := None |};
     BatchClient.consecutiveFailures := 1;
     BatchClient.nextRetryDelay := 1000;
     BatchClient.circuitOpen := true;
     BatchClient.circuitOpenTime := Some since |}.

(** ** Invariants of runs *)

(** Two engines with the same configuration, backoff state and circuit
    state. *)
Definition core_eq (s s' : BatchClient.t) : Prop :=
  BatchClient.config s = BatchClient.config s' /\
  BatchClient.consecutiveFailures s = BatchClient.consecutiveFailures s' /\
  BatchClient.nextRetryDelay s = BatchClient.nextRetryDelay s' /\
  BatchClient.circuitOpen s = BatchClient.circuitOpen s' /\
  BatchClient.circuitOpenTime s = BatchClient.circuitOpenTime s'.

(** A property of the engine and the clock that only looks at the
    configuration, the backoff state and the circuit state, that keeps
    holding as time passes, and that every flush preserves. *)
Record Invariant (I : BatchClient.t -> Z -> Prop) : Prop := {
  inv_core : forall s s' now, core_eq s s' -> I s now -> I s' now;
  inv_later : forall s now later, now <= later -> I s now -> I s later;
  inv_flush :
    forall s w,
      I s (clock w) ->
      I (fst (snd (BatchClient.flush (s, w))))
        (clock (snd (snd (BatchClient.flush (s, w)))))
}.

(** The retry delay is positive and at most the maximum, under
    configuration [cfg]. *)
Definition backoff_inv (cfg : BatchConfig) (s : BatchClient.t) (now : Z)
  : Prop :=
  BatchClient.config s = cfg /\
  (0 < BatchClient.nextRetryDelay s)%Q /\
  (BatchClient.nextRetryDelay s <= BatchClient.maxDelay cfg)%Q.

(** The threshold is positive, and an open circuit goes with a failure
    count at the threshold. *)
Definition open_inv (s : BatchClient.t) (now : Z) : Prop :=
  (0 < BatchClient.threshold (BatchClient.config s))%Q /\
  (BatchClient.circuitOpen s = true ->
   (BatchClient.threshold (BatchClient.config s)
    <= of_Z (BatchClient.consecutiveFailures s))%Q).

(** The failure count is at most the number of [sendLogBatch] calls
    that threw. *)
Definition tally (s : BatchClient.t) (w : World) : Prop :=
  0 <= BatchClient.consecutiveFailures s <= unanswered (log w).

(** The clock shows a time after the epoch, and an open circuit is
    stamped with an earlier reading and goes with a failure count at the
    threshold. *)
Definition circuit_inv (s : BatchClient.t) (now : Z) : Prop :=
  0 < now /\
  (BatchClient.circuitOpen s = true ->
   exists since,
     BatchClient.circuitOpenTime s = Some since /\
     0 < since <= now /\
     (BatchClient.threshold (BatchClient.config s)
      <= of_Z (BatchClient.consecutiveFailures s))%Q).

(** ** The transport client between its calls *)

(** A client that is connected has a socket. *)
Definition sound (c : LogFluxClient.t) : Prop :=
  LogFluxClient.connected c = true -> LogFluxClient.socket c <> None.

(** The behaviour of the network during the next awaited socket
    operation, and the world once that operation is over. *)
Definition nextReply (w : World) : NetReply :=
  List.hd silence (script w).

Definition afterReply (w : World) : World :=
  snd (await_network w).

(** How a write ends, by the behaviour of the network. *)
Definition writeResult (r : NetReply) : Result unit :=
  match on_write r with
  | Written => Ok tt
  | WriteFails code => Throw (ErrSocket code)
  | WriteSilent => Throw ErrSendTimeout
  end.

(** The sockets created by the events of a log. *)
Definition connections (l : list Event) : list Socket :=
  List.flat_map
    (fun ev =>
       match ev with
       | CreateConnection s => [s]
       | _ => []
       end) l.

(** The messages written to the socket by the events of a log. *)
Definition written (l : list Event) : list Message :=
  List.flat_map
    (fun ev =>
       match ev with
       | SocketWrite m => [m]
       | _ => []
       end) l.

(** The computation threw the error [e]. *)
Definition throws {A : Type} (r : Result A) (e : Error) : Prop :=
  match r with
  | Throw e' => e' = e
  | Ok _ => False
  end.

(** The number of sockets destroyed by the events of a log. *)
Definition destroyed (l : list Event) : nat :=
  List.length
    (List.filter
       (fun ev => match ev with SocketDestroy => true | _ => false end) l).

(** ** Client factories ([src/config/index.ts], [src/client/index.ts]) *)

Module JsNumber.

(** The decimal digits of a natural number, most significant first;
    [fuel] bounds their number. *)
Fixpoint decimal (fuel : nat) (n : Z) : JsString :=
  match fuel with
  | O => []
  | S fuel' =>
      (if n <? 10 then [] else decimal fuel' (n / 10))
      ++ [Z.to_N (48 + n mod 10)]
  end.

(** [String(n)], as a template literal renders a number, for an
    integer [n] below 10^21 in magnitude: a minus sign for a negative
    number and the decimal digits. *)
Definition toString (n : Z) : JsString :=
  let digits m := decimal (S (Z.to_nat (Z.log2 m))) m in
  if n <? 0 then 45%N :: digits (- n) else digits n.

End JsNumber.

(** [`${host}:${port}`] *)
Definition hostPort (host : JsString) (port : Z) : JsString :=
  host ++ 58%N :: JsNumber.toString port.

(** [createTCPConfig] (config/index.ts), for an integer port. *)
Definition createTCPConfig (host : JsString) (port : Z)
  (secret : option JsString) : Config :=
  {| network := TCP;
     address := hostPort host port;
     timeout := DEFAULT_TIMEOUT;
     sharedSecret := secret;
     batchSize := 10;
     conn_flushInterval := DEFAULT_FLUSH_INTERVAL;
     maxRetries := 3;
     retryDelay := DEFAULT_RETRY_DELAY |}.

(** [createTCPClient] (client/index.ts 292-299): the default
    configuration with its network, address and secret replaced. *)
Definition createTCPClient (host : JsString) (port : Z)
  (secret : option JsString) : M World LogFluxClient.t :=
  LogFluxClient.new (Some
    {| network := TCP;
       address := hostPort host port;
       timeout := timeout createDefaultConfig;
       sharedSecret := secret;
       batchSize := batchSize createDefaultConfig;
       conn_flushInterval := conn_flushInterval createDefaultConfig;
       maxRetries := maxRetries createDefaultConfig;
       retryDelay := retryDelay createDefaultConfig |}).

(** The socket [connectTCP] dials for an address, or the error it throws
    before dialling (index.ts 167-175). *)
Definition tcpTarget (addr : JsString) : Result Socket :=
  let parts := Js.split_on 58 addr in
  let host := List.hd [] parts in
  let port := Js.parseInt10 (List.nth_error parts 1) in
  if negb (Js.truthy host) || LogFluxClient.falsy_port port
  then Throw (ErrInvalidTcpAddress addr)
  else
    let p := port ?? 0 in
    if (p <? 0) || (65535 <? p) then Throw (ErrBadPort p)
    else Ok (TcpSocket p host).

(** A connection attempt on socket [sk], from the creation of the
    socket to the end of [connect]. *)
Definition attempt (sk : Socket) (c : LogFluxClient.t) (w : World)
  : Result unit * LogFluxClient.St :=
  let w2 := afterReply (logged [CreateConnection sk] w) in
  match on_connect (nextReply w) with
  | Connects =>
      (Ok tt,
       (LogFluxClient.set_connected true
          (LogFluxClient.set_socket (Some sk) c),
        logged [Returned CallConnect] w2))
  | ConnectFails code =>
      (Throw (ErrSocket code), (LogFluxClient.set_socket (Some sk) c, w2))
  | ConnectSilent =>
      (Throw ErrConnectionTimeout,
       (LogFluxClient.set_socket (Some sk) c, logged [SocketDestroy] w2))
  end.

(** ** The books of the engine *)

(** The number of entries dropped by the open circuit. *)
Definition dropped (l : list Event) : Z :=
  sumZ (List.map Z.of_nat (drops l)).

(** The number of timer flushes that failed. *)
Definition timerFlushErrors (l : list Event) : Z :=
  Z.of_nat
    (List.length
       (List.filter
          (fun line =>
             match line with
             | ErrorDuringTimerFlush _ => true
             | _ => false
             end) (consoleLines l))).

(** The console lines that come from outside [flush] and the timer. *)
Definition bystander (line : ConsoleLine) : bool :=
  match line with
  | WarnCircuitOpenDropped _ | ErrorDuringTimerFlush _ => false
  | _ => true
  end.

(** A property of the engine and the log that every step of every
    operation keeps. *)
Record Ledger (J : BatchClient.t -> list Event -> Prop) : Prop := {
  led_flush :
    forall s w,
      J s (log w) ->
      J (fst (snd (BatchClient.flush (s, w))))
        (log (snd (snd (BatchClient.flush (s, w)))));
  led_accept : forall entry s l, J s l -> J (accept entry s) l;
  led_timer : forall d s l, J s l -> J (BatchClient.set_flushTimer d s) l;
  led_halted : forall s l, J s l -> J (halted s) l;
  led_closed :
    forall s l,
      J s l ->
      J (BatchClient.set_client (closed (BatchClient.client s)) s)
        (l ++ closeEvents (BatchClient.client s));
  led_console :
    forall s l line, bystander line = true -> J s l -> J s (l ++ [Console line]);
  led_timer_error :
    forall s l e,
      J s l ->
      J (BatchClient.bumpErrors s) (l ++ [Console (ErrorDuringTimerFlush e)])
}.

(** The statistics agree with what the log shows. *)
Definition books (s : BatchClient.t) (l : list Event) : Prop :=
  let st := BatchClient.stats s in
  entriesProcessed st
  = Z.of_nat (List.length (delivered l)) + dropped l
    + Z.of_nat (List.length (BatchClient.batch s)) /\
  batchesSent st = Z.of_nat (List.length (sendLogBatchReturns l)) /\
  (averageBatchSize st * of_Z (batchesSent st)
   == of_Z (Z.of_nat (List.length (delivered l))))%Q /\
  errors st = unanswered l + timerFlushErrors l.



(** ** Objects with string values

    The own enumerable properties of an ordinary object, in the order
    [Object.entries] lists them: the array indices in ascending order,
    then the other keys in the order of their creation. *)

Module JsObject.

Definition t : Type := list (JsString * JsString).

Fixpoint has (key : JsString) (o : t) : bool :=
  match o with
  | [] => false
  | (k, _) :: rest => Js.eqb k key || has key rest
  end.

(** [o[key]] for an own property. *)
Fixpoint get (key : JsString) (o : t) : option JsString :=
  match o with
  | [] => None
  | (k, v) :: rest => if Js.eqb k key then Some v else get key rest
  end.

(** An array index: the canonical rendering of an integer from 0 to
    2^32 - 2. *)
Definition array_index (key : JsString) : option Z :=
  let n := Js.digits_prefix 0 key in
  if Js.eqb key (JsNumber.toString n) && (n <=? 4294967294)
  then Some n else None.

Fixpoint replace (key value : JsString) (o : t) : t :=
  match o with
  | [] => []
  | (k, v) :: rest =>
      if Js.eqb k key then (k, value) :: rest
      else (k, v) :: replace key value rest
  end.

(** A new property whose key is the array index [n] goes after the
    smaller indices. *)
Fixpoint insert_index (n : Z) (key value : JsString) (o : t) : t :=
  match o with
  | [] => [(key, value)]
  | (k, v) :: rest =>
      match array_index k with
      | Some m =>
          if m <? n then (k, v) :: insert_index n key value rest
          else (key, value) :: o
      | None => (key, value) :: o
      end
  end.

(** [o[key] = value] for a string [value].  An own property keeps its
    place and takes the value.  Otherwise the key [__proto__] reaches
    the setter of [Object.prototype], which ignores a string; any other
    key becomes a new own property. *)
Definition set (key value : JsString) (o : t) : t :=
  if has key o then replace key value o
  else if Js.eqb key (Js.of_ascii "__proto__") then o
  else
    match array_index key with
    | Some n => insert_index n key value o
    | None => o ++ [(key, value)]
    end.

(** [Object.assign(target, source)] *)
Definition assign (target source : t) : t :=
  List.fold_left (fun acc kv => set (fst kv) (snd kv) acc) source target.

End JsObject.

(** ** Log entries and their builder ([src/types/index.ts]) *)

Section Builtins.

(** Whether [JSON.parse] accepts a text, and
    [new Date(ms).toISOString()]. *)
Variable JSON_parse_accepts : JsString -> bool.
Variable Date_toISOString : Z -> JsString.

(** [isValidJSON] (types/index.ts 150-157) *)
Definition isValidJSON (str : JsString) : bool := JSON_parse_accepts str.

(** [autoDetectPayloadType] (types/index.ts 163-165) *)
Definition autoDetectPayloadType (message : JsString) : JsString :=
  if isValidJSON message then Js.of_ascii "generic_json"
  else Js.of_ascii "generic".

(** [createLogEntry] (types/index.ts 101-119) *)
Definition createLogEntry (payload source : JsString) : M World LogEntry :=
  let source := if Js.truthy source then source else Js.of_ascii "unknown" in
  let payloadType := autoDetectPayloadType payload in
  now <- Date_now ;;
  ret {| entry_version := Some DEFAULT_PROTOCOL_VERSION;
         payload := payload;
         source := source;
         timestamp := Some (Date_toISOString now);
         payloadType := Some payloadType;
         metadata := Some [];
         entryType := 1;
         logLevel := 7 |}.

End Builtins.

Module LogEntryBuilder.

(** [this.entry].  Its [metadata] field holds the present contents of
    the metadata object, which the entries [build] returns share. *)
Record t : Type := mk { entry : LogEntry }.

Definition set_version (v : option JsString) (e : LogEntry) : LogEntry :=
  mkLogEntry v (payload e) (source e) (timestamp e) (payloadType e)
    (metadata e) (entryType e) (logLevel e).

Definition set_source (s : JsString) (e : LogEntry) : LogEntry :=
  mkLogEntry (entry_version e) (payload e) s (timestamp e) (payloadType e)
    (metadata e) (entryType e) (logLevel e).

Definition set_timestamp (ts : option JsString) (e : LogEntry) : LogEntry :=
  mkLogEntry (entry_version e) (payload e) (source e) ts (payloadType e)
    (metadata e) (entryType e) (logLevel e).

Definition set_payloadType (p : option JsString) (e : LogEntry) : LogEntry :=
  mkLogEntry (entry_version e) (payload e) (source e) (timestamp e) p
    (metadata e) (entryType e) (logLevel e).

Definition set_metadata (m : option JsObject.t) (e : LogEntry) : LogEntry :=
  mkLogEntry (entry_version e) (payload e) (source e) (timestamp e)
    (payloadType e) m (entryType e) (logLevel e).

Definition set_entryType (n : Z) (e : LogEntry) : LogEntry :=
  mkLogEntry (entry_version e) (payload e) (source e) (timestamp e)
    (payloadType e) (metadata e) n (logLevel e).

Definition set_logLevel (n : Z) (e : LogEntry) : LogEntry :=
  mkLogEntry (entry_version e) (payload e) (source e) (timestamp e)
    (payloadType e) (metadata e) (entryType e) n.

(** The constructor (types/index.ts 173-175) *)
Definition new (JSON_parse_accepts : JsString -> bool)
  (Date_toISOString : Z -> JsString) (payload source : JsString)
  : M World t :=
  e <- createLogEntry JSON_parse_accepts Date_toISOString payload source ;;
  ret (mk e).

(** [withLogLevel] (types/index.ts 177-183), for an integer level *)
Definition withLogLevel (level : Z) (b : t) : t :=
  let level := if (level <? 1) || (8 <? level) then 7 else level in
  mk (set_logLevel level (entry b)).

(** [withEntryType] (types/index.ts 185-189) *)
Definition withEntryType (_entryType : Z) (b : t) : t :=
  mk (set_entryType 1 (entry b)).

(** [withSource] (types/index.ts 191-197) *)
Definition withSource (source : JsString) (b : t) : t :=
  let source := if Js.truthy source then source else Js.of_ascii "unknown" in
  mk (set_source source (entry b)).

(** [withMetadata] (types/index.ts 199-206) *)
Definition withMetadata (key value : JsString) (b : t) : t :=
  if negb (Js.truthy key) then b
  else
    let m := metadata (entry b) ?? [] in
    mk (set_metadata (Some (JsObject.set key value m)) (entry b)).

(** [withAllMetadata] (types/index.ts 208-212) *)
Definition withAllMetadata (fields : JsObject.t) (b : t) : t :=
  let m := metadata (entry b) ?? [] in
  mk (set_metadata (Some (JsObject.assign m fields)) (entry b)).

(** [withTimestamp] (types/index.ts 214-217), for a valid date *)
Definition withTimestamp (Date_toISOString : Z -> JsString) (date : Z)
  (b : t) : t :=
  mk (set_timestamp (Some (Date_toISOString date)) (entry b)).

(** [withTimestampString] (types/index.ts 219-222) *)
Definition withTimestampString (ts : JsString) (b : t) : t :=
  mk (set_timestamp (Some ts) (entry b)).

(** [withPayloadType] (types/index.ts 224-227) *)
Definition withPayloadType (p : JsString) (b : t) : t :=
  mk (set_payloadType (Some p) (entry b)).

(** [withVersion] (types/index.ts 229-232) *)
Definition withVersion (v : JsString) (b : t) : t :=
  mk (set_version (Some v) (entry b)).

(** What [build] returns (types/index.ts 234-236): a copy of the fields
    of [this.entry].  The copy is shallow: when the entry has a
    metadata object, the copy refers to that same object. *)
Record Built : Type := mkBuilt {
  copied : LogEntry;
  shares_metadata : bool
}.

Definition build (b : t) : Built :=
  {| copied := entry b;
     shares_metadata :=
       match metadata (entry b) with Some _ => true | None => false end |}.

(** The entry a caller reads from a built entry once the builder has
    become [later]. *)
Definition read (built : Built) (later : t) : LogEntry :=
  if shares_metadata built
  then set_metadata (metadata (entry later)) (copied built)
  else copied built.

(** A call of one of the builder's methods. *)
Inductive Call : Type :=
| WithLogLevel (level : Z)
| WithEntryType (entryType : Z)
| WithSource (source : JsString)
| WithMetadata (key value : JsString)
| WithAllMetadata (fields : JsObject.t)
| WithTimestamp (date : Z)
| WithTimestampString (ts : JsString)
| WithPayloadType (p : JsString)
| WithVersion (v : JsString).

Definition call (Date_toISOString : Z -> JsString) (c : Call) (b : t) : t :=
  match c with
  | WithLogLevel level => withLogLevel level b
  | WithEntryType entryType => withEntryType entryType b
  | WithSource source => withSource source b
  | WithMetadata key value => withMetadata key value b
  | WithAllMetadata fields => withAllMetadata fields b
  | WithTimestamp date => withTimestamp Date_toISOString date b
  | WithTimestampString ts => withTimestampString ts b
  | WithPayloadType p => withPayloadType p b
  | WithVersion v => withVersion v b
  end.


End LogEntryBuilder.

(** What the metadata of an entry weighs in the memory estimate. *)
Definition weight (o : JsObject.t) : Z :=
  sumZ (List.map (fun kv => Js.byteLength (fst kv ++ snd kv)) o).


(** [l] is [m] with some of its elements left out. *)
Inductive Subseq {A : Type} : list A -> list A -> Prop :=
| Subseq_nil : Subseq [] []
| Subseq_skip (l m : list A) (x : A) : Subseq l m -> Subseq l (x :: m)
| Subseq_take (l m : list A) (x : A) : Subseq l m -> Subseq (x :: l) (x :: m).

(** * Properties *)

(** ** Strings and numbers *)

Lemma Js_eqb_eq (a b : JsString) : Js.eqb a b = true <-> a = b.
Proof.
  unfold Js.eqb. destruct (list_eq_dec N.eq_dec a b); split; congruence.
Qed.

Lemma num_le_iff a b : num_le a b = true <-> (a <= b)%Q.
Proof. apply Qle_bool_iff. Qed.

Lemma num_ge_iff a b : num_ge a b = true <-> (b <= a)%Q.
Proof. apply Qle_bool_iff. Qed.

Lemma num_lt_iff a b : num_lt a b = true <-> (a < b)%Q.
Proof.
  unfold num_lt. rewrite negb_true_iff.
  split; intro H.
  - apply Qnot_le_lt. intro L. apply Qle_bool_iff in L. congruence.
  - destruct (Qle_bool b a) eqn:E; auto.
    apply Qle_bool_iff in E. exfalso. apply (Qlt_not_le _ _ H E).
Qed.

Lemma num_gt_iff a b : num_gt a b = true <-> (b < a)%Q.
Proof. apply (num_lt_iff b a). Qed.

Lemma num_ge_false_iff a b : num_ge a b = false <-> (a < b)%Q.
Proof.
  rewrite <- num_lt_iff. unfold num_lt, num_ge.
  destruct (Qle_bool b a); simpl; split; congruence.
Qed.

Lemma Math_min_le_r a b : (Math_min a b <= b)%Q.
Proof.
  unfold Math_min. destruct (Qle_bool a b) eqn:E.
  - apply Qle_bool_iff; assumption.
  - apply Qle_refl.
Qed.

Lemma Math_min_glb a b c : (c <= a)%Q -> (c <= b)%Q -> (c <= Math_min a b)%Q.
Proof. unfold Math_min. destruct (Qle_bool a b); auto. Qed.


(** ** Tame computations *)

Section Tame.

Variable Q : Event -> Prop.
Variables S : Type.
Variable wld : S -> World.

Lemma tame_ret A (a : A) : tame Q wld (ret a).
Proof. intro s. exists []. cbn. rewrite app_nil_r. repeat split; auto. lia. Qed.

Lemma tame_throw A (e : Error) : tame Q wld (@throw S A e).
Proof. intro s. exists []. cbn. rewrite app_nil_r. repeat split; auto. lia. Qed.

Lemma tame_gets A (f : S -> A) : tame Q wld (gets f).
Proof. intro s. exists []. cbn. rewrite app_nil_r. repeat split; auto. lia. Qed.

Lemma tame_modify (f : S -> S) :
  (forall s, wld (f s) = wld s) -> tame Q wld (modify f).
Proof.
  intros H s. exists []. cbn. rewrite H, app_nil_r. repeat split; auto. lia.
Qed.

Lemma tame_bind A B (m : M S A) (k : A -> M S B) :
  tame Q wld m -> (forall a, tame Q wld (k a)) -> tame Q wld (bind m k).
Proof.
  intros Hm Hk s. unfold bind.
  destruct (Hm s) as (evs1 & L1 & Q1 & C1).
  destruct (m s) as [[a | e] s1]; cbn in *.
  - destruct (Hk a s1) as (evs2 & L2 & Q2 & C2).
    exists (evs1 ++ evs2). rewrite L2, L1, app_assoc.
    repeat split; auto using Forall_app. apply Forall_app; auto. lia.
  - exists evs1. auto.
Qed.

Lemma tame_try_catch A (m : M S A) (h : Error -> M S A) :
  tame Q wld m -> (forall e, tame Q wld (h e)) -> tame Q wld (try_catch m h).
Proof.
  intros Hm Hh s. unfold try_catch.
  destruct (Hm s) as (evs1 & L1 & Q1 & C1).
  destruct (m s) as [[a | e] s1]; cbn in *.
  - exists evs1. auto.
  - destruct (Hh e s1) as (evs2 & L2 & Q2 & C2).
    exists (evs1 ++ evs2). rewrite L2, L1, app_assoc.
    repeat split; auto. apply Forall_app; auto. lia.
Qed.

Lemma tame_when (b : bool) (m : M S unit) :
  tame Q wld m -> tame Q wld (when b m).
Proof. destruct b; cbn; auto using tame_ret. Qed.

End Tame.

Lemma tame_emit Q ev : Q ev -> tame Q (fun w => w) (emit ev).
Proof.
  intros H w. exists [ev]. cbn. repeat split; auto. lia.
Qed.

Lemma tame_await_network Q : tame Q (fun w => w) await_network.
Proof.
  intros w. exists []. unfold await_network.
  destruct (script w); cbn; rewrite app_nil_r; repeat split; auto; lia.
Qed.

Lemma tame_on_snd Q S A (m : M World A) :
  tame Q (fun w => w) m -> tame Q (@snd S World) (on_snd m).
Proof.
  intros H [s w]. unfold on_snd. cbn.
  destruct (H w) as (evs & L & F & C).
  destruct (m w) as [r w']. cbn in *. exists evs. auto.
Qed.

Lemma tame_weaken (Q R : Event -> Prop) S A (wld : S -> World) (m : M S A) :
  (forall ev, Q ev -> R ev) -> tame Q wld m -> tame R wld m.
Proof.
  intros QR H s. destruct (H s) as (evs & L & F & C).
  exists evs. repeat split; auto. eapply Forall_impl; eauto.
Qed.

Create HintDb tame.
#[local] Hint Resolve tame_ret tame_throw tame_gets tame_bind tame_try_catch
  tame_when tame_emit tame_await_network tame_on_snd : tame.

Ltac tame_step :=
  match goal with
  | |- tame _ _ (bind _ _) => apply tame_bind; [ | intro ]
  | |- tame _ _ (try_catch _ _) => apply tame_try_catch; [ | intro ]
  | |- tame _ _ (when _ _) => apply tame_when
  | |- tame _ _ (ret _) => apply tame_ret
  | |- tame _ _ (throw _) => apply tame_throw
  | |- tame _ _ (gets _) => apply tame_gets
  | |- tame _ _ (LogFluxClient.this _) => apply tame_gets
  | |- tame _ _ (BatchClient.this _) => apply tame_gets
  | |- tame _ _ (modify _) => apply tame_modify; intros []; reflexivity
  | |- tame _ _ (LogFluxClient.update _) => apply tame_modify; intros []; reflexivity
  | |- tame _ _ (BatchClient.update _) => apply tame_modify; intros []; reflexivity
  | |- tame _ _ (LogFluxClient.world _) => apply tame_on_snd
  | |- tame _ _ (BatchClient.world _) => apply tame_on_snd
  | |- tame _ _ (on_snd _) => apply tame_on_snd
  | |- tame _ _ (emit _) => apply tame_emit; exact I
  | |- tame _ _ await_network => apply tame_await_network
  | |- tame _ _ Date_now => apply tame_gets
  | |- tame _ _ (existsSync _) => unfold existsSync
  | |- tame _ _ (if ?b then _ else _) => destruct b
  | |- tame _ _ (match ?x with _ => _ end) => destruct x
  end.

Ltac tame_auto := repeat tame_step; auto with tame.

Lemma tame_connect : tame inner_event snd LogFluxClient.connect.
Proof.
  unfold LogFluxClient.connect, LogFluxClient.spied, LogFluxClient.connectUnix,
    LogFluxClient.connectTCP, LogFluxClient.await_connect,
    LogFluxClient.destroy_socket.
  tame_auto.
Qed.

Lemma tame_sendData msg : tame inner_event snd (LogFluxClient.sendData msg).
Proof.
  unfold LogFluxClient.sendData, LogFluxClient.sendSocket. tame_auto.
Qed.

Lemma tame_readResponse : tame inner_event snd LogFluxClient.readResponse.
Proof.
  unfold LogFluxClient.readResponse. tame_auto.
Qed.

Lemma tame_close : tame inner_event snd LogFluxClient.close.
Proof.
  unfold LogFluxClient.close, LogFluxClient.spied. tame_auto.
Qed.

(** ** The transport client and the log *)

Lemma inner_event_silent evs :
  Forall inner_event evs ->
  delivered evs = [] /\ sendLogBatchCalls evs = [] /\
  consoleLines evs = [] /\ drops evs = [] /\ sendLogBatchReturns evs = [].
Proof.
  induction 1 as [| ev evs Hev _ IH]; [ repeat split | ].
  destruct IH as (D & C & L & R & T).
  unfold delivered, sendLogBatchCalls, consoleLines, drops,
    sendLogBatchReturns in *. cbn.
  rewrite D, C, L, R, T.
  destruct ev as [m | m | | | | | | ]; try destruct m; cbn in *;
    try contradiction; repeat split.
Qed.

Lemma spied_log Q A (m : Method) (body : M LogFluxClient.St A) :
  tame Q snd body ->
  forall st,
    exists evs,
      log (snd (snd (LogFluxClient.spied m body st))) =
        log (snd st) ++ Called m :: evs
          ++ (if threw (fst (LogFluxClient.spied m body st)) then []
              else [Returned m]) /\
      Forall Q evs /\
      clock (snd st) <= clock (snd (snd (LogFluxClient.spied m body st))).
Proof.
  intros H [c w].
  unfold LogFluxClient.spied, LogFluxClient.world, bind, on_snd, emit, modify, ret.
  cbn.
  match goal with
  | |- context [body ?st] => destruct (H st) as (evs & L & F & C); destruct (body st) as [[a | e] [c' w']]
  end; cbn in *.
  - exists evs. rewrite L, <- !app_assoc. cbn. auto.
  - exists evs. rewrite L, <- !app_assoc, app_nil_r. cbn. auto.
Qed.

Lemma sendLogBatch_log b c w :
  exists evs,
    log (snd (snd (LogFluxClient.sendLogBatch b (c, w)))) =
      log w ++ Called (CallSendLogBatch b) :: evs
        ++ (if threw (fst (LogFluxClient.sendLogBatch b (c, w))) then []
            else [Returned (CallSendLogBatch b)]) /\
    Forall inner_event evs /\
    clock w <= clock (snd (snd (LogFluxClient.sendLogBatch b (c, w)))).
Proof.
  unfold LogFluxClient.sendLogBatch.
  apply (@spied_log inner_event).
  pose proof tame_connect. pose proof tame_sendData.
  tame_auto; auto.
Qed.

(** ** The cases of a flush *)

#[local] Arguments LogFluxClient.sendLogBatch : simpl never.
#[local] Arguments LogFluxClient.close : simpl never.
#[local] Arguments LogFluxClient.connect : simpl never.
#[local] Arguments LogFluxClient.sendData : simpl never.
#[local] Arguments LogFluxClient.readResponse : simpl never.

Lemma arrive_arrived arrivals :
  forall s w,
    BatchClient.arrive arrivals (s, w) = (Ok tt, (arrived arrivals s, w)).
Proof.
  induction arrivals as [| entry rest IH]; intros s w; [ reflexivity | ].
  cbn [BatchClient.arrive arrived List.fold_left].
  unfold bind at 1. unfold try_catch, BatchClient.enqueue, BatchClient.this,
    BatchClient.update, bind, ret, throw, gets, modify.
  cbn. destruct (BatchClient.stopped s); cbn; apply IH.
Qed.

#[local] Arguments BatchClient.arrive : simpl never.

Lemma flushWhile_unfold arrivals s w :
  BatchClient.flushWhile arrivals (s, w) =
  match BatchClient.batch s with
  | [] => (Ok tt, (s, w))
  | _ :: _ =>
      if blocked s (clock w) then
        (Ok tt,
         (BatchClient.set_batch [] s,
          logged [Console (WarnCircuitOpenDropped
                             (List.length (BatchClient.batch s)))] w))
      else
        match sendPending s w with
        | (Ok _, (c', w')) =>
            (Ok tt,
             (afterSend (clock w') (BatchClient.batch s)
                (arrived arrivals (inFlight s (clock w) c')), w'))
        | (Throw e, (c', w')) =>
            (Throw e,
             (afterFailure (clock w') (BatchClient.batch s)
                (arrived arrivals (inFlight s (clock w) c')), w'))
        end
  end.
Proof.
  unfold BatchClient.flushWhile, BatchClient.isCircuitOpen,
    BatchClient.openCircuit, BatchClient.calculateNextRetryDelay,
    BatchClient.updateAverageBatchSize, BatchClient.this, BatchClient.update,
    BatchClient.world, BatchClient.on_client,
    blocked, inFlight, probe, sendPending, pendingBatch, Date_now, emit,
    logged, await_while, bind, ret, throw, gets, modify, try_catch, on_snd.
  destruct (BatchClient.batch s) as [| e0 pending] eqn:B;
    cbn; rewrite ?B; [ reflexivity | ].
  destruct (BatchClient.circuitOpen s) eqn:O;
    [ destruct (BatchClient.cooldownElapsed s (clock w)) eqn:E | ];
    repeat (cbn; rewrite ?B, ?O, ?E);
    try (destruct w; reflexivity).
  - destruct (LogFluxClient.sendLogBatch _ _) as [[[] | e] [c' w']];
      rewrite arrive_arrived; unfold afterFailure, afterSend; cbn.
    + reflexivity.
    + destruct (num_ge _ _); reflexivity.
  - destruct (LogFluxClient.sendLogBatch _ _) as [[[] | e] [c' w']];
      rewrite arrive_arrived; unfold afterFailure, afterSend; cbn.
    + reflexivity.
    + destruct (num_ge _ _); reflexivity.
Qed.

Lemma flush_unfold s w :
  BatchClient.flush (s, w) =
  match BatchClient.batch s with
  | [] => (Ok tt, (s, w))
  | _ :: _ =>
      if blocked s (clock w) then
        (Ok tt,
         (BatchClient.set_batch [] s,
          logged [Console (WarnCircuitOpenDropped
                             (List.length (BatchClient.batch s)))] w))
      else
        match sendPending s w with
        | (Ok _, (c', w')) =>
            (Ok tt,
             (afterSend (clock w') (BatchClient.batch s)
                (inFlight s (clock w) c'), w'))
        | (Throw e, (c', w')) =>
            (Throw e,
             (afterFailure (clock w') (BatchClient.batch s)
                (inFlight s (clock w) c'), w'))
        end
  end.
Proof. exact (flushWhile_unfold [] s w). Qed.

#[local] Arguments BatchClient.flush : simpl never.

Lemma close_unfold c w :
  LogFluxClient.close (c, w) = (Ok tt, (closed c, logged (closeEvents c) w)).
Proof.
  unfold LogFluxClient.close, LogFluxClient.spied, LogFluxClient.world,
    LogFluxClient.this, LogFluxClient.update, closed, closeEvents, logged,
    emit, bind, ret, gets, modify, on_snd.
  cbn. destruct (LogFluxClient.socket c) eqn:E; cbn;
    unfold LogFluxClient.set_connected, LogFluxClient.set_socket; cbn;
    rewrite ?E, <- ?app_assoc; reflexivity.
Qed.

Lemma addLogEntry_unfold entry s w :
  BatchClient.addLogEntry entry (s, w) =
  if BatchClient.stopped s then (Throw ErrBatchClientStopped, (s, w))
  else if mustFlush (accept entry s)
       then BatchClient.flush (accept entry s, w)
       else (Ok tt, (accept entry s, w)).
Proof.
  unfold BatchClient.addLogEntry, BatchClient.enqueue, BatchClient.this,
    BatchClient.update, mustFlush, bind, ret, throw, gets, modify.
  cbn. destruct (BatchClient.stopped s); [ reflexivity | ].
  cbn. fold (accept entry s).
  destruct (num_ge (of_len _) _); [ reflexivity | ].
  cbn. destruct (num_ge (of_Z _) _); reflexivity.
Qed.

Lemma stop_unfold s w :
  BatchClient.stop (s, w) =
  let '(r, (s1, w1)) :=
    match BatchClient.batch s with
    | [] => (Ok tt, (halted s, w))
    | _ :: _ => BatchClient.flush (halted s, w)
    end in
  let w2 :=
    match r with
    | Ok _ => w1
    | Throw e => logged [Console (ErrorDuringBatchStop e)] w1
    end in
  (Ok tt,
   (BatchClient.set_client (closed (BatchClient.client s1)) s1,
    logged (closeEvents (BatchClient.client s1)) w2)).
Proof.
  unfold BatchClient.stop, BatchClient.removeExitHandlers, BatchClient.this,
    BatchClient.update, BatchClient.world, BatchClient.on_client,
    bind, ret, gets, modify, try_catch, on_snd, emit.
  cbn. fold (halted s).
  destruct (BatchClient.batch s) as [| e0 pending]; cbn.
  - rewrite close_unfold. reflexivity.
  - destruct (BatchClient.flush (halted s, w)) as [[[] | e] [s1 w1]]; cbn.
    all: rewrite close_unfold; reflexivity.
Qed.

#[local] Arguments BatchClient.stop : simpl never.

Lemma onFlushTimer_unfold s w :
  BatchClient.onFlushTimer (s, w) =
  if BatchClient.stopped s then (Ok tt, (s, w))
  else
    let s0 := BatchClient.set_flushTimer (Some (BatchClient.timerDelay s)) s in
    match BatchClient.batch s with
    | [] => (Ok tt, (s0, w))
    | _ :: _ =>
        match BatchClient.flush (s0, w) with
        | (Ok _, st1) => (Ok tt, st1)
        | (Throw e, (s1, w1)) =>
            (Ok tt,
             (BatchClient.bumpErrors s1,
              logged [Console (ErrorDuringTimerFlush e)] w1))
        end
    end.
Proof.
  unfold BatchClient.onFlushTimer, BatchClient.this, BatchClient.update,
    BatchClient.world, bind, ret, gets, modify, try_catch, on_snd, emit, when.
  cbn. destruct (BatchClient.stopped s); cbn.
  - destruct (BatchClient.batch s); reflexivity.
  - destruct (BatchClient.batch s) as [| e0 pending]; [ reflexivity | ].
    destruct (BatchClient.flush _) as [[[] | e] [s1 w1]]; reflexivity.
Qed.

Lemma exitHandler_unfold s w :
  BatchClient.exitHandler (s, w) =
  if BatchClient.stopped s then (Ok tt, (s, w)) else BatchClient.stop (s, w).
Proof.
  unfold BatchClient.exitHandler, BatchClient.this, bind, ret, gets, try_catch.
  cbn. destruct (BatchClient.stopped s); [ reflexivity | ].
  rewrite stop_unfold.
  destruct (match BatchClient.batch s with
            | [] => _ | _ :: _ => _ end) as [r [s1 w1]].
  reflexivity.
Qed.

Lemma syncExitHandler_unfold s w :
  BatchClient.syncExitHandler (s, w) =
  match BatchClient.stopped s, BatchClient.batch s with
  | false, _ :: _ =>
      (Ok tt,
       (s, logged [Console (WarnEntriesLostOnExit
                              (List.length (BatchClient.batch s)))] w))
  | _, _ => (Ok tt, (s, w))
  end.
Proof.
  unfold BatchClient.syncExitHandler, BatchClient.this, BatchClient.world,
    bind, ret, gets, on_snd, emit, modify.
  cbn. destruct (BatchClient.stopped s), (BatchClient.batch s); reflexivity.
Qed.

(** ** Reading the log *)

Lemma delivered_app l1 l2 : delivered (l1 ++ l2) = delivered l1 ++ delivered l2.
Proof. apply flat_map_app. Qed.

Lemma sendLogBatchCalls_app l1 l2 :
  sendLogBatchCalls (l1 ++ l2) = sendLogBatchCalls l1 ++ sendLogBatchCalls l2.
Proof. apply flat_map_app. Qed.

Lemma consoleLines_app l1 l2 :
  consoleLines (l1 ++ l2) = consoleLines l1 ++ consoleLines l2.
Proof. apply flat_map_app. Qed.

Lemma drops_app l1 l2 : drops (l1 ++ l2) = drops l1 ++ drops l2.
Proof. apply flat_map_app. Qed.

(** ** What a flush does *)

Lemma sendPending_log s w :
  exists inner,
    log (snd (snd (sendPending s w))) =
      log w ++ Called (CallSendLogBatch (pendingBatch s)) :: inner
        ++ (if threw (fst (sendPending s w)) then []
            else [Returned (CallSendLogBatch (pendingBatch s))]) /\
    Forall inner_event inner /\
    clock w <= clock (snd (snd (sendPending s w))).
Proof. apply sendLogBatch_log. Qed.

(** The master description of [flush]: its result, the state it leaves
    and the events it logs, by outcome. *)
Lemma flush_spec s w :
  exists evs,
    log (snd (snd (BatchClient.flush (s, w)))) = log w ++ evs /\
    clock w <= clock (snd (snd (BatchClient.flush (s, w)))) /\
    match flushOutcome (s, w) with
    | NothingPending =>
        BatchClient.batch s = [] /\ evs = [] /\
        BatchClient.flush (s, w) = (Ok tt, (s, w))
    | Dropped =>
        BatchClient.batch s <> [] /\ blocked s (clock w) = true /\
        evs = [Console (WarnCircuitOpenDropped
                          (List.length (BatchClient.batch s)))] /\
        BatchClient.flush (s, w) =
          (Ok tt, (BatchClient.set_batch [] s, logged evs w))
    | Sent =>
        BatchClient.batch s <> [] /\ blocked s (clock w) = false /\
        exists c' w' inner,
          sendPending s w = (Ok tt, (c', w')) /\
          Forall inner_event inner /\
          evs = Called (CallSendLogBatch (pendingBatch s)) :: inner
                ++ [Returned (CallSendLogBatch (pendingBatch s))] /\
          BatchClient.flush (s, w) =
            (Ok tt,
             (afterSend (clock w') (BatchClient.batch s)
                (inFlight s (clock w) c'), w'))
    | Failed e =>
        BatchClient.batch s <> [] /\ blocked s (clock w) = false /\
        exists c' w' inner,
          sendPending s w = (Throw e, (c', w')) /\
          Forall inner_event inner /\
          evs = Called (CallSendLogBatch (pendingBatch s)) :: inner /\
          BatchClient.flush (s, w) =
            (Throw e,
             (afterFailure (clock w') (BatchClient.batch s)
                (inFlight s (clock w) c'), w'))
    end.
Proof.
  rewrite flush_unfold. unfold flushOutcome.
  destruct (BatchClient.batch s) as [| e0 pending] eqn:B.
  - exists []. cbn. rewrite app_nil_r. repeat split; lia.
  - destruct (blocked s (clock w)) eqn:G.
    + eexists. cbn. repeat split; try reflexivity; try lia. discriminate.
    + destruct (sendPending_log s w) as (inner & L & F & C).
      destruct (sendPending s w) as [[[] | e] [c' w']]; cbn in *.
      * eexists. repeat split; eauto; try discriminate.
        exists c', w', inner. repeat split; auto.
      * rewrite app_nil_r in L.
        eexists. repeat split; eauto; try discriminate.
        exists c', w', inner. repeat split; auto.
Qed.

Lemma flush_failed s w e :
  fst (BatchClient.flush (s, w)) = Throw e ->
  flushOutcome (s, w) = Failed e.
Proof.
  intro H. destruct (flush_spec s w) as (evs & _ & _ & Hcase).
  destruct (flushOutcome (s, w)).
  - destruct Hcase as (_ & _ & E). rewrite E in H. discriminate.
  - destruct Hcase as (_ & _ & _ & E). rewrite E in H. discriminate.
  - destruct Hcase as (_ & _ & c' & w' & inner & _ & _ & _ & E).
    rewrite E in H. discriminate.
  - destruct Hcase as (_ & _ & c' & w' & inner & _ & _ & _ & E).
    rewrite E in H. cbn in H. congruence.
Qed.

Lemma pending_nonempty s :
  (0 < BatchClient.getPendingCount s)%nat -> BatchClient.batch s <> [].
Proof.
  unfold BatchClient.getPendingCount. destruct (BatchClient.batch s); cbn.
  - lia.
  - discriminate.
Qed.

Lemma flush_blocked s w :
  (0 < BatchClient.getPendingCount s)%nat ->
  blocked s (clock w) = true ->
  BatchClient.flush (s, w) =
    (Ok tt,
     (BatchClient.set_batch [] s,
      logged [Console (WarnCircuitOpenDropped (BatchClient.getPendingCount s))]
        w)).
Proof.
  intros P G. apply pending_nonempty in P. rewrite flush_unfold, G.
  destruct (BatchClient.batch s) eqn:B; [ contradiction | ].
  unfold BatchClient.getPendingCount. rewrite B. reflexivity.
Qed.

(** ** The circuit-open drop *)

(** C10 (frame of a circuit-open drop).  When [flush] finds entries
    pending, the circuit open and the cooldown not elapsed, it returns
    normally and the engine it leaves is the engine it found with an
    empty buffer: the client, the failure count, the retry delay, the
    circuit flag and its timestamp, and every field of the statistics
    keep their values.  The world gains one console warning: no
    transport method is called, nothing touches the network, and the
    script and the clock are as before. *)
Theorem drop_changes_only_the_buffer (s : BatchClient.t) (w : World) :
  (0 < BatchClient.getPendingCount s)%nat ->
  blocked s (clock w) = true ->
  let r := fst (BatchClient.flush (s, w)) in
  let s' := fst (snd (BatchClient.flush (s, w))) in
  let w' := snd (snd (BatchClient.flush (s, w))) in
  r = Ok tt /\
  s' = BatchClient.set_batch [] s /\
  BatchClient.getPendingCount s' = 0%nat /\
  BatchClient.client s' = BatchClient.client s /\
  BatchClient.consecutiveFailures s' = BatchClient.consecutiveFailures s /\
  BatchClient.nextRetryDelay s' = BatchClient.nextRetryDelay s /\
  BatchClient.circuitOpen s' = BatchClient.circuitOpen s /\
  BatchClient.circuitOpenTime s' = BatchClient.circuitOpenTime s /\
  entriesProcessed (BatchClient.getStats s')
    = entriesProcessed (BatchClient.getStats s) /\
  batchesSent (BatchClient.getStats s')
    = batchesSent (BatchClient.getStats s) /\
  errors (BatchClient.getStats s') = errors (BatchClient.getStats s) /\
  averageBatchSize (BatchClient.getStats s')
    = averageBatchSize (BatchClient.getStats s) /\
  lastFlushTime (BatchClient.getStats s')
    = lastFlushTime (BatchClient.getStats s) /\
  log w' = log w
           ++ [Console (WarnCircuitOpenDropped
                          (BatchClient.getPendingCount s))] /\
  script w' = script w /\
  clock w' = clock w.
Proof.
  intros P G. cbn zeta. rewrite (flush_blocked s w P G). cbn.
  repeat split.
Qed.

Lemma drop_changes_only_the_buffer_witness :
  let s := tripped smallConfig 1700000000000 [entryA; entryB] in
  let w := agentWorld [healthy; healthy] in
  (0 < BatchClient.getPendingCount s)%nat /\
  blocked s (clock w) = true /\
  fst (BatchClient.flush (s, w)) = Ok tt /\
  fst (snd (BatchClient.flush (s, w))) = BatchClient.set_batch [] s.
Proof.
  intros s w.
  assert (P : (0 < BatchClient.getPendingCount s)%nat) by (cbn; lia).
  assert (G : blocked s (clock w) = true) by reflexivity.
  pose proof (drop_changes_only_the_buffer s w P G) as H.
  cbn zeta in H.
  split; [ exact P | split; [ exact G | split ] ].
  - exact (proj1 H).
  - exact (proj1 (proj2 H)).
Defined.

(** ** The circuit breaker *)

Lemma blocked_within_cooldown s now since :
  BatchClient.circuitOpen s = true ->
  BatchClient.circuitOpenTime s = Some since ->
  (of_Z (now - since) < BatchClient.openTimeout (BatchClient.config s))%Q ->
  blocked s now = true.
Proof.
  intros O T L. unfold blocked, BatchClient.cooldownElapsed.
  rewrite O, T. apply num_ge_false_iff in L. rewrite L.
  rewrite andb_false_r. reflexivity.
Qed.

Lemma probe_after_cooldown s now since :
  BatchClient.circuitOpen s = true ->
  BatchClient.circuitOpenTime s = Some since ->
  since <> 0 ->
  (BatchClient.openTimeout (BatchClient.config s) <= of_Z (now - since))%Q ->
  blocked s now = false /\ probe s now = BatchClient.set_circuit false None s.
Proof.
  intros O T N L. unfold blocked, probe, BatchClient.cooldownElapsed.
  rewrite O, T. apply num_ge_iff in L. rewrite L.
  apply Z.eqb_neq in N. rewrite N. split; reflexivity.
Qed.

Lemma flush_after_cooldown s w since :
  (0 < BatchClient.getPendingCount s)%nat ->
  BatchClient.circuitOpen s = true ->
  BatchClient.circuitOpenTime s = Some since ->
  since <> 0 ->
  (BatchClient.openTimeout (BatchClient.config s)
   <= of_Z (clock w - since))%Q ->
  BatchClient.flush (s, w)
  = BatchClient.flush (BatchClient.set_circuit false None s, w).
Proof.
  intros Pn O T N L. apply pending_nonempty in Pn.
  destruct (probe_after_cooldown s (clock w) O T N L) as (G & P).
  rewrite !flush_unfold. unfold inFlight. rewrite G, P.
  destruct (BatchClient.batch s) eqn:B; [ contradiction | ].
  cbn. rewrite B. reflexivity.
Qed.

(** What a failed send leaves behind. *)
Lemma afterFailure_backoff now sent s :
  BatchClient.consecutiveFailures (afterFailure now sent s)
    = BatchClient.consecutiveFailures s + 1 /\
  BatchClient.nextRetryDelay (afterFailure now sent s)
    = Math_min
        (BatchClient.nextRetryDelay s
         * BatchClient.multiplier (BatchClient.config s))
        (BatchClient.maxDelay (BatchClient.config s)) /\
  BatchClient.config (afterFailure now sent s) = BatchClient.config s /\
  BatchClient.batch (afterFailure now sent s) = sent ++ BatchClient.batch s /\
  BatchClient.stopped (afterFailure now sent s) = BatchClient.stopped s.
Proof.
  unfold afterFailure. cbn. destruct (num_ge _ _); cbn; repeat split.
Qed.

Lemma afterFailure_circuit now sent s :
  (BatchClient.threshold (BatchClient.config s)
   <= of_Z (BatchClient.consecutiveFailures s + 1))%Q ->
  BatchClient.circuitOpen (afterFailure now sent s) = true /\
  BatchClient.circuitOpenTime (afterFailure now sent s) = Some now.
Proof.
  intro H. apply num_ge_iff in H. unfold afterFailure. cbn.
  rewrite H. cbn. split; reflexivity.
Qed.

Lemma afterFailure_circuit_below now sent s :
  (of_Z (BatchClient.consecutiveFailures s + 1)
   < BatchClient.threshold (BatchClient.config s))%Q ->
  BatchClient.circuitOpen (afterFailure now sent s)
    = BatchClient.circuitOpen s /\
  BatchClient.circuitOpenTime (afterFailure now sent s)
    = BatchClient.circuitOpenTime s.
Proof.
  intro H. apply num_ge_false_iff in H. unfold afterFailure. cbn.
  rewrite H. cbn. split; reflexivity.
Qed.

Lemma afterSend_backoff now sent s :
  BatchClient.consecutiveFailures (afterSend now sent s) = 0 /\
  BatchClient.nextRetryDelay (afterSend now sent s)
    = BatchClient.initialDelay (BatchClient.config s) /\
  BatchClient.config (afterSend now sent s) = BatchClient.config s /\
  BatchClient.batch (afterSend now sent s) = BatchClient.batch s /\
  BatchClient.stopped (afterSend now sent s) = BatchClient.stopped s /\
  BatchClient.circuitOpen (afterSend now sent s) = BatchClient.circuitOpen s /\
  BatchClient.circuitOpenTime (afterSend now sent s)
    = BatchClient.circuitOpenTime s.
Proof. unfold afterSend. cbn. repeat split. Qed.

Lemma inFlight_core s now c :
  BatchClient.consecutiveFailures (inFlight s now c)
    = BatchClient.consecutiveFailures s /\
  BatchClient.nextRetryDelay (inFlight s now c) = BatchClient.nextRetryDelay s /\
  BatchClient.config (inFlight s now c) = BatchClient.config s /\
  BatchClient.batch (inFlight s now c) = [] /\
  BatchClient.stopped (inFlight s now c) = BatchClient.stopped s /\
  BatchClient.stats (inFlight s now c) = BatchClient.stats s /\
  BatchClient.circuitOpen (inFlight s now c)
    = BatchClient.circuitOpen (probe s now) /\
  BatchClient.circuitOpenTime (inFlight s now c)
    = BatchClient.circuitOpenTime (probe s now).
Proof.
  unfold inFlight, probe.
  destruct (BatchClient.circuitOpen s && BatchClient.cooldownElapsed s now);
    cbn; repeat split.
Qed.

(** A flush that got through the gate leaves the circuit closed unless
    the send fails at or above the threshold. *)
Lemma probe_closed s now :
  blocked s now = false -> BatchClient.circuitOpen (probe s now) = false.
Proof.
  unfold blocked, probe.
  destruct (BatchClient.circuitOpen s) eqn:O; cbn.
  - rewrite negb_false_iff. intros ->. reflexivity.
  - intros _. exact O.
Qed.

(** C2 (circuit breaker).  Take a flush that finds entries pending.
    - If it fails, the failure count goes up by one, and if the count
      has then reached the threshold the circuit is open, stamped with
      the time of the failure.
    - If the circuit is open since [since] and less than the open
      timeout has passed, the flush returns normally with the buffer
      emptied (not restored), the transport is not called and the
      network is not touched.
    - If the circuit is open since [since] (a clock reading other than
      0, which JavaScript treats as no reading) and the open timeout has
      passed, the flush is the flush of the same engine with the circuit
      closed: [sendLogBatch] is called with the pending entries; a send
      that returns leaves the circuit closed, and a send that throws
      while the failure count is at the threshold opens it again. *)
Theorem circuit_breaker_gate (s : BatchClient.t) (w : World) (since : Z) :
  (0 < BatchClient.getPendingCount s)%nat ->
  let r := fst (BatchClient.flush (s, w)) in
  let s' := fst (snd (BatchClient.flush (s, w))) in
  let w' := snd (snd (BatchClient.flush (s, w))) in
  let cfg := BatchClient.config s in
  (forall e, r = Throw e ->
     BatchClient.consecutiveFailures s'
       = BatchClient.consecutiveFailures s + 1 /\
     ((BatchClient.threshold cfg
       <= of_Z (BatchClient.consecutiveFailures s'))%Q ->
      BatchClient.circuitOpen s' = true /\
      BatchClient.circuitOpenTime s' = Some (clock w'))) /\
  (BatchClient.circuitOpen s = true ->
   BatchClient.circuitOpenTime s = Some since ->
   (of_Z (clock w - since) < BatchClient.openTimeout cfg)%Q ->
   r = Ok tt /\
   s' = BatchClient.set_batch [] s /\
   BatchClient.getPendingCount s' = 0%nat /\
   sendLogBatchCalls (log w') = sendLogBatchCalls (log w) /\
   List.filter is_network_event (log w')
     = List.filter is_network_event (log w)) /\
  (BatchClient.circuitOpen s = true ->
   BatchClient.circuitOpenTime s = Some since ->
   since <> 0 ->
   (BatchClient.openTimeout cfg <= of_Z (clock w - since))%Q ->
   BatchClient.flush (s, w)
     = BatchClient.flush (BatchClient.set_circuit false None s, w) /\
   (exists inner,
      log w' = log w ++ Called (CallSendLogBatch (pendingBatch s)) :: inner) /\
   (r = Ok tt ->
    BatchClient.circuitOpen s' = false /\
    BatchClient.circuitOpenTime s' = None) /\
   (forall e, r = Throw e ->
      (BatchClient.threshold cfg
       <= of_Z (BatchClient.consecutiveFailures s))%Q ->
      BatchClient.circuitOpen s' = true /\
      BatchClient.circuitOpenTime s' = Some (clock w'))).
Proof.
  intros P. cbn zeta.
  split; [ | split ].
  - (* a failed flush *)
    intros e R. apply flush_failed in R.
    destruct (flush_spec s w) as (evs & _ & _ & Hcase). rewrite R in Hcase.
    destruct Hcase as (_ & _ & c' & w1 & inner & _ & _ & _ & E).
    rewrite E. cbn [fst snd].
    destruct (afterFailure_backoff (clock w1) (BatchClient.batch s)
                (inFlight s (clock w) c')) as (F & _ & C & _).
    destruct (inFlight_core s (clock w) c') as (F0 & _ & C0 & _).
    rewrite F, F0. split; [ reflexivity | ].
    intro T. apply afterFailure_circuit. rewrite F0, C0. exact T.
  - (* open, within the cooldown *)
    intros O T L.
    rewrite (flush_blocked s w P (blocked_within_cooldown s (clock w) O T L)).
    cbn. rewrite sendLogBatchCalls_app, filter_app. cbn.
    rewrite !app_nil_r. repeat split.
  - (* open, cooldown elapsed *)
    intros O T N L.
    destruct (probe_after_cooldown s (clock w) O T N L) as (G & Pr).
    split; [ apply (flush_after_cooldown s w P O T N L) | ].
    destruct (flush_spec s w) as (evs & Lg & _ & Hcase).
    unfold flushOutcome in Hcase. rewrite G in Hcase.
    pose proof (pending_nonempty s P) as NE.
    destruct (BatchClient.batch s) as [| e0 pending] eqn:B;
      [ contradiction | ].
    destruct (fst (sendPending s w)) as [[] | e] eqn:SP.
    + destruct Hcase as (_ & _ & c' & w1 & inner & _ & _ & Ev & E).
      rewrite E in *. cbn [fst snd] in *.
      split; [ exists (inner ++ [Returned (CallSendLogBatch (pendingBatch s))]);
               rewrite Lg, Ev; reflexivity | ].
      split; [ | intros e R; discriminate R ].
      intros _.
      destruct (afterSend_backoff (clock w1) (e0 :: pending)
                  (inFlight s (clock w) c')) as (_ & _ & _ & _ & _ & CO & CT).
      destruct (inFlight_core s (clock w) c') as (_ & _ & _ & _ & _ & _ & IO & IT).
      rewrite CO, CT, IO, IT, Pr. split; reflexivity.
    + destruct Hcase as (_ & _ & c' & w1 & inner & _ & _ & Ev & E).
      rewrite E in *. cbn [fst snd] in *.
      split; [ exists inner; rewrite Lg, Ev; reflexivity | ].
      split; [ intro R; discriminate R | ].
      intros e1 _ Th. apply afterFailure_circuit.
      destruct (inFlight_core s (clock w) c') as (F0 & _ & C0 & _).
      rewrite F0, C0. unfold of_Z in *. rewrite inject_Z_plus.
      eapply Qle_trans; [ exact Th | ].
      rewrite <- (Qplus_0_r (inject_Z (BatchClient.consecutiveFailures s))) at 1.
      apply Qplus_le_r. discriminate.
Qed.

Lemma circuit_breaker_gate_witness :
  let s := tripped manualConfig 1700000000000 [entryA] in
  let early := sleep 9999 (agentWorld [healthy; healthy]) in
  let late := sleep 10000 (agentWorld [healthy; healthy]) in
  (0 < BatchClient.getPendingCount s)%nat /\
  (of_Z (clock early - 1700000000000)
   < BatchClient.openTimeout (BatchClient.config s))%Q /\
  (BatchClient.openTimeout (BatchClient.config s)
   <= of_Z (clock late - 1700000000000))%Q /\
  fst (snd (BatchClient.flush (s, early))) = BatchClient.set_batch [] s /\
  BatchClient.flush (s, late)
    = BatchClient.flush (BatchClient.set_circuit false None s, late).
Proof.
  intros s early late.
  assert (P : (0 < BatchClient.getPendingCount s)%nat) by (cbn; lia).
  assert (E : (of_Z (clock early - 1700000000000)
               < BatchClient.openTimeout (BatchClient.config s))%Q)
    by (vm_compute; reflexivity).
  assert (L : (BatchClient.openTimeout (BatchClient.config s)
               <= of_Z (clock late - 1700000000000))%Q)
    by (vm_compute; discriminate).
  assert (N : 1700000000000 <> 0) by lia.
  split; [ exact P | split; [ exact E | split; [ exact L | split ] ] ].
  - pose proof (circuit_breaker_gate s early 1700000000000 P) as H.
    cbn zeta in H. destruct H as (_ & H & _).
    exact (proj1 (proj2 (H eq_refl eq_refl E))).
  - pose proof (circuit_breaker_gate s late 1700000000000 P) as H.
    cbn zeta in H. destruct H as (_ & _ & H).
    exact (proj1 (H eq_refl eq_refl N L)).
Defined.

(** ** Invariants of runs *)

Lemma core_eq_refl s : core_eq s s.
Proof. repeat split. Qed.

Lemma core_eq_trans s1 s2 s3 : core_eq s1 s2 -> core_eq s2 s3 -> core_eq s1 s3.
Proof.
  unfold core_eq. intros (A1 & A2 & A3 & A4 & A5) (B1 & B2 & B3 & B4 & B5).
  repeat split; congruence.
Qed.

Lemma flush_clock s w :
  clock w <= clock (snd (snd (BatchClient.flush (s, w)))).
Proof. destruct (flush_spec s w) as (evs & _ & C & _). exact C. Qed.

#[local] Arguments BatchClient.addLogEntry : simpl never.
#[local] Arguments BatchClient.onFlushTimer : simpl never.
#[local] Arguments BatchClient.exitHandler : simpl never.
#[local] Arguments BatchClient.syncExitHandler : simpl never.

(** Every operation leaves the core of the engine alone, apart from at
    most one flush, and never turns the clock back. *)
Lemma step_core op s w :
  let s' := fst (snd (step op (s, w))) in
  let w' := snd (snd (step op (s, w))) in
  (core_eq s s' /\ clock w <= clock w') \/
  (exists s0,
     core_eq s s0 /\
     core_eq (fst (snd (BatchClient.flush (s0, w)))) s' /\
     clock w' = clock (snd (snd (BatchClient.flush (s0, w))))).
Proof.
  assert (Hstop : forall s w,
    exists s0,
      core_eq s s0 /\
      ((core_eq s0 (fst (snd (BatchClient.stop (s, w)))) /\
        clock w = clock (snd (snd (BatchClient.stop (s, w))))) \/
       (core_eq (fst (snd (BatchClient.flush (s0, w))))
                (fst (snd (BatchClient.stop (s, w)))) /\
        clock (snd (snd (BatchClient.stop (s, w))))
        = clock (snd (snd (BatchClient.flush (s0, w))))))).
  { clear. intros s w. exists (halted s). split; [ repeat split | ].
    rewrite stop_unfold.
    destruct (BatchClient.batch s).
    - left. cbn. repeat split.
    - right.
      destruct (BatchClient.flush (halted s, w)) as [[[] | e] [s1 w1]];
        cbn; repeat split. }
  cbn zeta.
  destruct op as [entry | | | | | | ms]; cbn [step].
  - rewrite addLogEntry_unfold.
    destruct (BatchClient.stopped s); cbn.
    + left. split; [ apply core_eq_refl | lia ].
    + destruct (mustFlush (accept entry s)).
      * right. exists (accept entry s). repeat split.
      * left. cbn. repeat split. lia.
  - right. exists s. repeat split.
  - rewrite onFlushTimer_unfold.
    destruct (BatchClient.stopped s); cbn.
    + left. split; [ apply core_eq_refl | lia ].
    + destruct (BatchClient.batch s).
      * left. cbn. repeat split. lia.
      * right.
        exists (BatchClient.set_flushTimer (Some (BatchClient.timerDelay s)) s).
        destruct (BatchClient.flush _) as [[[] | e] [s1 w1]];
          cbn; repeat split.
  - destruct (Hstop s w) as (s0 & C0 & [[C1 K] | [C1 K]]).
    + left. split; [ eapply core_eq_trans; eauto | lia ].
    + right. exists s0. auto.
  - rewrite exitHandler_unfold.
    destruct (BatchClient.stopped s).
    + left. cbn. split; [ apply core_eq_refl | lia ].
    + destruct (Hstop s w) as (s0 & C0 & [[C1 K] | [C1 K]]).
      * left. split; [ eapply core_eq_trans; eauto | lia ].
      * right. exists s0. auto.
  - rewrite syncExitHandler_unfold. left.
    destruct (BatchClient.stopped s), (BatchClient.batch s); cbn;
      (split; [ apply core_eq_refl | lia ]).
  - left. cbn. split; [ apply core_eq_refl | lia ].
Qed.

Lemma step_invariant I op s w :
  Invariant I ->
  I s (clock w) ->
  I (fst (snd (step op (s, w)))) (clock (snd (snd (step op (s, w))))).
Proof.
  intros [Hcore Hlater Hflush] H.
  destruct (step_core op s w) as [[C K] | (s0 & C0 & C1 & K)].
  - eapply Hlater; [ exact K | ]. eapply Hcore; eauto.
  - rewrite K. eapply Hcore; [ exact C1 | ].
    apply Hflush. eapply Hcore; eauto.
Qed.

Lemma run_invariant I ops :
  Invariant I ->
  forall st,
    I (fst st) (clock (snd st)) ->
    I (fst (run ops st)) (clock (snd (run ops st))).
Proof.
  intro HI. induction ops as [| op ops IH]; intros [s w] H; cbn [run].
  - exact H.
  - apply IH.
    destruct (step op (s, w)) as [r [s' w']] eqn:E.
    pose proof (step_invariant op s w HI H) as K.
    rewrite E in K. exact K.
Qed.

(** ** Backoff *)

Lemma scaled_delay_grows (d m : Q) : (0 < d)%Q -> (1 < m)%Q -> (d <= d * m)%Q.
Proof. intros. nra. Qed.

Lemma Math_min_lower (d m cap : Q) :
  (0 < d)%Q -> (d <= cap)%Q -> (1 < m)%Q ->
  (d <= Math_min (d * m) cap)%Q /\ (0 < Math_min (d * m) cap)%Q.
Proof.
  intros D C Mm.
  assert (G : (d <= Math_min (d * m) cap)%Q)
    by (apply Math_min_glb; [ apply scaled_delay_grows; assumption | exact C ]).
  split; [ exact G | ]. eapply Qlt_le_trans; eauto.
Qed.

Lemma new_started c cfg engine :
  BatchClient.new c (Some cfg) = Ok engine ->
  validateBatchConfig cfg = None /\ engine = started c cfg.
Proof.
  unfold BatchClient.new, nullish.
  destruct (validateBatchConfig cfg); intro H.
  - discriminate H.
  - inversion H. split; reflexivity.
Qed.

Lemma first_error_none_cons o rest :
  first_error (o :: rest) = None -> o = None /\ first_error rest = None.
Proof. destruct o; cbn; intro H; [ discriminate | auto ]. Qed.

Lemma check_none b e : check b e = None -> b = false.
Proof. destruct b; cbn; [ discriminate | reflexivity ]. Qed.

(** A validated configuration has a positive initial delay. *)
Lemma valid_initialDelay_positive cfg :
  validateBatchConfig cfg = None -> (0 < BatchClient.initialDelay cfg)%Q.
Proof.
  unfold validateBatchConfig. intro H.
  apply first_error_none_cons in H. destruct H as (_ & H).
  apply first_error_none_cons in H. destruct H as (H & _).
  unfold validateBatchRetryConfig in H.
  apply first_error_none_cons in H. destruct H as (H & _).
  apply check_none in H.
  unfold BatchClient.initialDelay, defined_le in *.
  destruct (initialRetryDelay cfg) as [d |]; cbn.
  - change (num_ge 0 d = false) in H. apply num_ge_false_iff in H. exact H.
  - unfold Qlt. cbn. lia.
Qed.

Lemma backoff_invariant cfg :
  (0 < BatchClient.initialDelay cfg)%Q ->
  (BatchClient.initialDelay cfg <= BatchClient.maxDelay cfg)%Q ->
  (1 < BatchClient.multiplier cfg)%Q ->
  Invariant (backoff_inv cfg).
Proof.
  intros Pos Le Mult. constructor.
  - intros s s' now (C & _ & D & _) (Hc & Hp & Hm).
    unfold backoff_inv. rewrite <- C, <- D. auto.
  - intros s now later _ H. exact H.
  - intros s w (Hc & Hp & Hm).
    destruct (flush_spec s w) as (evs & _ & _ & Hcase).
    destruct (flushOutcome (s, w)).
    + destruct Hcase as (_ & _ & E). rewrite E. cbn. repeat split; auto.
    + destruct Hcase as (_ & _ & _ & E). rewrite E. cbn. repeat split; auto.
    + destruct Hcase as (_ & _ & c' & w' & inner & _ & _ & _ & E).
      rewrite E. cbn [fst snd].
      destruct (afterSend_backoff (clock w') (BatchClient.batch s)
                  (inFlight s (clock w) c')) as (_ & D & C & _).
      destruct (inFlight_core s (clock w) c') as (_ & _ & C0 & _).
      unfold backoff_inv. rewrite D, C, C0, Hc. auto.
    + destruct Hcase as (_ & _ & c' & w' & inner & _ & _ & _ & E).
      rewrite E. cbn [fst snd].
      destruct (afterFailure_backoff (clock w') (BatchClient.batch s)
                  (inFlight s (clock w) c')) as (_ & D & C & _).
      destruct (inFlight_core s (clock w) c') as (_ & D0 & C0 & _).
      unfold backoff_inv. rewrite D, C, D0, C0, Hc.
      split; [ reflexivity | ].
      split; [ apply Math_min_lower; assumption | apply Math_min_le_r ].
Qed.

Lemma started_backoff_inv c cfg now :
  (0 < BatchClient.initialDelay cfg)%Q ->
  (BatchClient.initialDelay cfg <= BatchClient.maxDelay cfg)%Q ->
  backoff_inv cfg (started c cfg) now.
Proof. intros. unfold backoff_inv. cbn. auto. Qed.

(** What one flush does to the backoff state. *)
Lemma flush_backoff s w :
  let s' := fst (snd (BatchClient.flush (s, w))) in
  let cfg := BatchClient.config s in
  (flushOutcome (s, w) = Sent ->
   BatchClient.consecutiveFailures s' = 0 /\
   BatchClient.nextRetryDelay s' = BatchClient.initialDelay cfg) /\
  (forall e, flushOutcome (s, w) = Failed e ->
   BatchClient.consecutiveFailures s'
     = BatchClient.consecutiveFailures s + 1 /\
   BatchClient.nextRetryDelay s'
     = Math_min (BatchClient.nextRetryDelay s * BatchClient.multiplier cfg)
                (BatchClient.maxDelay cfg)) /\
  (flushOutcome (s, w) = NothingPending \/ flushOutcome (s, w) = Dropped ->
   core_eq s s').
Proof.
  cbn zeta.
  destruct (flush_spec s w) as (evs & _ & _ & Hcase).
  destruct (flushOutcome (s, w)) eqn:O.
  - destruct Hcase as (_ & _ & E). rewrite E. cbn.
    repeat split; try discriminate.
  - destruct Hcase as (_ & _ & _ & E). rewrite E. cbn.
    repeat split; try discriminate.
  - destruct Hcase as (_ & _ & c' & w' & inner & _ & _ & _ & E).
    rewrite E. cbn [fst snd].
    destruct (afterSend_backoff (clock w') (BatchClient.batch s)
                (inFlight s (clock w) c')) as (F & D & C & _).
    destruct (inFlight_core s (clock w) c') as (_ & _ & C0 & _).
    rewrite F, D, C0.
    split; [ auto | split; [ discriminate | intros [K | K]; discriminate K ] ].
  - destruct Hcase as (_ & _ & c' & w' & inner & _ & _ & _ & E).
    rewrite E. cbn [fst snd].
    destruct (afterFailure_backoff (clock w') (BatchClient.batch s)
                (inFlight s (clock w) c')) as (F & D & C & _).
    destruct (inFlight_core s (clock w) c') as (F0 & D0 & C0 & _).
    rewrite F, D, F0, D0, C0.
    split; [ discriminate | split; [ auto | intros [K | K]; discriminate K ] ].
Qed.

(** C3 (backoff).  Let the engine be built from a configuration whose
    initial retry delay is at most its maximum retry delay and whose
    multiplier is above 1 (each with the default the code falls back
    on).
    - A flush whose [sendLogBatch] call returns resets the failure count
      to 0 and the retry delay to the initial delay.
    - A flush whose [sendLogBatch] call throws adds 1 to the failure
      count and sets the retry delay to
      [min(nextRetryDelay * multiplier, maxRetryDelay)].
    - In every state of every run the retry delay is at most the
      maximum, and every operation either resets the backoff state
      after a send that returned or leaves a retry delay and a failure
      count that are not below the ones it found. *)
Theorem backoff_contract (cfg : BatchConfig) (c : LogFluxClient.t)
  (engine : BatchClient.t) (w0 : World) (ops : list Op) (op : Op) :
  BatchClient.new c (Some cfg) = Ok engine ->
  (BatchClient.initialDelay cfg <= BatchClient.maxDelay cfg)%Q ->
  (1 < BatchClient.multiplier cfg)%Q ->
  let st := run ops (engine, w0) in
  let s := fst st in
  let s1 := fst (snd (step op st)) in
  (forall s0 w,
     BatchClient.config s0 = cfg ->
     let s' := fst (snd (BatchClient.flush (s0, w))) in
     (flushOutcome (s0, w) = Sent ->
      BatchClient.consecutiveFailures s' = 0 /\
      BatchClient.nextRetryDelay s' = BatchClient.initialDelay cfg) /\
     (forall e, flushOutcome (s0, w) = Failed e ->
      BatchClient.consecutiveFailures s'
        = BatchClient.consecutiveFailures s0 + 1 /\
      BatchClient.nextRetryDelay s'
        = Math_min (BatchClient.nextRetryDelay s0 * BatchClient.multiplier cfg)
                   (BatchClient.maxDelay cfg))) /\
  (BatchClient.nextRetryDelay s <= BatchClient.maxDelay cfg)%Q /\
  ((BatchClient.consecutiveFailures s1 = 0 /\
    BatchClient.nextRetryDelay s1 = BatchClient.initialDelay cfg) \/
   (BatchClient.consecutiveFailures s <= BatchClient.consecutiveFailures s1 /\
    (BatchClient.nextRetryDelay s <= BatchClient.nextRetryDelay s1)%Q)).
Proof.
  intros Hnew Hle Hmult. cbn zeta.
  destruct (@new_started c cfg engine Hnew) as (Hvalid & ->).
  pose proof (@valid_initialDelay_positive cfg Hvalid) as Hpos.
  pose proof (@backoff_invariant cfg Hpos Hle Hmult) as HI.
  pose proof (@run_invariant _ ops HI (started c cfg, w0)
                (@started_backoff_inv c cfg (clock w0) Hpos Hle)) as Hrun.
  destruct (run ops (started c cfg, w0)) as [s w] eqn:R. cbn [fst snd] in *.
  destruct Hrun as (Hc & Hp & Hm).
  split; [ | split; [ exact Hm | ] ].
  - intros s0 w1 C0. cbn zeta.
    destruct (flush_backoff s0 w1) as (A & B & _). cbn zeta in A, B.
    rewrite C0 in A, B. split; assumption.
  - destruct (step_core op s w) as [[C K] | (s0 & C0 & C1 & K)].
    + right. destruct C as (_ & F & D & _). rewrite <- F, <- D.
      split; [ lia | apply Qle_refl ].
    + destruct C0 as (Cc & Cf & Cd & _).
      destruct C1 as (_ & Ff & Fd & _).
      rewrite <- Ff, <- Fd, Cf, Cd.
      destruct (flush_backoff s0 w) as (A & B & N). cbn zeta in A, B, N.
      rewrite <- Cc, Hc in A, B.
      destruct (flushOutcome (s0, w)) eqn:O.
      * right. destruct (N (or_introl eq_refl)) as (_ & F & D & _).
        rewrite <- F, <- D. split; [ lia | apply Qle_refl ].
      * right. destruct (N (or_intror eq_refl)) as (_ & F & D & _).
        rewrite <- F, <- D. split; [ lia | apply Qle_refl ].
      * left. apply A. reflexivity.
      * right. destruct (B e eq_refl) as (F & D). rewrite F, D.
        split; [ lia | ].
        apply Math_min_lower; rewrite <- ?Cd; assumption.
Qed.

Lemma backoff_contract_witness :
  let st := run [Add entryA; Add entryB]
                (started unixClient smallConfig, noAgentWorld) in
  BatchClient.new unixClient (Some smallConfig)
    = Ok (started unixClient smallConfig) /\
  (BatchClient.initialDelay smallConfig
   <= BatchClient.maxDelay smallConfig)%Q /\
  (1 < BatchClient.multiplier smallConfig)%Q /\
  (BatchClient.nextRetryDelay (fst st)
   <= BatchClient.maxDelay smallConfig)%Q.
Proof.
  intro st.
  assert (N : BatchClient.new unixClient (Some smallConfig)
              = Ok (started unixClient smallConfig)) by reflexivity.
  assert (L : (BatchClient.initialDelay smallConfig
               <= BatchClient.maxDelay smallConfig)%Q)
    by (vm_compute; discriminate).
  assert (G : (1 < BatchClient.multiplier smallConfig)%Q)
    by (vm_compute; reflexivity).
  split; [ exact N | split; [ exact L | split; [ exact G | ] ] ].
  exact (proj1 (proj2
           (@backoff_contract smallConfig unixClient
              (started unixClient smallConfig) noAgentWorld
              [Add entryA; Add entryB] Flush N L G))).
Defined.

(** On the states of a run, an open circuit carries a usable timestamp
    (a clock reading other than 0) and goes with a failure count at the
    threshold. *)
Lemma circuit_invariant : Invariant circuit_inv.
Proof.
  constructor.
  - intros s s' now (C & F & _ & O & T) (Hn & H).
    split; [ exact Hn | ]. rewrite <- O, <- T, <- C, <- F. exact H.
  - intros s now later Le (Hn & H). split; [ lia | ].
    intro O. destruct (H O) as (since & T & B & Th).
    exists since. repeat split; auto; lia.
  - intros s w (Hn & H).
    destruct (flush_spec s w) as (evs & _ & Ck & Hcase).
    split; [ lia | ].
    destruct (flushOutcome (s, w)).
    + destruct Hcase as (_ & _ & E). rewrite E in *. cbn in *. exact H.
    + destruct Hcase as (_ & _ & _ & E). rewrite E in *. cbn in *. exact H.
    + destruct Hcase as (_ & G & c' & w' & inner & _ & _ & _ & E).
      rewrite E in *. cbn [fst snd] in *.
      destruct (afterSend_backoff (clock w') (BatchClient.batch s)
                  (inFlight s (clock w) c')) as (_ & _ & _ & _ & _ & CO & _).
      destruct (inFlight_core s (clock w) c') as (_ & _ & _ & _ & _ & _ & IO & _).
      rewrite CO, IO, (probe_closed s (clock w) G). discriminate.
    + destruct Hcase as (_ & G & c' & w' & inner & _ & _ & _ & E).
      rewrite E in *. cbn [fst snd] in *.
      destruct (afterFailure_backoff (clock w') (BatchClient.batch s)
                  (inFlight s (clock w) c')) as (F & _ & C & _).
      destruct (inFlight_core s (clock w) c')
        as (F0 & _ & C0 & _ & _ & _ & IO & _).
      destruct (num_ge (of_Z (BatchClient.consecutiveFailures s + 1))
                       (BatchClient.threshold (BatchClient.config s))) eqn:Th.
      * apply num_ge_iff in Th.
        destruct (afterFailure_circuit (clock w') (BatchClient.batch s)
                    (inFlight s (clock w) c')) as (_ & T).
        { rewrite F0, C0. exact Th. }
        intros _. exists (clock w'). rewrite T, C, C0, F, F0.
        repeat split; auto; lia.
      * apply num_ge_false_iff in Th.
        destruct (afterFailure_circuit_below (clock w') (BatchClient.batch s)
                    (inFlight s (clock w) c')) as (O & _).
        { rewrite F0, C0. exact Th. }
        rewrite O, IO, (probe_closed s (clock w) G). discriminate.
Qed.

Lemma run_circuit_inv c cfg w0 ops :
  0 < clock w0 ->
  circuit_inv (fst (run ops (started c cfg, w0)))
              (clock (snd (run ops (started c cfg, w0)))).
Proof.
  intro H. apply (run_invariant ops circuit_invariant (started c cfg, w0)).
  split; [ exact H | ]. cbn. discriminate.
Qed.

(** ** Order of delivery *)








(** ** Batch-size validation *)






(** ** Drops and the statistics *)

Lemma blocked_accept entry s now : blocked (accept entry s) now = blocked s now.
Proof. reflexivity. Qed.




(** ** Flush triggers *)

(** Measuring a string without unpaired surrogates and what follows it
    separately or together gives the same number of bytes. *)
Lemma byteLength_app_bounded (n : nat) :
  forall a b,
    (List.length a <= n)%nat ->
    Js.well_formed a = true ->
    Js.byteLength (a ++ b) = Js.byteLength a + Js.byteLength b.
Proof.
  induction n as [| n IH]; intros a b Hn Hw.
  - destruct a; [ reflexivity | cbn in Hn; lia ].
  - destruct a as [| c rest]; [ reflexivity | ].
    cbn in Hn. cbn [app].
    cbn [Js.byteLength Js.well_formed] in *.
    destruct (c <? 128)%N eqn:C1.
    + assert (Hh : Js.is_high_surrogate c = false).
      { unfold Js.is_high_surrogate. apply N.ltb_lt in C1.
        apply andb_false_iff. left. apply N.leb_gt. lia. }
      rewrite Hh in Hw. apply andb_prop in Hw. destruct Hw as (_ & Hw).
      rewrite (IH rest b); [ lia | lia | exact Hw ].
    + destruct (c <? 2048)%N eqn:C2.
      * assert (Hh : Js.is_high_surrogate c = false).
        { unfold Js.is_high_surrogate. apply N.ltb_lt in C2.
          apply andb_false_iff. left. apply N.leb_gt. lia. }
        rewrite Hh in Hw. apply andb_prop in Hw. destruct Hw as (_ & Hw).
        rewrite (IH rest b); [ lia | lia | exact Hw ].
      * destruct (Js.is_high_surrogate c).
        -- destruct rest as [| d rest']; [ discriminate Hw | ].
           apply andb_prop in Hw. destruct Hw as (Hd & Hw).
           cbn [app]. rewrite Hd.
           rewrite (IH rest' b); [ lia | cbn in Hn; lia | exact Hw ].
        -- apply andb_prop in Hw. destruct Hw as (_ & Hw).
           rewrite (IH rest b); [ lia | lia | exact Hw ].
Qed.

Lemma byteLength_app a b :
  Js.well_formed a = true ->
  Js.byteLength (a ++ b) = Js.byteLength a + Js.byteLength b.
Proof. apply (byteLength_app_bounded (n := List.length a)). lia. Qed.

Lemma fold_left_add_sumZ (A : Type) (f : A -> Z) (l : list A) :
  forall acc,
    List.fold_left (fun total x => total + f x) l acc
    = acc + sumZ (List.map f l).
Proof.
  unfold sumZ. induction l as [| x l IH]; intro acc; cbn.
  - lia.
  - rewrite IH. lia.
Qed.

Lemma addEntrySize_entrySize total entry :
  BatchClient.addEntrySize total entry = total + entrySize entry.
Proof.
  unfold BatchClient.addEntrySize, entrySize.
  destruct (metadata entry) as [fields |].
  - rewrite fold_left_add_sumZ. lia.
  - lia.
Qed.

Lemma getEstimatedMemoryUsage_sum s :
  BatchClient.getEstimatedMemoryUsage s
  = sumZ (List.map entrySize (BatchClient.batch s)).
Proof.
  unfold BatchClient.getEstimatedMemoryUsage.
  assert (H : forall l acc,
             List.fold_left BatchClient.addEntrySize l acc
             = acc + sumZ (List.map entrySize l)).
  { unfold sumZ. induction l as [| e l IH]; intro acc; cbn.
    - lia.
    - rewrite IH, addEntrySize_entrySize. lia. }
  rewrite H. lia.
Qed.

Lemma entrySize_separate entry :
  wellFormedKeys entry = true -> entrySize entry = separateEntrySize entry.
Proof.
  unfold wellFormedKeys, entrySize, separateEntrySize.
  destruct (metadata entry) as [fields |]; [ | reflexivity ].
  intro H. f_equal. unfold sumZ.
  induction fields as [| [k v] fields IH]; [ reflexivity | ].
  cbn in *. apply andb_prop in H. destruct H as (Hk & H).
  rewrite (byteLength_app k v Hk), (IH H). reflexivity.
Qed.

(** C7 (flush triggers).  [addLogEntry] on a running engine puts the
    entry at the tail of the buffer and adds one to the processed
    count.  With the entry in, the estimated memory usage is the sum
    over the pending entries of 200 plus the UTF-8 length of the payload
    plus, for each metadata pair, the UTF-8 length of key and value (the
    code measures them joined; measured one by one they give the same
    number whenever no key has an unpaired surrogate).  The call then
    is a flush exactly when the pending count has reached
    [maxBatchSize] or that estimate has reached [maxMemoryUsage], and
    otherwise returns with nothing sent or logged.  In particular an
    entry above [maxMemoryUsage] added to an empty buffer is flushed at
    once, alone. *)
Theorem flush_triggers (s : BatchClient.t) (w : World) (entry : LogEntry) :
  BatchClient.stopped s = false ->
  let s1 := accept entry s in
  let cfg := BatchClient.config s in
  BatchClient.batch s1 = BatchClient.batch s ++ [entry] /\
  entriesProcessed (BatchClient.getStats s1)
    = entriesProcessed (BatchClient.getStats s) + 1 /\
  BatchClient.getEstimatedMemoryUsage s1
    = sumZ (List.map entrySize (BatchClient.batch s1)) /\
  (forall e, wellFormedKeys e = true -> entrySize e = separateEntrySize e) /\
  BatchClient.addLogEntry entry (s, w)
    = (if num_ge (of_len (BatchClient.batch s1)) (maxBatchSize cfg)
          || num_ge (of_Z (BatchClient.getEstimatedMemoryUsage s1))
                    (maxMemoryUsage cfg)
       then BatchClient.flush (s1, w)
       else (Ok tt, (s1, w))) /\
  (BatchClient.batch s = [] ->
   (maxMemoryUsage cfg < of_Z (entrySize entry))%Q ->
   BatchClient.batch s1 = [entry] /\
   BatchClient.addLogEntry entry (s, w) = BatchClient.flush (s1, w)).
Proof.
  intros St. cbn zeta.
  split; [ reflexivity | split; [ reflexivity | ] ].
  split; [ apply getEstimatedMemoryUsage_sum | ].
  split; [ exact entrySize_separate | ].
  split.
  - rewrite addLogEntry_unfold, St. reflexivity.
  - intros B Hm. split; [ cbn; rewrite B; reflexivity | ].
    rewrite addLogEntry_unfold, St.
    assert (G : mustFlush (accept entry s) = true).
    { unfold mustFlush. apply orb_true_iff. right. apply num_ge_iff.
      rewrite getEstimatedMemoryUsage_sum. cbn. rewrite B. cbn.
      apply Qlt_le_weak. unfold of_Z.
      replace (entrySize entry + 0) with (entrySize entry) by lia.
      exact Hm. }
    rewrite G. reflexivity.
Qed.

Lemma flush_triggers_witness :
  let cfg :=
    {| maxBatchSize := 100; flushInterval := 1000; maxMemoryUsage := 200;
       flushOnExit := false; initialRetryDelay := None;
       maxRetryDelay := None; retryBackoffMultiplier := None;
       circuitBreakerFailureThreshold := None;
       circuitBreakerOpenTimeout := None |} in
  let s := started connectedClient cfg in
  let w := agentWorld [healthy] in
  BatchClient.stopped s = false /\
  BatchClient.batch s = [] /\
  (maxMemoryUsage cfg < of_Z (entrySize entryA))%Q /\
  BatchClient.addLogEntry entryA (s, w)
  = BatchClient.flush (accept entryA s, w) /\
  delivered (log (snd (snd (BatchClient.addLogEntry entryA (s, w)))))
  = [entryA].
Proof.
  intros cfg s w.
  assert (St : BatchClient.stopped s = false) by reflexivity.
  assert (B : BatchClient.batch s = []) by reflexivity.
  assert (Hm : (maxMemoryUsage cfg < of_Z (entrySize entryA))%Q)
    by (vm_compute; reflexivity).
  pose proof (flush_triggers s w entryA St) as H. cbn zeta in H.
  destruct H as (_ & _ & _ & _ & _ & H).
  split; [ exact St | split; [ exact B | split; [ exact Hm | split ] ] ].
  - exact (proj2 (H B Hm)).
  - vm_compute. reflexivity.
Defined.

(** A key that ends in an unpaired high surrogate and a value that
    starts with a low surrogate measure 3 + 3 bytes apart and 4 bytes
    joined. *)
Example joined_surrogates_measure_less :
  Js.byteLength [55357%N] + Js.byteLength [56832%N] = 6 /\
  Js.byteLength ([55357%N] ++ [56832%N]) = 4.
Proof. split; reflexivity. Qed.

(** ** Graceful stop *)

#[local] Arguments afterSend : simpl never.
#[local] Arguments afterFailure : simpl never.
#[local] Arguments inFlight : simpl never.
#[local] Arguments closeEvents : simpl never.
#[local] Arguments logged : simpl never.

Ltac break_ifs :=
  repeat match goal with
         | |- context [if ?b then _ else _] => destruct b
         end.

Lemma closeEvents_silent c :
  sendLogBatchCalls (closeEvents c) = [] /\ delivered (closeEvents c) = [] /\
  drops (closeEvents c) = [].
Proof.
  unfold closeEvents. destruct (LogFluxClient.socket c); repeat split.
Qed.

Lemma closeEvents_closed c :
  closeEvents (closed c) = [Called CallClose; Returned CallClose].
Proof. reflexivity. Qed.

(** *** A transport that never fails keeps the circuit closed *)

Lemma unanswered_app l1 l2 :
  unanswered (l1 ++ l2) = unanswered l1 + unanswered l2.
Proof.
  unfold unanswered, sendLogBatchCalls, sendLogBatchReturns.
  rewrite !flat_map_app, !length_app. lia.
Qed.

Lemma unanswered_inner evs : Forall inner_event evs -> unanswered evs = 0.
Proof.
  intro F. destruct (inner_event_silent F) as (_ & C & _ & _ & R).
  unfold unanswered. rewrite C, R. reflexivity.
Qed.

Lemma unanswered_closeEvents c : unanswered (closeEvents c) = 0.
Proof. unfold closeEvents. destruct (LogFluxClient.socket c); reflexivity. Qed.

Lemma tally_frame s s' w evs :
  BatchClient.consecutiveFailures s' = BatchClient.consecutiveFailures s ->
  unanswered evs = 0 ->
  tally s w -> tally s' (logged evs w).
Proof.
  unfold tally, logged. cbn. intros -> U H. rewrite unanswered_app, U. lia.
Qed.

Lemma tally_core s s' w :
  BatchClient.consecutiveFailures s' = BatchClient.consecutiveFailures s ->
  tally s w -> tally s' w.
Proof. unfold tally. intros ->. auto. Qed.

(** A flush keeps the failure count below the number of calls that
    threw: a call that returns resets the count, a call that throws
    adds one to both. *)
Lemma flush_tally s w :
  tally s w ->
  tally (fst (snd (BatchClient.flush (s, w))))
        (snd (snd (BatchClient.flush (s, w)))).
Proof.
  intro T. unfold tally in *.
  destruct (flush_spec s w) as (evs & L & _ & Hcase).
  rewrite L, unanswered_app.
  destruct (flushOutcome (s, w)).
  - destruct Hcase as (_ & -> & E). rewrite E. cbn. lia.
  - destruct Hcase as (_ & _ & -> & E). rewrite E. cbn. lia.
  - destruct Hcase as (_ & _ & c' & w' & inner & _ & F & -> & E).
    rewrite E. cbn [fst snd].
    destruct (afterSend_backoff (clock w') (BatchClient.batch s)
                (inFlight s (clock w) c')) as (C & _).
    rewrite C.
    change (Called (CallSendLogBatch (pendingBatch s)) :: inner ++ ?x)
      with ([Called (CallSendLogBatch (pendingBatch s))] ++ inner ++ x).
    rewrite !unanswered_app, (@unanswered_inner inner F). cbn. lia.
  - destruct Hcase as (_ & _ & c' & w' & inner & _ & F & -> & E).
    rewrite E. cbn [fst snd].
    destruct (afterFailure_backoff (clock w') (BatchClient.batch s)
                (inFlight s (clock w) c')) as (C & _).
    destruct (inFlight_core s (clock w) c') as (C0 & _).
    rewrite C, C0.
    change (Called (CallSendLogBatch (pendingBatch s)) :: inner)
      with ([Called (CallSendLogBatch (pendingBatch s))] ++ inner).
    rewrite !unanswered_app, (@unanswered_inner inner F). cbn. lia.
Qed.

Lemma stop_tally s w :
  tally s w ->
  tally (fst (snd (BatchClient.stop (s, w))))
        (snd (snd (BatchClient.stop (s, w)))).
Proof.
  intro T. rewrite stop_unfold.
  assert (Th : tally (halted s) w) by (apply (@tally_core s); auto).
  destruct (BatchClient.batch s).
  - cbn [fst snd].
    apply (@tally_frame (halted s)); auto using unanswered_closeEvents.
  - pose proof (@flush_tally _ _ Th) as K.
    destruct (BatchClient.flush (halted s, w)) as [[[] | e] [s1 w1]];
      cbn [fst snd] in K |- *.
    + apply (@tally_frame s1); auto using unanswered_closeEvents.
    + apply (@tally_frame s1); auto using unanswered_closeEvents.
      apply (@tally_frame s1); auto.
Qed.

Lemma step_tally op s w :
  tally s w ->
  tally (fst (snd (step op (s, w)))) (snd (snd (step op (s, w)))).
Proof.
  intro T. destruct op as [entry | | | | | | ms]; cbn [step].
  - rewrite addLogEntry_unfold.
    destruct (BatchClient.stopped s); [ exact T | ].
    assert (Ta : tally (accept entry s) w) by (apply (@tally_core s); auto).
    destruct (mustFlush (accept entry s)).
    + apply flush_tally, Ta.
    + exact Ta.
  - apply flush_tally, T.
  - rewrite onFlushTimer_unfold.
    destruct (BatchClient.stopped s); [ exact T | ]. cbn zeta.
    assert (Ta : tally (BatchClient.set_flushTimer
                          (Some (BatchClient.timerDelay s)) s) w)
      by (apply (@tally_core s); auto).
    destruct (BatchClient.batch s); [ exact Ta | ].
    pose proof (@flush_tally _ _ Ta) as K.
    destruct (BatchClient.flush _) as [[[] | e] [s1 w1]];
      cbn [fst snd] in K |- *.
    + exact K.
    + apply (@tally_frame s1); auto.
  - apply stop_tally, T.
  - rewrite exitHandler_unfold.
    destruct (BatchClient.stopped s); [ exact T | apply stop_tally, T ].
  - rewrite syncExitHandler_unfold.
    destruct (BatchClient.stopped s), (BatchClient.batch s);
      cbn [fst snd]; try exact T.
    apply (@tally_frame s); auto.
  - exact T.
Qed.

Lemma run_tally ops :
  forall st, tally (fst st) (snd st) ->
             tally (fst (run ops st)) (snd (run ops st)).
Proof.
  induction ops as [| op ops IH]; intros [s w] H; cbn [run].
  - exact H.
  - apply IH. cbn [fst snd] in H.
    pose proof (@step_tally op s w H) as K.
    destruct (step op (s, w)) as [r [s' w']]. exact K.
Qed.

Lemma open_invariant : Invariant open_inv.
Proof.
  constructor.
  - intros s s' now (C & F & _ & O & _) H. unfold open_inv in *.
    rewrite <- O, <- C, <- F. exact H.
  - intros s now later _ H. exact H.
  - intros s w (P & H). unfold open_inv.
    destruct (flush_spec s w) as (evs & _ & _ & Hcase).
    destruct (flushOutcome (s, w)).
    + destruct Hcase as (_ & _ & E). rewrite E. cbn. auto.
    + destruct Hcase as (_ & _ & _ & E). rewrite E. cbn. auto.
    + destruct Hcase as (_ & G & c' & w' & inner & _ & _ & _ & E).
      rewrite E. cbn [fst snd].
      destruct (afterSend_backoff (clock w') (BatchClient.batch s)
                  (inFlight s (clock w) c')) as (_ & _ & C & _ & _ & CO & _).
      destruct (inFlight_core s (clock w) c')
        as (_ & _ & C0 & _ & _ & _ & IO & _).
      rewrite CO, IO, (probe_closed s (clock w) G), C, C0.
      split; [ exact P | discriminate ].
    + destruct Hcase as (_ & G & c' & w' & inner & _ & _ & _ & E).
      rewrite E. cbn [fst snd].
      destruct (afterFailure_backoff (clock w') (BatchClient.batch s)
                  (inFlight s (clock w) c')) as (F & _ & C & _).
      destruct (inFlight_core s (clock w) c')
        as (F0 & _ & C0 & _ & _ & _ & IO & _).
      rewrite C, C0, F, F0. split; [ exact P | ].
      destruct (num_ge (of_Z (BatchClient.consecutiveFailures s + 1))
                       (BatchClient.threshold (BatchClient.config s))) eqn:Th.
      * apply num_ge_iff in Th. intros _. exact Th.
      * apply num_ge_false_iff in Th.
        destruct (afterFailure_circuit_below (clock w') (BatchClient.batch s)
                    (inFlight s (clock w) c')) as (O & _).
        { rewrite F0, C0. exact Th. }
        rewrite O, IO, (probe_closed s (clock w) G). discriminate.
Qed.

(** A validated configuration has a positive failure threshold. *)
Lemma valid_threshold_positive cfg :
  validateBatchConfig cfg = None -> (0 < BatchClient.threshold cfg)%Q.
Proof.
  unfold validateBatchConfig. intro H.
  apply first_error_none_cons in H. destruct H as (_ & H).
  apply first_error_none_cons in H. destruct H as (_ & H).
  apply first_error_none_cons in H. destruct H as (H & _).
  unfold validateBatchCircuitBreakerConfig in H.
  apply first_error_none_cons in H. destruct H as (H & _).
  apply check_none in H.
  unfold BatchClient.threshold, defined_le in *.
  destruct (circuitBreakerFailureThreshold cfg) as [d |]; cbn.
  - change (num_ge 0 d = false) in H. apply num_ge_false_iff in H. exact H.
  - unfold Qlt. cbn. lia.
Qed.

(** While every [sendLogBatch] call of a run has returned, the circuit
    is closed: the gate of [flush] lets every flush through. *)
Lemma answered_run_unblocked c cfg engine w0 ops :
  BatchClient.new c (Some cfg) = Ok engine ->
  log w0 = [] ->
  unanswered (log (snd (run ops (engine, w0)))) = 0 ->
  forall now, blocked (fst (run ops (engine, w0))) now = false.
Proof.
  intros N L0 U now.
  destruct (@new_started c cfg engine N) as (V & ->).
  assert (T : tally (fst (run ops (started c cfg, w0)))
                    (snd (run ops (started c cfg, w0)))).
  { apply (run_tally ops (started c cfg, w0)).
    unfold tally. cbn. rewrite L0. cbn. lia. }
  assert (O : open_inv (fst (run ops (started c cfg, w0)))
                       (clock (snd (run ops (started c cfg, w0))))).
  { apply (run_invariant ops open_invariant (started c cfg, w0)).
    split; [ exact (@valid_threshold_positive cfg V) | cbn; discriminate ]. }
  unfold tally in T. rewrite U in T.
  assert (F0 : BatchClient.consecutiveFailures
                 (fst (run ops (started c cfg, w0))) = 0) by lia.
  destruct O as (P & O). unfold blocked.
  destruct (BatchClient.circuitOpen _) eqn:CO; [ | reflexivity ].
  specialize (O eq_refl). rewrite F0 in O.
  exfalso. apply (Qlt_irrefl 0). eapply Qlt_le_trans; [ exact P | exact O ].
Qed.


(** What [stop] does in every state.  It never throws.  It leaves the
    engine stopped, without timer and exit hooks, and the transport
    closed (no socket, not connected).
    - With entries pending, the gate of the circuit breaker letting the
      flush through and [sendLogBatch] returning for those entries,
      [stop] makes exactly one [sendLogBatch] call, carrying exactly
      the pending entries, and nothing stays pending.
    - With entries pending and the circuit open inside its cooldown,
      [stop] makes no [sendLogBatch] call and the entries are dropped.
    - After [stop], [addLogEntry] throws at once and changes nothing.
    - A second [stop] returns normally; if nothing was left pending it
      only calls [close] again, which changes nothing. *)
Lemma stop_spec (s : BatchClient.t) (w : World) :
  let r := fst (BatchClient.stop (s, w)) in
  let s' := fst (snd (BatchClient.stop (s, w))) in
  let w' := snd (snd (BatchClient.stop (s, w))) in
  r = Ok tt /\
  BatchClient.isStopped s' = true /\
  BatchClient.flushTimer s' = None /\
  BatchClient.exitHandlers s' = false /\
  LogFluxClient.isConnected (BatchClient.client s') = false /\
  LogFluxClient.socket (BatchClient.client s') = None /\
  ((0 < BatchClient.getPendingCount s)%nat ->
   blocked s (clock w) = false ->
   fst (sendPending s w) = Ok tt ->
   BatchClient.getPendingCount s' = 0%nat /\
   exists evs,
     log w' = log w ++ evs /\
     sendLogBatchCalls evs = [pendingBatch s] /\
     delivered evs = BatchClient.batch s) /\
  ((0 < BatchClient.getPendingCount s)%nat ->
   blocked s (clock w) = true ->
   BatchClient.getPendingCount s' = 0%nat /\
   exists evs,
     log w' = log w ++ evs /\
     sendLogBatchCalls evs = [] /\
     drops evs = [BatchClient.getPendingCount s]) /\
  (forall entry w2,
     BatchClient.addLogEntry entry (s', w2)
     = (Throw ErrBatchClientStopped, (s', w2))) /\
  (forall w2,
     fst (BatchClient.stop (s', w2)) = Ok tt /\
     (BatchClient.getPendingCount s' = 0%nat ->
      BatchClient.stop (s', w2)
      = (Ok tt, (s', logged [Called CallClose; Returned CallClose] w2)))).
Proof.
  cbn zeta.
  assert (Always : forall s w,
    fst (BatchClient.stop (s, w)) = Ok tt /\
    BatchClient.stopped (fst (snd (BatchClient.stop (s, w)))) = true /\
    BatchClient.flushTimer (fst (snd (BatchClient.stop (s, w)))) = None /\
    BatchClient.exitHandlers (fst (snd (BatchClient.stop (s, w)))) = false /\
    BatchClient.client (fst (snd (BatchClient.stop (s, w))))
    = closed (BatchClient.client (fst (snd (BatchClient.stop (s, w)))))).
  { clear. intros s w. rewrite stop_unfold.
    destruct (BatchClient.batch s) as [| e0 pending] eqn:B.
    - cbn. repeat split.
    - destruct (flush_spec (halted s) w) as (evs & _ & _ & Hcase).
      destruct (flushOutcome (halted s, w)).
      + destruct Hcase as (_ & _ & E). rewrite E. cbn. repeat split.
      + destruct Hcase as (_ & _ & _ & E). rewrite E. cbn. repeat split.
      + destruct Hcase as (_ & _ & c' & w1 & inner & _ & _ & _ & E).
        rewrite E. unfold afterSend, inFlight, probe. cbn.
        break_ifs; cbn; repeat split.
      + destruct Hcase as (_ & _ & c' & w1 & inner & _ & _ & _ & E).
        rewrite E. unfold afterFailure, inFlight, probe. cbn.
        break_ifs; cbn; repeat split. }
  destruct (Always s w) as (R & St & Tm & Ex & Cl).
  split; [ exact R | ].
  split; [ exact St | ].
  split; [ exact Tm | ].
  split; [ exact Ex | ].
  split; [ rewrite Cl; reflexivity | ].
  split; [ rewrite Cl; reflexivity | ].
  split; [ | split; [ | split; [ | ] ] ].
  - (* the final flush reaches the transport *)
    intros P G SP. pose proof (pending_nonempty s P) as NE.
    rewrite stop_unfold.
    destruct (BatchClient.batch s) as [| e0 pending] eqn:B;
      [ contradiction | ].
    destruct (flush_spec (halted s) w) as (evs & L & _ & Hcase).
    assert (O : flushOutcome (halted s, w) = Sent).
    { unfold flushOutcome. cbn [BatchClient.batch halted
        BatchClient.set_exitHandlers BatchClient.set_flushTimer
        BatchClient.set_stopped]. rewrite B.
      change (blocked (halted s) (clock w)) with (blocked s (clock w)).
      rewrite G.
      change (sendPending (halted s) w) with (sendPending s w).
      rewrite SP. reflexivity. }
    rewrite O in Hcase.
    destruct Hcase as (_ & _ & c' & w1 & inner & _ & F & Ev & E).
    rewrite E in *. cbn [fst snd] in *.
    split.
    + unfold BatchClient.getPendingCount, afterSend, inFlight, probe. cbn.
      destruct (BatchClient.circuitOpen s
                && BatchClient.cooldownElapsed s (clock w)); reflexivity.
    + eexists. split; [ unfold logged; cbn; rewrite L, <- app_assoc;
                        reflexivity | ].
      destruct (inner_event_silent F) as (D1 & D2 & _).
      rewrite sendLogBatchCalls_app, delivered_app.
      rewrite (proj1 (closeEvents_silent _)).
      rewrite (proj1 (proj2 (closeEvents_silent _))).
      rewrite Ev, !app_nil_r.
      change (Called (CallSendLogBatch (pendingBatch (halted s)))
              :: inner ++ ?x)
        with ([Called (CallSendLogBatch (pendingBatch (halted s)))]
              ++ inner ++ x).
      rewrite !sendLogBatchCalls_app, !delivered_app, D1, D2. cbn.
      rewrite B, app_nil_r. split; reflexivity.
  - (* the final flush is dropped *)
    intros P G. pose proof (pending_nonempty s P) as NE.
    rewrite stop_unfold.
    destruct (BatchClient.batch s) as [| e0 pending] eqn:B;
      [ contradiction | ].
    assert (Ph : (0 < BatchClient.getPendingCount (halted s))%nat) by exact P.
    assert (Gh : blocked (halted s) (clock w) = true) by exact G.
    rewrite (flush_blocked (halted s) w Ph Gh). cbn [fst snd].
    split; [ reflexivity | ].
    eexists. split; [ unfold logged; cbn; rewrite <- app_assoc;
                      reflexivity | ].
    rewrite sendLogBatchCalls_app, drops_app.
    rewrite (proj1 (closeEvents_silent _)).
    rewrite (proj2 (proj2 (closeEvents_silent _))). cbn.
    unfold BatchClient.getPendingCount. cbn. rewrite B. split; reflexivity.
  - intros entry w2. rewrite addLogEntry_unfold, St. reflexivity.
  - intros w2. split; [ apply Always | ].
    intro Z0. revert St Tm Ex Cl Z0.
    generalize (fst (snd (BatchClient.stop (s, w)))).
    intros s' St Tm Ex Cl Z0. rewrite stop_unfold.
    unfold BatchClient.getPendingCount in Z0.
    apply length_zero_iff_nil in Z0. rewrite Z0. cbn [fst snd].
    assert (Ce : closeEvents (BatchClient.client (halted s'))
                 = [Called CallClose; Returned CallClose]).
    { change (BatchClient.client (halted s')) with (BatchClient.client s').
      rewrite Cl. apply closeEvents_closed. }
    rewrite Ce. f_equal. f_equal.
    change (BatchClient.client (halted s')) with (BatchClient.client s').
    rewrite <- Cl.
    destruct s' as [c0 cf b0 tm sp ex st cf0 nd co ct].
    cbn in St, Tm, Ex. subst. reflexivity.
Qed.

(** C6 (graceful stop).  The engine is built by the constructor and
    driven by any run; every [sendLogBatch] call of the run returned
    and the call for the pending entries returns: the transport
    succeeds.  Then [stop], called with N > 0 entries pending, makes
    exactly one [sendLogBatch] call, carrying exactly those N entries,
    leaves nothing pending and closes the transport.  In every state
    [stop] returns normally, and an error of the final flush only
    reaches the console.  After [stop] every [addLogEntry] throws at
    once and changes nothing, and a second [stop] returns normally and
    only calls [close] again. *)
Theorem graceful_stop (cfg : BatchConfig) (c : LogFluxClient.t)
  (engine : BatchClient.t) (w0 : World) (ops : list Op) :
  BatchClient.new c (Some cfg) = Ok engine ->
  log w0 = [] ->
  let s := fst (run ops (engine, w0)) in
  let w := snd (run ops (engine, w0)) in
  unanswered (log w) = 0 ->
  (0 < BatchClient.getPendingCount s)%nat ->
  fst (sendPending s w) = Ok tt ->
  let s' := fst (snd (BatchClient.stop (s, w))) in
  let w' := snd (snd (BatchClient.stop (s, w))) in
  (exists evs,
     log w' = log w ++ evs /\
     sendLogBatchCalls evs = [pendingBatch s] /\
     List.length (entries (pendingBatch s)) = BatchClient.getPendingCount s /\
     delivered evs = BatchClient.batch s) /\
  BatchClient.getPendingCount s' = 0%nat /\
  BatchClient.isStopped s' = true /\
  LogFluxClient.isConnected (BatchClient.client s') = false /\
  LogFluxClient.socket (BatchClient.client s') = None /\
  (forall s0 w1,
     fst (BatchClient.stop (s0, w1)) = Ok tt /\
     (forall e,
        BatchClient.batch s0 <> [] ->
        fst (BatchClient.flush (halted s0, w1)) = Throw e ->
        consoleLines
          (log (snd (snd (BatchClient.stop (s0, w1)))))
        = consoleLines
            (log (snd (snd (BatchClient.flush (halted s0, w1)))))
          ++ [ErrorDuringBatchStop e])) /\
  (forall entry w2,
     BatchClient.addLogEntry entry (s', w2)
     = (Throw ErrBatchClientStopped, (s', w2))) /\
  (forall w2,
     BatchClient.stop (s', w2)
     = (Ok tt, (s', logged [Called CallClose; Returned CallClose] w2))).
Proof.
  intros N L0 s w U P SP. cbn zeta.
  pose proof (@answered_run_unblocked c cfg engine w0 ops N L0 U (clock w))
    as G.
  fold s in G.
  destruct (stop_spec s w) as (_ & St & _ & _ & Cn & So & Sent & _ & Ad & Tw).
  destruct (Sent P G SP) as (Z0 & evs & L & Calls & Del).
  split; [ exists evs; repeat split; auto | ].
  split; [ exact Z0 | ].
  split; [ exact St | ].
  split; [ exact Cn | ].
  split; [ exact So | ].
  split; [ | split; [ exact Ad | ] ].
  - intros s0 w1. split; [ apply (stop_spec s0 w1) | ].
    intros e NE Th. rewrite stop_unfold.
    destruct (BatchClient.batch s0); [ contradiction | ].
    destruct (BatchClient.flush (halted s0, w1)) as [r [s1 w2]].
    cbn [fst snd] in Th |- *. subst r.
    unfold logged. cbn [log].
    rewrite !consoleLines_app.
    assert (K : consoleLines (closeEvents (BatchClient.client s1)) = []).
    { unfold closeEvents.
      destruct (LogFluxClient.socket (BatchClient.client s1)); reflexivity. }
    rewrite K, app_nil_r. reflexivity.
  - intro w2. exact (proj2 (Tw w2) Z0).
Qed.

Lemma graceful_stop_witness :
  let engine := started unixClient createDefaultBatchConfig in
  let w0 := agentWorld [healthy; healthy] in
  let ops := [Add entryA; Add entryB] in
  let s := fst (run ops (engine, w0)) in
  let w := snd (run ops (engine, w0)) in
  (BatchClient.new unixClient (Some createDefaultBatchConfig) = Ok engine /\
   log w0 = [] /\
   unanswered (log w) = 0 /\
   (0 < BatchClient.getPendingCount s)%nat /\
   fst (sendPending s w) = Ok tt) /\
  BatchClient.getPendingCount s = 2%nat /\
  BatchClient.getPendingCount (fst (snd (BatchClient.stop (s, w)))) = 0%nat /\
  BatchClient.isStopped (fst (snd (BatchClient.stop (s, w)))) = true.
Proof.
  intros engine w0 ops s w.
  assert (N : BatchClient.new unixClient (Some createDefaultBatchConfig)
              = Ok engine) by reflexivity.
  assert (L0 : log w0 = []) by reflexivity.
  assert (U : unanswered (log w) = 0) by reflexivity.
  assert (P : (0 < BatchClient.getPendingCount s)%nat)
    by (vm_compute; repeat constructor).
  assert (SP : fst (sendPending s w) = Ok tt) by (vm_compute; reflexivity).
  pose proof (@graceful_stop createDefaultBatchConfig unixClient engine w0
                ops N L0 U P SP) as H.
  cbn zeta in H. destruct H as (_ & Z0 & St & _).
  split; [ repeat split; assumption | ].
  split; [ reflexivity | ].
  split; [ exact Z0 | exact St ].
Defined.

(** The transport matters over the whole run, not only at the time of
    [stop]: here the circuit opens at the first failure; A is added and
    its flush is refused; B is added; the agent is healthy again (a
    send of the two entries would return), and [stop] is called inside
    the cooldown: it makes no [sendLogBatch] call and the two entries
    are dropped. *)
Example stop_after_a_refused_call :
  let before := run [Add entryA; Flush; Add entryB]
                    (started unixClient manualConfig,
                     agentWorld [refusing; healthy; healthy]) in
  let after := snd (BatchClient.stop before) in
  unanswered (log (snd before)) = 1 /\
  BatchClient.getPendingCount (fst before) = 2%nat /\
  fst (sendPending (fst before) (snd before)) = Ok tt /\
  BatchClient.getPendingCount (fst after) = 0%nat /\
  sendLogBatchCalls (log (snd after)) = sendLogBatchCalls (log (snd before)) /\
  delivered (log (snd after)) = [] /\
  drops (log (snd after)) = [2%nat].
Proof.
  vm_compute. repeat split.
Qed.

(** ** Probes: ping and authenticate *)

Lemma response_has_status_iff text response :
  LogFluxClient.response_has_status text response = true <->
  json_status response = Some (JStr (Js.of_ascii text)).
Proof.
  unfold LogFluxClient.response_has_status, status_is.
  split.
  - intro H. apply andb_prop in H. destruct H as (_ & H).
    destruct (json_status response) as [[| | | s | |] |];
      try discriminate H.
    apply Js_eqb_eq in H. subst. reflexivity.
  - intro H. rewrite H.
    assert (T : json_truthy response = true).
    { destruct response; cbn in H; try discriminate H; reflexivity. }
    rewrite T. cbn. apply Js_eqb_eq. reflexivity.
Qed.

Lemma ping_unfold c w :
  LogFluxClient.ping (c, w) =
  match ensureConnected (c, logged [Called CallPing] w) with
  | (Throw e, st) => (Throw e, st)
  | (Ok _, st) =>
      match exchange (MsgPing createPingRequest) st with
      | (Ok response, (c2, w2)) =>
          (Ok (LogFluxClient.response_has_status "pong" response),
           (c2, logged [Returned CallPing] w2))
      | (Throw _, (c2, w2)) =>
          (Ok false, (c2, logged [Returned CallPing] w2))
      end
  end.
Proof.
  unfold LogFluxClient.ping, LogFluxClient.spied, LogFluxClient.world,
    LogFluxClient.this, ensureConnected, exchange, logged,
    bind, ret, gets, modify, when, try_catch, on_snd, emit.
  cbn. destruct (LogFluxClient.connected c); cbn.
  - destruct (LogFluxClient.sendData _ _) as [[[] | e] [c1 w1]]; cbn;
      [ | reflexivity ].
    destruct (LogFluxClient.readResponse _) as [[r | e] [c2 w2]];
      reflexivity.
  - destruct (LogFluxClient.connect _) as [[[] | e] [c0 w0]]; cbn;
      [ | reflexivity ].
    destruct (LogFluxClient.sendData _ _) as [[[] | e] [c1 w1]]; cbn;
      [ | reflexivity ].
    destruct (LogFluxClient.readResponse _) as [[r | e] [c2 w2]];
      reflexivity.
Qed.

Lemma ensureConnected_connected c w :
  LogFluxClient.connected c = true -> ensureConnected (c, w) = (Ok tt, (c, w)).
Proof. unfold ensureConnected. cbn. intros ->. reflexivity. Qed.

(** C4 (ping), as the code has it.  [ping] first connects if the client
    is not connected, outside its [try] block: an error of that
    connection attempt is thrown to the caller.  Once connected (which
    needs no attempt when the client already is), [ping] does not
    throw: it returns true exactly when the request was written and the
    answer read is a JSON object whose status is "pong", and false when
    sending or reading throws (send failure, timeouts, malformed
    answer) or the answer is anything else. *)
Theorem ping_contract (c : LogFluxClient.t) (w : World) :
  let start := ensureConnected (c, logged [Called CallPing] w) in
  let request := MsgPing createPingRequest in
  (LogFluxClient.connected c = true -> fst start = Ok tt) /\
  (forall e,
     fst start = Throw e ->
     LogFluxClient.ping (c, w) = (Throw e, snd start)) /\
  (fst start = Ok tt ->
   exists b st,
     LogFluxClient.ping (c, w) = (Ok b, st) /\
     (b = true <-> answered request "pong" (snd start)) /\
     (forall e st', exchange request (snd start) = (Throw e, st') ->
                    b = false)).
Proof.
  cbn zeta. split; [ | split ].
  - intro H. rewrite (ensureConnected_connected c _ H). reflexivity.
  - intros e H. rewrite ping_unfold.
    destruct (ensureConnected _) as [[[] | e0] st0]; cbn in H;
      [ discriminate H | ].
    inversion H. reflexivity.
  - intro H. rewrite ping_unfold.
    destruct (ensureConnected _) as [[[] | e0] st0]; cbn in H;
      [ | discriminate H ].
    cbn [snd]. unfold answered.
    destruct (exchange (MsgPing createPingRequest) st0)
      as [[response | e1] [c2 w2]].
    + eexists. eexists. split; [ reflexivity | ]. split.
      * rewrite response_has_status_iff. split.
        -- intro S. exists response, (c2, w2). auto.
        -- intros (r & st' & E & S). inversion E. subst. exact S.
      * intros e st' E. discriminate E.
    + eexists. eexists. split; [ reflexivity | ]. split.
      * split; [ discriminate | ].
        intros (r & st' & E & _). discriminate E.
      * reflexivity.
Qed.

Lemma ping_contract_witness :
  let w := agentWorld [healthy; healthy] in
  LogFluxClient.connected connectedClient = true /\
  fst (ensureConnected (connectedClient, logged [Called CallPing] w))
  = Ok tt /\
  exists b st,
    LogFluxClient.ping (connectedClient, w) = (Ok b, st) /\
    (b = true <->
     answered (MsgPing createPingRequest) "pong"
       (snd (ensureConnected (connectedClient, logged [Called CallPing] w)))).
Proof.
  intro w.
  assert (C : LogFluxClient.connected connectedClient = true) by reflexivity.
  pose proof (ping_contract connectedClient w) as H. cbn zeta in H.
  destruct H as (H1 & _ & H3).
  split; [ exact C | split; [ exact (H1 C) | ] ].
  destruct (H3 (H1 C)) as (b & st & E & A & _).
  exists b, st. split; [ exact E | exact A ].
Defined.

(** C4 as stated fails when the client is not connected and cannot
    connect: [ping] throws instead of returning false, both when the
    socket file is missing and when the agent refuses the connection. *)
Lemma ping_throws_when_it_cannot_connect :
  LogFluxClient.connected unixClient = false /\
  fst (LogFluxClient.ping (unixClient, noAgentWorld))
  = Throw (ErrUnixSocketNotFound agentSocket) /\
  fst (LogFluxClient.ping (unixClient, agentWorld [refusing]))
  = Throw (ErrSocket (Js.of_ascii "ECONNREFUSED")) /\
  fst (LogFluxClient.ping (unixClient, noAgentWorld)) <> Ok false.
Proof.
  vm_compute. repeat split. discriminate.
Qed.

Lemma authenticate_unfold c w :
  LogFluxClient.authenticate (c, w) =
  let w0 := logged [Called CallAuthenticate] w in
  if negb (is_TCP (network (LogFluxClient.config c))) then
    (Ok true, (c, logged [Returned CallAuthenticate] w0))
  else if falsy_string (sharedSecret (LogFluxClient.config c)) then
    (Throw ErrSharedSecretRequired, (c, w0))
  else
    match ensureConnected (c, w0) with
    | (Throw e, st) => (Throw e, st)
    | (Ok _, st) =>
        match exchange (MsgAuth (authRequestOf c)) st with
        | (Ok response, (c2, w2)) =>
            (Ok (LogFluxClient.response_has_status "success" response),
             (c2, logged [Returned CallAuthenticate] w2))
        | (Throw e, (c2, w2)) =>
            (Ok false,
             (c2, logged [Console (ErrorAuthenticationFailed e);
                          Returned CallAuthenticate] w2))
        end
    end.
Proof.
  unfold LogFluxClient.authenticate, LogFluxClient.spied, LogFluxClient.world,
    LogFluxClient.this, ensureConnected, exchange, logged, authRequestOf,
    createAuthRequest, falsy_string,
    bind, ret, throw, gets, modify, when, try_catch, on_snd, emit.
  cbn. destruct (is_TCP (network (LogFluxClient.config c))); cbn;
    [ | reflexivity ].
  destruct (sharedSecret (LogFluxClient.config c)) as [secret |]; cbn;
    [ | reflexivity ].
  destruct (Js.truthy secret) eqn:T; cbn; [ | reflexivity ].
  rewrite ?T. cbn.
  destruct (LogFluxClient.connected c); cbn.
  - destruct (LogFluxClient.sendData _ _) as [[[] | e] [c1 w1]]; cbn.
    + destruct (LogFluxClient.readResponse _) as [[r | e] [c2 w2]];
        cbn; rewrite <- ?app_assoc; reflexivity.
    + rewrite <- ?app_assoc. reflexivity.
  - destruct (LogFluxClient.connect _) as [[[] | e] [c0 w0]]; cbn;
      [ | reflexivity ].
    rewrite ?T. cbn.
    destruct (LogFluxClient.sendData _ _) as [[[] | e] [c1 w1]]; cbn.
    + destruct (LogFluxClient.readResponse _) as [[r | e] [c2 w2]];
        cbn; rewrite <- ?app_assoc; reflexivity.
    + rewrite <- ?app_assoc. reflexivity.
Qed.

(** C8 (authenticate), as the code has it.
    - On a client whose network is not TCP, [authenticate] returns true
      and the log gains the record of the call and of its return only.
    - On a TCP client without shared secret (absent or empty) it throws
      the configuration error, and the log gains the record of the call
      only.
    - Otherwise it first connects if the client is not connected,
      outside its [try] block: an error of that connection attempt is
      thrown to the caller.  Once connected it does not throw: it
      returns true exactly when the request was written and the answer
      read is a JSON object whose status is "success", and false when
      sending or reading throws or the answer is anything else. *)
Theorem authenticate_contract (c : LogFluxClient.t) (w : World) :
  let cfg := LogFluxClient.config c in
  let start := ensureConnected (c, logged [Called CallAuthenticate] w) in
  let request := MsgAuth (authRequestOf c) in
  (is_TCP (network cfg) = false ->
   LogFluxClient.authenticate (c, w)
   = (Ok true,
      (c, logged [Called CallAuthenticate; Returned CallAuthenticate] w))) /\
  (is_TCP (network cfg) = true ->
   falsy_string (sharedSecret cfg) = true ->
   LogFluxClient.authenticate (c, w)
   = (Throw ErrSharedSecretRequired,
      (c, logged [Called CallAuthenticate] w))) /\
  (is_TCP (network cfg) = true ->
   falsy_string (sharedSecret cfg) = false ->
   (LogFluxClient.connected c = true -> fst start = Ok tt) /\
   (forall e,
      fst start = Throw e ->
      LogFluxClient.authenticate (c, w) = (Throw e, snd start)) /\
   (fst start = Ok tt ->
    exists b st,
      LogFluxClient.authenticate (c, w) = (Ok b, st) /\
      (b = true <-> answered request "success" (snd start)) /\
      (forall e st', exchange request (snd start) = (Throw e, st') ->
                     b = false))).
Proof.
  cbn zeta. split; [ | split ].
  - intro N. rewrite authenticate_unfold, N. cbn.
    unfold logged. cbn. rewrite <- app_assoc. reflexivity.
  - intros N F. rewrite authenticate_unfold, N, F. reflexivity.
  - intros N F. split; [ | split ].
    + intro H. rewrite (ensureConnected_connected c _ H). reflexivity.
    + intros e H. rewrite authenticate_unfold, N, F. cbn.
      destruct (ensureConnected _) as [[[] | e0] st0]; cbn in H;
        [ discriminate H | ].
      inversion H. reflexivity.
    + intro H. rewrite authenticate_unfold, N, F. cbn.
      destruct (ensureConnected _) as [[[] | e0] st0]; cbn in H;
        [ | discriminate H ].
      cbn [snd]. unfold answered.
      destruct (exchange (MsgAuth (authRequestOf c)) st0)
        as [[response | e1] [c2 w2]].
      * eexists. eexists. split; [ reflexivity | ]. split.
        -- rewrite response_has_status_iff. split.
           ++ intro S. exists response, (c2, w2). auto.
           ++ intros (r & st' & E & S). inversion E. subst. exact S.
        -- intros e st' E. discriminate E.
      * eexists. eexists. split; [ reflexivity | ]. split.
        -- split; [ discriminate | ].
           intros (r & st' & E & _). discriminate E.
        -- reflexivity.
Qed.

Lemma authenticate_contract_witness :
  let w := agentWorld [welcoming; welcoming; welcoming] in
  is_TCP (network (LogFluxClient.config tcpClient)) = true /\
  falsy_string (sharedSecret (LogFluxClient.config tcpClient)) = false /\
  fst (ensureConnected (tcpClient, logged [Called CallAuthenticate] w))
  = Ok tt /\
  (exists b st,
     LogFluxClient.authenticate (tcpClient, w) = (Ok b, st) /\
     (b = true <->
      answered (MsgAuth (authRequestOf tcpClient)) "success"
        (snd (ensureConnected
                (tcpClient, logged [Called CallAuthenticate] w))))) /\
  is_TCP (network (LogFluxClient.config unixClient)) = false /\
  fst (LogFluxClient.authenticate (unixClient, w)) = Ok true.
Proof.
  intro w.
  assert (N : is_TCP (network (LogFluxClient.config tcpClient)) = true)
    by reflexivity.
  assert (F : falsy_string (sharedSecret (LogFluxClient.config tcpClient))
              = false) by reflexivity.
  assert (S : fst (ensureConnected
                     (tcpClient, logged [Called CallAuthenticate] w))
              = Ok tt) by (vm_compute; reflexivity).
  assert (U : is_TCP (network (LogFluxClient.config unixClient)) = false)
    by reflexivity.
  pose proof (authenticate_contract tcpClient w) as H. cbn zeta in H.
  destruct H as (_ & _ & H). destruct (H N F) as (_ & _ & H3).
  pose proof (authenticate_contract unixClient w) as K. cbn zeta in K.
  destruct K as (K & _).
  split; [ exact N | split; [ exact F | split; [ exact S | split ] ] ].
  - destruct (H3 S) as (b & st & E & A & _).
    exists b, st. split; [ exact E | exact A ].
  - split; [ exact U | ]. rewrite (K U). reflexivity.
Defined.

(** C8 as stated fails when a TCP client with a secret is not connected
    and the agent refuses the connection: [authenticate] throws instead
    of returning false. *)
Lemma authenticate_throws_when_it_cannot_connect :
  is_TCP (network (LogFluxClient.config tcpClient)) = true /\
  falsy_string (sharedSecret (LogFluxClient.config tcpClient)) = false /\
  LogFluxClient.connected tcpClient = false /\
  fst (LogFluxClient.authenticate (tcpClient, agentWorld [refusing]))
  = Throw (ErrSocket (Js.of_ascii "ECONNREFUSED")) /\
  fst (LogFluxClient.authenticate (tcpClient, agentWorld [refusing]))
  <> Ok false.
Proof.
  vm_compute. repeat split. discriminate.
Qed.

(** * Further properties of the code *)

(** ** The transport client *)

Ltac client_unfold :=
  unfold LogFluxClient.sendLogEntry, LogFluxClient.sendLogBatch,
    LogFluxClient.ping, LogFluxClient.authenticate, LogFluxClient.connect,
    LogFluxClient.close, LogFluxClient.spied, LogFluxClient.connectUnix,
    LogFluxClient.connectTCP, LogFluxClient.await_connect,
    LogFluxClient.destroy_socket, LogFluxClient.sendData,
    LogFluxClient.sendSocket, LogFluxClient.readResponse,
    LogFluxClient.world, LogFluxClient.this, LogFluxClient.update,
    existsSync, await_network, emit, when, try_catch, bind, ret, throw,
    gets, modify, on_snd.

Ltac client_cases :=
  repeat (cbn [fst snd LogFluxClient.config LogFluxClient.socket
               LogFluxClient.connected LogFluxClient.set_socket
               LogFluxClient.set_connected negb] in *;
          match goal with
          | |- context [match ?x with _ => _ end] =>
              lazymatch x with
              | context [match _ with _ => _ end] => fail
              | _ => destruct x eqn:?
              end
          end).

(** [connect], by its outcome. *)
Lemma connect_outcome c w :
  let r := fst (LogFluxClient.connect (c, w)) in
  let c' := fst (snd (LogFluxClient.connect (c, w))) in
  LogFluxClient.config c' = LogFluxClient.config c /\
  (r = Ok tt ->
   LogFluxClient.connected c' = true /\
   (LogFluxClient.connected c = true -> c' = c) /\
   (LogFluxClient.connected c = false -> LogFluxClient.socket c' <> None)) /\
  (forall e,
     r = Throw e ->
     LogFluxClient.connected c = false /\
     LogFluxClient.connected c' = false /\ e <> ErrNoSocket).
Proof.
  cbn zeta. destruct c as [cfg sk cn]. client_unfold.
  client_cases; cbn; repeat split; intros; try congruence; subst;
    try discriminate.
Qed.

Lemma ensureConnected_outcome c w :
  let r := fst (ensureConnected (c, w)) in
  let c' := fst (snd (ensureConnected (c, w))) in
  LogFluxClient.config c' = LogFluxClient.config c /\
  (r = Ok tt ->
   LogFluxClient.connected c' = true /\
   (LogFluxClient.connected c = true -> c' = c) /\
   (sound c -> LogFluxClient.socket c' <> None)) /\
  (forall e,
     r = Throw e ->
     LogFluxClient.connected c = false /\
     LogFluxClient.connected c' = false /\ e <> ErrNoSocket).
Proof.
  cbn zeta. unfold ensureConnected. cbn [fst snd].
  destruct (LogFluxClient.connected c) eqn:Cn.
  - cbn [fst snd]. split; [ reflexivity | ]. split.
    + intros _. split; [ exact Cn | ]. split; [ reflexivity | ].
      intro S. exact (S Cn).
    + intros e H. discriminate H.
  - destruct (connect_outcome c w) as (Cf & HOk & HThrow). cbn zeta in *.
    split; [ exact Cf | ]. split.
    + intro H. destruct (HOk H) as (C1 & _ & C3).
      split; [ exact C1 | ]. split; [ congruence | ].
      intros _. exact (C3 Cn).
    + intros e H. destruct (HThrow e H) as (_ & K). split; [ reflexivity | exact K ].
Qed.

Lemma sendData_unfold msg c w :
  LogFluxClient.sendData msg (c, w) =
  match network (LogFluxClient.config c) with
  | OtherNetwork name => (Throw (ErrUnsupportedNetwork name), (c, w))
  | _ =>
      match LogFluxClient.socket c with
      | None => (Throw ErrNoSocket, (c, w))
      | Some _ =>
          (writeResult (nextReply w),
           (c, afterReply (logged [SocketWrite msg] w)))
      end
  end.
Proof.
  destruct c as [cfg sk cn]. client_unfold.
  unfold writeResult, nextReply, afterReply, await_network, logged. cbn.
  destruct (network cfg); try reflexivity;
    (destruct sk; [ | reflexivity ]); cbn;
    (destruct (script w) as [| r rest]; cbn;
     [ reflexivity | destruct (on_write r); reflexivity ]).
Qed.

(** How a read ends, by the behaviour of the network. *)
Lemma readResponse_unfold c w :
  LogFluxClient.readResponse (c, w) =
  match LogFluxClient.socket c with
  | None => (Throw ErrNoSocket, (c, w))
  | Some _ =>
      (match on_read (nextReply w) with
       | Data (Some response) => Ok response
       | Data None => Throw ErrInvalidJson
       | ReadSilent => Throw ErrReadTimeout
       end,
       (c, afterReply (logged [SocketOnceData] w)))
  end.
Proof.
  destruct c as [cfg sk cn]. client_unfold.
  unfold nextReply, afterReply, await_network, logged. cbn.
  destruct sk; [ | reflexivity ]. cbn.
  destruct (script w) as [| r rest]; cbn; [ reflexivity | ].
  destruct (on_read r) as [[response |] |]; reflexivity.
Qed.

Lemma sendLogEntry_unfold entry c w :
  LogFluxClient.sendLogEntry entry (c, w) =
  match ensureConnected (c, logged [Called (CallSendLogEntry entry)] w) with
  | (Throw e, st) => (Throw e, st)
  | (Ok _, st) =>
      match LogFluxClient.sendData (MsgEntry entry) st with
      | (Ok _, (c2, w2)) =>
          (Ok tt, (c2, logged [Returned (CallSendLogEntry entry)] w2))
      | (Throw e, st2) => (Throw e, st2)
      end
  end.
Proof.
  unfold LogFluxClient.sendLogEntry, LogFluxClient.spied, LogFluxClient.world,
    LogFluxClient.this, ensureConnected, logged,
    bind, ret, gets, modify, when, on_snd, emit.
  cbn. destruct (LogFluxClient.connected c); cbn.
  - destruct (LogFluxClient.sendData _ _) as [[[] | e] [c1 w1]]; reflexivity.
  - destruct (LogFluxClient.connect _) as [[[] | e] [c0 w0]]; cbn;
      [ | reflexivity ].
    destruct (LogFluxClient.sendData _ _) as [[[] | e] [c1 w1]]; reflexivity.
Qed.

Lemma sendLogBatch_unfold b c w :
  LogFluxClient.sendLogBatch b (c, w) =
  let w0 := logged [Called (CallSendLogBatch b)] w in
  match entries b with
  | [] => (Throw ErrBatchEmpty, (c, w0))
  | _ :: _ =>
      if 100 <? Z.of_nat (List.length (entries b))
      then (Throw ErrBatchTooLarge, (c, w0))
      else
        match ensureConnected (c, w0) with
        | (Throw e, st) => (Throw e, st)
        | (Ok _, st) =>
            match LogFluxClient.sendData (MsgBatch b) st with
            | (Ok _, (c2, w2)) =>
                (Ok tt, (c2, logged [Returned (CallSendLogBatch b)] w2))
            | (Throw e, st2) => (Throw e, st2)
            end
        end
  end.
Proof.
  unfold LogFluxClient.sendLogBatch, LogFluxClient.spied, LogFluxClient.world,
    LogFluxClient.this, ensureConnected, logged,
    bind, ret, throw, gets, modify, when, on_snd, emit.
  cbn. destruct (entries b) as [| e0 rest]; [ reflexivity | ].
  destruct (100 <? _); [ reflexivity | ]. cbn.
  destruct (LogFluxClient.connected c) eqn:Cn; cbn; rewrite ?Cn; cbn.
  - destruct (LogFluxClient.sendData _ _) as [[[] | e] [c1 w1]]; reflexivity.
  - destruct (LogFluxClient.connect _) as [[[] | e] [c0 w0]]; cbn;
      [ | reflexivity ].
    destruct (LogFluxClient.sendData _ _) as [[[] | e] [c1 w1]]; reflexivity.
Qed.

Lemma sendData_client msg c w :
  fst (snd (LogFluxClient.sendData msg (c, w))) = c.
Proof.
  rewrite sendData_unfold.
  destruct (network (LogFluxClient.config c)), (LogFluxClient.socket c);
    reflexivity.
Qed.

Lemma readResponse_client c w :
  fst (snd (LogFluxClient.readResponse (c, w))) = c.
Proof.
  rewrite readResponse_unfold. destruct (LogFluxClient.socket c); reflexivity.
Qed.

Lemma exchange_client request c w : fst (snd (exchange request (c, w))) = c.
Proof.
  unfold exchange, bind.
  pose proof (sendData_client request c w) as S.
  destruct (LogFluxClient.sendData request (c, w)) as [[[] | e] [c1 w1]];
    cbn [fst snd] in S; subst c1; [ | reflexivity ].
  apply readResponse_client.
Qed.

Lemma sendData_has_socket msg c w :
  LogFluxClient.socket c <> None ->
  ~ throws (fst (LogFluxClient.sendData msg (c, w))) ErrNoSocket.
Proof.
  intro S. rewrite sendData_unfold. unfold writeResult, throws.
  destruct (network (LogFluxClient.config c)),
    (LogFluxClient.socket c); try contradiction; cbn;
    try discriminate; destruct (on_write (nextReply w)); cbn;
    auto; discriminate.
Qed.

Lemma exchange_has_socket request c w :
  LogFluxClient.socket c <> None ->
  ~ throws (fst (exchange request (c, w))) ErrNoSocket.
Proof.
  intro S. unfold exchange, bind.
  pose proof (sendData_client request c w) as K.
  pose proof (@sendData_has_socket request c w S) as N.
  destruct (LogFluxClient.sendData request (c, w)) as [[[] | e] [c1 w1]];
    cbn [fst snd] in K, N |- *; subst c1; [ | exact N ].
  rewrite readResponse_unfold.
  destruct (LogFluxClient.socket c); [ | contradiction ]. cbn.
  destruct (on_read (nextReply w1)) as [[response |] |]; cbn;
    auto; discriminate.
Qed.

Lemma sound_after_ensure c w :
  sound c -> sound (fst (snd (ensureConnected (c, w)))).
Proof.
  intro S. destruct (ensureConnected_outcome c w) as (_ & HOk & HThrow).
  cbn zeta in *.
  destruct (fst (ensureConnected (c, w))) as [[] | e] eqn:R.
  - destruct (HOk eq_refl) as (_ & _ & K). intros _. exact (K S).
  - destruct (HThrow e eq_refl) as (_ & K & _). unfold sound. rewrite K.
    discriminate.
Qed.

(** X1.  The client invariant.  A client that has a socket whenever it
    is connected, as every client built by the constructor does, still
    does after each of its public methods, whatever the method returns
    or throws. *)
Theorem client_stays_sound (c : LogFluxClient.t) (w : World) :
  sound c ->
  sound (fst (snd (LogFluxClient.connect (c, w)))) /\
  sound (fst (snd (LogFluxClient.close (c, w)))) /\
  (forall entry, sound (fst (snd (LogFluxClient.sendLogEntry entry (c, w))))) /\
  (forall b, sound (fst (snd (LogFluxClient.sendLogBatch b (c, w))))) /\
  sound (fst (snd (LogFluxClient.ping (c, w)))) /\
  sound (fst (snd (LogFluxClient.authenticate (c, w)))).
Proof.
  intro S.
  assert (Hsend : forall msg w0,
    sound (fst (snd
      (match ensureConnected (c, w0) with
       | (Throw e, st) => (Throw e, st)
       | (Ok _, st) => LogFluxClient.sendData msg st
       end)))).
  { intros msg w0. pose proof (@sound_after_ensure c w0 S) as K.
    destruct (ensureConnected (c, w0)) as [[[] | e] [c1 w1]];
      cbn [fst snd] in K |- *; [ | exact K ].
    rewrite sendData_client. exact K. }
  assert (Hexch : forall (request : Message) w0,
    sound (fst (snd
      (match ensureConnected (c, w0) with
       | (Throw e, st) => (@Throw Json e, st)
       | (Ok _, st) => exchange request st
       end)))).
  { intros request w0. pose proof (@sound_after_ensure c w0 S) as K.
    destruct (ensureConnected (c, w0)) as [[[] | e] [c1 w1]];
      cbn [fst snd] in K |- *; [ | exact K ].
    rewrite exchange_client. exact K. }
  split; [ | split; [ | split; [ | split; [ | split ] ] ] ].
  - destruct (connect_outcome c w) as (_ & HOk & HThrow). cbn zeta in *.
    destruct (fst (LogFluxClient.connect (c, w))) as [[] | e] eqn:R.
    + destruct (HOk eq_refl) as (_ & Same & New).
      destruct (LogFluxClient.connected c) eqn:Cn.
      * rewrite (Same eq_refl). exact S.
      * intros _. exact (New eq_refl).
    + destruct (HThrow e eq_refl) as (_ & K & _). unfold sound. rewrite K.
      discriminate.
  - rewrite close_unfold. cbn. unfold sound. cbn. discriminate.
  - intro entry. rewrite sendLogEntry_unfold.
    specialize (Hsend (MsgEntry entry)
                  (logged [Called (CallSendLogEntry entry)] w)).
    destruct (ensureConnected _) as [[[] | e] [c1 w1]]; [ | exact Hsend ].
    destruct (LogFluxClient.sendData _ _) as [[[] | e] [c2 w2]]; exact Hsend.
  - intro b. rewrite sendLogBatch_unfold. cbn zeta.
    destruct (entries b); [ exact S | ].
    destruct (100 <? _); [ exact S | ].
    specialize (Hsend (MsgBatch b) (logged [Called (CallSendLogBatch b)] w)).
    destruct (ensureConnected _) as [[[] | e] [c1 w1]]; [ | exact Hsend ].
    destruct (LogFluxClient.sendData _ _) as [[[] | e] [c2 w2]]; exact Hsend.
  - rewrite ping_unfold.
    specialize (Hexch (MsgPing createPingRequest) (logged [Called CallPing] w)).
    destruct (ensureConnected _) as [[[] | e] [c1 w1]]; [ | exact Hexch ].
    destruct (exchange _ _) as [[r | e] [c2 w2]]; exact Hexch.
  - rewrite authenticate_unfold. cbn zeta.
    destruct (negb _); [ exact S | ].
    destruct (falsy_string _); [ exact S | ].
    specialize (Hexch (MsgAuth (authRequestOf c))
                  (logged [Called CallAuthenticate] w)).
    destruct (ensureConnected _) as [[[] | e] [c1 w1]]; [ | exact Hexch ].
    destruct (exchange _ _) as [[r | e] [c2 w2]]; exact Hexch.
Qed.

Lemma client_stays_sound_witness :
  sound unixClient /\
  sound (fst (snd (LogFluxClient.sendLogEntry entryA
                     (unixClient, agentWorld [refusing])))) /\
  LogFluxClient.socket
    (fst (snd (LogFluxClient.sendLogEntry entryA
                 (unixClient, agentWorld [refusing]))))
  = Some (UnixSocket agentSocket).
Proof.
  assert (S : sound unixClient) by (intro H; discriminate H).
  split; [ exact S | ]. split.
  - exact (proj1 (proj2 (proj2
      (@client_stays_sound unixClient (agentWorld [refusing]) S))) entryA).
  - vm_compute. reflexivity.
Defined.



Lemma connections_app l1 l2 :
  connections (l1 ++ l2) = connections l1 ++ connections l2.
Proof. apply flat_map_app. Qed.

Lemma written_app l1 l2 : written (l1 ++ l2) = written l1 ++ written l2.
Proof. apply flat_map_app. Qed.

Lemma afterReply_world w :
  log (afterReply w) = log w /\ files (afterReply w) = files w /\
  script (afterReply w) = List.tl (script w) /\
  clock (afterReply w) = clock w + Z.of_N (elapsed (nextReply w)).
Proof.
  unfold afterReply, nextReply, await_network.
  destruct (script w) eqn:E; cbn; rewrite ?E; repeat split;
    try reflexivity; lia.
Qed.

Lemma afterReply_logged evs w :
  afterReply (logged evs w) = logged evs (afterReply w).
Proof.
  unfold afterReply, await_network, logged. cbn.
  destruct (script w) eqn:E; cbn; rewrite ?E; reflexivity.
Qed.

Lemma nextReply_logged evs w : nextReply (logged evs w) = nextReply w.
Proof. reflexivity. Qed.

Lemma logged_logged evs1 evs2 w :
  logged evs2 (logged evs1 w) = logged (evs1 ++ evs2) w.
Proof. unfold logged. cbn. rewrite app_assoc. reflexivity. Qed.

(** Bring a world to the form [logged evs (afterReply ... w)] and read
    its fields. *)
Ltac read_world :=
  rewrite ?nextReply_logged, ?afterReply_logged, ?logged_logged;
  unfold logged; cbn [log script clock files];
  rewrite ?(fun w => proj1 (afterReply_world w)),
    ?(fun w => proj1 (proj2 (afterReply_world w))),
    ?(fun w => proj1 (proj2 (proj2 (afterReply_world w)))),
    ?(fun w => proj2 (proj2 (proj2 (afterReply_world w)))).

Ltac read_log :=
  unfold logged; cbn [log fst snd];
  rewrite ?(fun w => proj1 (afterReply_world w)); cbn [log];
  rewrite ?connections_app, ?written_app; cbn;
  rewrite ?app_nil_r.

Lemma sendData_quiet msg c w :
  fst (snd (LogFluxClient.sendData msg (c, w))) = c /\
  connections (log (snd (snd (LogFluxClient.sendData msg (c, w)))))
  = connections (log w).
Proof.
  split; [ apply sendData_client | ]. rewrite sendData_unfold.
  destruct (network (LogFluxClient.config c)), (LogFluxClient.socket c);
    read_log; reflexivity.
Qed.

Lemma exchange_quiet request c w :
  fst (snd (exchange request (c, w))) = c /\
  connections (log (snd (snd (exchange request (c, w)))))
  = connections (log w).
Proof.
  split; [ apply exchange_client | ]. unfold exchange, bind.
  destruct (sendData_quiet request c w) as (K & L).
  destruct (LogFluxClient.sendData request (c, w)) as [[[] | e] [c1 w1]];
    cbn [fst snd] in K, L |- *; [ | exact L ].
  rewrite readResponse_unfold.
  destruct (LogFluxClient.socket c1); read_log; exact L.
Qed.

(** X3.  A connected client is never dialled again.  Whatever a send, a
    ping or an authentication does on a client that is connected (a
    failed write, a timeout, a malformed answer), the client is left
    exactly as it was, still connected and on the same socket, and no
    connection is created: only [close] makes the client connect anew. *)
Theorem connected_client_never_redials (c : LogFluxClient.t) (w : World) :
  LogFluxClient.isConnected c = true ->
  let same (st : LogFluxClient.St) :=
    fst st = c /\ connections (log (snd st)) = connections (log w) in
  (forall entry, same (snd (LogFluxClient.sendLogEntry entry (c, w)))) /\
  (forall b, same (snd (LogFluxClient.sendLogBatch b (c, w)))) /\
  same (snd (LogFluxClient.ping (c, w))) /\
  same (snd (LogFluxClient.authenticate (c, w))).
Proof.
  intros Cn same. unfold LogFluxClient.isConnected in Cn.
  assert (Base : forall evs, connections evs = [] ->
                             connections (log (logged evs w))
                             = connections (log w)).
  { intros evs E. read_log. rewrite E, app_nil_r. reflexivity. }
  assert (Ext : forall evs c1 w1,
            connections evs = [] ->
            c1 = c /\ connections (log w1) = connections (log w) ->
            same (c1, logged evs w1)).
  { intros evs c1 w1 E (K & L). split; [ exact K | ].
    read_log. rewrite E, L, app_nil_r. reflexivity. }
  split; [ | split; [ | split ] ].
  - intro entry. rewrite sendLogEntry_unfold.
    rewrite (@ensureConnected_connected c _ Cn).
    destruct (sendData_quiet (MsgEntry entry) c
                (logged [Called (CallSendLogEntry entry)] w)) as (K & L).
    rewrite Base in L by reflexivity.
    destruct (LogFluxClient.sendData _ _) as [[[] | e] [c2 w2]];
      cbn [fst snd] in K, L |- *.
    + apply Ext; [ reflexivity | auto ].
    + split; assumption.
  - intro b. rewrite sendLogBatch_unfold. cbn zeta.
    destruct (entries b);
      [ cbn [snd]; split; [ reflexivity | apply Base; reflexivity ] | ].
    destruct (100 <? _);
      [ cbn [snd]; split; [ reflexivity | apply Base; reflexivity ] | ].
    rewrite (@ensureConnected_connected c _ Cn).
    destruct (sendData_quiet (MsgBatch b) c
                (logged [Called (CallSendLogBatch b)] w)) as (K & L).
    rewrite Base in L by reflexivity.
    destruct (LogFluxClient.sendData _ _) as [[[] | e] [c2 w2]];
      cbn [fst snd] in K, L |- *.
    + apply Ext; [ reflexivity | auto ].
    + split; assumption.
  - rewrite ping_unfold.
    rewrite (@ensureConnected_connected c _ Cn).
    destruct (exchange_quiet (MsgPing createPingRequest) c
                (logged [Called CallPing] w)) as (K & L).
    rewrite Base in L by reflexivity.
    destruct (exchange _ _) as [[r | e] [c2 w2]];
      cbn [fst snd] in K, L |- *; (apply Ext; [ reflexivity | auto ]).
  - rewrite authenticate_unfold. cbn zeta.
    destruct (negb _);
      [ cbn [snd]; apply Ext; [ reflexivity | ];
        split; [ reflexivity | apply Base; reflexivity ] | ].
    destruct (falsy_string _);
      [ cbn [snd]; split; [ reflexivity | apply Base; reflexivity ] | ].
    rewrite (@ensureConnected_connected c _ Cn).
    destruct (exchange_quiet (MsgAuth (authRequestOf c)) c
                (logged [Called CallAuthenticate] w)) as (K & L).
    rewrite Base in L by reflexivity.
    destruct (exchange _ _) as [[r | e] [c2 w2]];
      cbn [fst snd] in K, L |- *; (apply Ext; [ reflexivity | auto ]).
Qed.

Lemma connected_client_never_redials_witness :
  LogFluxClient.isConnected connectedClient = true /\
  throws (fst (LogFluxClient.sendLogEntry entryA
                 (connectedClient, agentWorld [refusing])))
    (ErrSocket (Js.of_ascii "EPIPE")) /\
  fst (snd (LogFluxClient.sendLogEntry entryA
              (connectedClient, agentWorld [refusing])))
  = connectedClient /\
  connections
    (log (snd (snd (LogFluxClient.sendLogEntry entryA
                      (connectedClient, agentWorld [refusing])))))
  = connections (log (agentWorld [refusing])).
Proof.
  assert (Cn : LogFluxClient.isConnected connectedClient = true)
    by reflexivity.
  split; [ exact Cn | ]. split; [ vm_compute; reflexivity | ].
  exact (proj1 (@connected_client_never_redials connectedClient
                  (agentWorld [refusing]) Cn) entryA).
Defined.

(** X4.  One entry, one write.  On a connected client with a socket,
    [sendLogEntry] validates nothing and writes the entry exactly once;
    it returns when the write callback reports success and throws the
    socket's error, or 'Send timeout' when the callback never comes.
    One network operation is consumed. *)
Theorem sendLogEntry_writes_once (c : LogFluxClient.t) (w : World)
  (entry : LogEntry) :
  LogFluxClient.isConnected c = true ->
  LogFluxClient.socket c <> None ->
  (forall name, network (LogFluxClient.config c) <> OtherNetwork name) ->
  let r := LogFluxClient.sendLogEntry entry (c, w) in
  fst r = writeResult (nextReply w) /\
  fst (snd r) = c /\
  written (log (snd (snd r))) = written (log w) ++ [MsgEntry entry] /\
  script (snd (snd r)) = List.tl (script w) /\
  clock (snd (snd r)) = clock w + Z.of_N (elapsed (nextReply w)).
Proof.
  intros Cn Sk Net. cbn zeta. unfold LogFluxClient.isConnected in Cn.
  rewrite sendLogEntry_unfold, (@ensureConnected_connected c _ Cn).
  rewrite sendData_unfold.
  destruct (LogFluxClient.socket c) as [sk |]; [ | contradiction ].
  rewrite nextReply_logged.
  destruct (network (LogFluxClient.config c)) as [| | name];
    try (exfalso; exact (Net name eq_refl));
    (destruct (writeResult (nextReply w)) as [[] | e]; cbn [fst snd];
     (split; [ reflexivity | ]); (split; [ reflexivity | ]);
     read_world; rewrite ?written_app; cbn; rewrite ?app_nil_r;
     repeat split; reflexivity).
Qed.

Lemma sendLogEntry_writes_once_witness :
  let r := LogFluxClient.sendLogEntry entryA
             (connectedClient, agentWorld [healthy]) in
  (LogFluxClient.isConnected connectedClient = true /\
   LogFluxClient.socket connectedClient <> None /\
   (forall name,
      network (LogFluxClient.config connectedClient) <> OtherNetwork name)) /\
  fst r = Ok tt /\
  written (log (snd (snd r))) = [MsgEntry entryA].
Proof.
  intro r.
  assert (Cn : LogFluxClient.isConnected connectedClient = true)
    by reflexivity.
  assert (Sk : LogFluxClient.socket connectedClient <> None)
    by discriminate.
  assert (Net : forall name,
            network (LogFluxClient.config connectedClient)
            <> OtherNetwork name) by (intros name H; discriminate H).
  pose proof (@sendLogEntry_writes_once connectedClient
                (agentWorld [healthy]) entryA Cn Sk Net) as H.
  cbn zeta in H. destruct H as (R & _ & W & _).
  split; [ repeat split; assumption | ].
  split; [ exact R | exact W ].
Defined.

Lemma connect_unix_unfold c w :
  network (LogFluxClient.config c) = Unix ->
  LogFluxClient.connected c = false ->
  LogFluxClient.connect (c, w) =
  let path := address (LogFluxClient.config c) in
  let sk := UnixSocket path in
  let w1 := logged [Called CallConnect; FsExistsSync path] w in
  let w2 := afterReply (logged [CreateConnection sk] w1) in
  if existsb (Js.eqb path) (files w) then
    match on_connect (nextReply w) with
    | Connects =>
        (Ok tt,
         (LogFluxClient.set_connected true
            (LogFluxClient.set_socket (Some sk) c),
          logged [Returned CallConnect] w2))
    | ConnectFails code =>
        (Throw (ErrSocket code), (LogFluxClient.set_socket (Some sk) c, w2))
    | ConnectSilent =>
        (Throw ErrConnectionTimeout,
         (LogFluxClient.set_socket (Some sk) c, logged [SocketDestroy] w2))
    end
  else (Throw (ErrUnixSocketNotFound path), (c, w1)).
Proof.
  destruct c as [cfg sk cn]. cbn. intros N ->. client_unfold.
  unfold nextReply, afterReply, await_network, logged. cbn. rewrite N. cbn.
  rewrite <- ?app_assoc. cbn.
  destruct (existsb _ _); cbn; [ | reflexivity ].
  destruct (script w) as [| r rest]; cbn;
    [ rewrite <- ?app_assoc; reflexivity | ].
  destruct (on_connect r); cbn; rewrite <- ?app_assoc; reflexivity.
Qed.

Lemma destroyed_app l1 l2 : destroyed (l1 ++ l2) = (destroyed l1 + destroyed l2)%nat.
Proof. unfold destroyed. rewrite filter_app, length_app. reflexivity. Qed.

Lemma connect_idle c w :
  LogFluxClient.connected c = true ->
  LogFluxClient.connect (c, w)
  = (Ok tt, (c, logged [Called CallConnect; Returned CallConnect] w)).
Proof.
  destruct c as [cfg sk cn]. cbn. intros ->. client_unfold.
  unfold logged. cbn. rewrite <- app_assoc. reflexivity.
Qed.

(** X5.  The contract of [connect].  On a connected client it does
    nothing.  Otherwise, when it returns the client is connected, and
    when it throws the client is not; the configuration is never
    changed. *)
Theorem connect_contract (c : LogFluxClient.t) (w : World) :
  let r := fst (LogFluxClient.connect (c, w)) in
  let c' := fst (snd (LogFluxClient.connect (c, w))) in
  (LogFluxClient.isConnected c = true ->
   LogFluxClient.connect (c, w)
   = (Ok tt, (c, logged [Called CallConnect; Returned CallConnect] w))) /\
  LogFluxClient.getConfig c' = LogFluxClient.getConfig c /\
  (r = Ok tt -> LogFluxClient.isConnected c' = true) /\
  (forall e,
     r = Throw e ->
     LogFluxClient.isConnected c = false /\
     LogFluxClient.isConnected c' = false).
Proof.
  cbn zeta. unfold LogFluxClient.isConnected, LogFluxClient.getConfig.
  destruct (connect_outcome c w) as (Cf & HOk & HThrow). cbn zeta in *.
  split; [ | split; [ exact Cf | split ] ].
  - apply connect_idle.
  - intro H. exact (proj1 (HOk H)).
  - intros e H. destruct (HThrow e H) as (A & B & _). auto.
Qed.

(** X6.  A connection attempt over a Unix socket.  When the socket file
    does not exist, [connect] throws 'Unix socket not found' without
    creating a socket or using the network, and the client is as before.
    When it exists, exactly one socket is created for the configured
    path and stored in the client, and the first of the 'connect' event,
    the 'error' event and the timer decides: the client is connected; or
    the socket's error is thrown; or 'Connection timeout' is thrown and
    the socket destroyed.  After a failed attempt the client is not
    connected and still holds the dead socket. *)
Theorem connect_unix_attempt (c : LogFluxClient.t) (w : World) :
  network (LogFluxClient.config c) = Unix ->
  LogFluxClient.isConnected c = false ->
  let path := address (LogFluxClient.config c) in
  let r := fst (LogFluxClient.connect (c, w)) in
  let c' := fst (snd (LogFluxClient.connect (c, w))) in
  let w' := snd (snd (LogFluxClient.connect (c, w))) in
  (existsb (Js.eqb path) (files w) = false ->
   r = Throw (ErrUnixSocketNotFound path) /\
   c' = c /\
   connections (log w') = connections (log w) /\
   script w' = script w) /\
  (existsb (Js.eqb path) (files w) = true ->
   connections (log w') = connections (log w) ++ [UnixSocket path] /\
   LogFluxClient.socket c' = Some (UnixSocket path) /\
   script w' = List.tl (script w) /\
   match on_connect (nextReply w) with
   | Connects =>
       r = Ok tt /\ LogFluxClient.isConnected c' = true /\
       destroyed (log w') = destroyed (log w)
   | ConnectFails code =>
       r = Throw (ErrSocket code) /\ LogFluxClient.isConnected c' = false /\
       destroyed (log w') = destroyed (log w)
   | ConnectSilent =>
       r = Throw ErrConnectionTimeout /\
       LogFluxClient.isConnected c' = false /\
       destroyed (log w') = S (destroyed (log w))
   end).
Proof.
  intros N Cn. cbn zeta. unfold LogFluxClient.isConnected in *.
  rewrite (@connect_unix_unfold c w N Cn). cbn zeta.
  split; intros ->.
  - cbn [fst snd]. read_world. rewrite connections_app. cbn.
    rewrite app_nil_r. repeat split.
  - destruct (on_connect (nextReply w)); cbn [fst snd];
      read_world; rewrite ?connections_app, ?destroyed_app; cbn;
      rewrite ?app_nil_r, ?Nat.add_0_r, ?Nat.add_1_r;
      repeat split; assumption.
Qed.

Lemma connect_unix_attempt_witness :
  let r := LogFluxClient.connect (unixClient, agentWorld [silence]) in
  (network (LogFluxClient.config unixClient) = Unix /\
   LogFluxClient.isConnected unixClient = false /\
   existsb (Js.eqb (address (LogFluxClient.config unixClient)))
     (files (agentWorld [silence])) = true) /\
  fst r = Throw ErrConnectionTimeout /\
  LogFluxClient.socket (fst (snd r)) = Some (UnixSocket agentSocket) /\
  destroyed (log (snd (snd r))) = 1%nat.
Proof.
  intro r.
  assert (N : network (LogFluxClient.config unixClient) = Unix)
    by reflexivity.
  assert (Cn : LogFluxClient.isConnected unixClient = false) by reflexivity.
  assert (F : existsb (Js.eqb (address (LogFluxClient.config unixClient)))
                (files (agentWorld [silence])) = true) by reflexivity.
  pose proof (proj2 (@connect_unix_attempt unixClient (agentWorld [silence])
                       N Cn) F) as H.
  cbn zeta in H. destruct H as (_ & Sk & _ & R & _ & D).
  split; [ repeat split; assumption | ].
  split; [ exact R | ]. split; [ exact Sk | exact D ].
Defined.

(** ** Configurations and factories *)

Lemma digit_of_digit d :
  0 <= d < 10 -> Js.digit_of (Z.to_N (48 + d)) = Some d.
Proof.
  intro H. unfold Js.digit_of.
  assert (E : ((48 <=? Z.to_N (48 + d)) && (Z.to_N (48 + d) <=? 57))%N = true).
  { apply andb_true_intro. split; apply N.leb_le; lia. }
  rewrite E. f_equal. lia.
Qed.

Lemma digits_prefix_snoc l :
  forall v d,
    Forall (fun c => Js.digit_of c <> None) l ->
    0 <= d < 10 ->
    Js.digits_prefix v (l ++ [Z.to_N (48 + d)])
    = 10 * Js.digits_prefix v l + d.
Proof.
  induction l as [| c l IH]; intros v d F D; cbn [app Js.digits_prefix].
  - rewrite (digit_of_digit D). reflexivity.
  - inversion F as [| ? ? Hc Hl]; subst.
    destruct (Js.digit_of c) as [dc |]; [ | contradiction ].
    apply IH; assumption.
Qed.

Lemma decimal_value fuel :
  forall n,
    0 <= n -> Z.log2 n < Z.of_nat fuel ->
    Js.digits_prefix 0 (JsNumber.decimal fuel n) = n /\
    Forall (fun c => Js.digit_of c <> None) (JsNumber.decimal fuel n) /\
    JsNumber.decimal fuel n <> [].
Proof.
  induction fuel as [| fuel IH]; intros n Hn Hf.
  - pose proof (Z.log2_nonneg n). lia.
  - cbn [JsNumber.decimal].
    assert (D : 0 <= n mod 10 < 10) by (apply Z.mod_pos_bound; lia).
    destruct (n <? 10) eqn:Small.
    + apply Z.ltb_lt in Small. cbn [app].
      rewrite Z.mod_small by lia. split; [ | split ].
      * cbn [Js.digits_prefix]. rewrite digit_of_digit by lia. lia.
      * constructor; [ | constructor ].
        rewrite digit_of_digit by lia. discriminate.
      * discriminate.
    + apply Z.ltb_ge in Small.
      assert (Q1 : 1 <= n / 10) by (apply Z.div_le_lower_bound; lia).
      assert (Q2 : 2 * (n / 10) <= n).
      { pose proof (Z.mul_div_le n 10). lia. }
      assert (L : Z.log2 (n / 10) < Z.of_nat fuel).
      { pose proof (Z.log2_le_mono _ _ Q2) as K.
        rewrite Z.log2_double in K by lia. lia. }
      destruct (IH (n / 10) ltac:(lia) L) as (V & F & NE).
      split; [ | split ].
      * rewrite digits_prefix_snoc by assumption. rewrite V.
        pose proof (Z.div_mod n 10). lia.
      * apply Forall_app. split; [ exact F | ].
        constructor; [ | constructor ].
        rewrite digit_of_digit by lia. discriminate.
      * intro K. apply app_eq_nil in K. destruct K as (_ & K).
        discriminate K.
Qed.

Lemma parseInt10_digits c s :
  Js.digit_of c <> None ->
  Js.parseInt10 (Some (c :: s)) = Some (Js.digits_prefix 0 (c :: s)).
Proof.
  intro Hc.
  assert (Range : (48 <= c <= 57)%N).
  { unfold Js.digit_of in Hc.
    destruct ((48 <=? c)%N && (c <=? 57)%N) eqn:E; [ | contradiction ].
    apply andb_prop in E. destruct E as (Lo & Hi).
    apply N.leb_le in Lo. apply N.leb_le in Hi. lia. }
  assert (Cases : (c = 48 \/ c = 49 \/ c = 50 \/ c = 51 \/ c = 52 \/ c = 53
                   \/ c = 54 \/ c = 55 \/ c = 56 \/ c = 57)%N) by lia.
  repeat (destruct Cases as [-> | Cases]; [ reflexivity | ]).
  subst c. reflexivity.
Qed.

(** Parsing the rendering of a natural number gives the number back. *)
Lemma parseInt10_toString n :
  0 <= n -> Js.parseInt10 (Some (JsNumber.toString n)) = Some n.
Proof.
  intro Hn. unfold JsNumber.toString. cbn beta zeta.
  assert (E : (n <? 0) = false) by (apply Z.ltb_ge; lia). rewrite E.
  destruct (@decimal_value (S (Z.to_nat (Z.log2 n))) n Hn)
    as (V & F & NE).
  { pose proof (Z.log2_nonneg n). lia. }
  revert V F NE.
  generalize (JsNumber.decimal (S (Z.to_nat (Z.log2 n))) n).
  intros l V F NE. destruct l as [| c l]; [ contradiction | ].
  inversion F as [| ? ? Hc Hl].
  rewrite <- V. apply parseInt10_digits. exact Hc.
Qed.

Lemma split_on_head sep a b :
  ~ In sep a -> Js.split_on sep (a ++ sep :: b) = a :: Js.split_on sep b.
Proof.
  induction a as [| c a IH]; intro H; cbn [app Js.split_on].
  - rewrite N.eqb_refl. reflexivity.
  - assert (Hc : (c =? sep)%N = false).
    { apply N.eqb_neq. intro E. apply H. left. auto. }
    rewrite Hc, IH; [ reflexivity | ].
    intro K. apply H. right. exact K.
Qed.

Lemma split_on_whole sep s : ~ In sep s -> Js.split_on sep s = [s].
Proof.
  induction s as [| c s IH]; intro H; cbn [Js.split_on]; [ reflexivity | ].
  assert (Hc : (c =? sep)%N = false).
  { apply N.eqb_neq. intro E. apply H. left. auto. }
  rewrite Hc, IH; [ reflexivity | ].
  intro K. apply H. right. exact K.
Qed.

(** The first piece of a split holds no separator. *)
Lemma split_on_first sep s : ~ In sep (List.hd [] (Js.split_on sep s)).
Proof.
  induction s as [| c s IH]; cbn [Js.split_on]; [ cbn; auto | ].
  destruct (c =? sep)%N eqn:Hc; [ cbn; auto | ].
  apply N.eqb_neq in Hc.
  destruct (Js.split_on sep s) as [| piece pieces]; cbn in *.
  - intros [K | []]. auto.
  - intros [K | K]; auto.
Qed.

Lemma digits_hold_no_colon l :
  Forall (fun c => Js.digit_of c <> None) l -> ~ In 58%N l.
Proof.
  intros F K. rewrite Forall_forall in F. apply (F _ K). reflexivity.
Qed.

Lemma toString_digits n :
  0 <= n -> Forall (fun c => Js.digit_of c <> None) (JsNumber.toString n).
Proof.
  intro Hn. unfold JsNumber.toString. cbn beta zeta.
  assert (E : (n <? 0) = false) by (apply Z.ltb_ge; lia). rewrite E.
  apply decimal_value; [ exact Hn | ].
  pose proof (Z.log2_nonneg n). lia.
Qed.

(** The address [createTCPConfig] builds is parsed back by [connectTCP]
    into the same host and port. *)
Lemma tcpTarget_hostPort host port :
  host <> [] -> ~ In 58%N host -> 1 <= port <= 65535 ->
  tcpTarget (hostPort host port) = Ok (TcpSocket port host).
Proof.
  intros NE NC R. unfold tcpTarget, hostPort.
  rewrite (@split_on_head 58%N host (JsNumber.toString port) NC).
  rewrite split_on_whole
    by (apply digits_hold_no_colon, toString_digits; lia).
  cbn [hd nth_error]. rewrite parseInt10_toString by lia.
  destruct host as [| h host]; [ contradiction | ].
  cbn [Js.truthy negb orb LogFluxClient.falsy_port nullish].
  replace (port =? 0) with false by (symmetry; apply Z.eqb_neq; lia).
  replace (port <? 0) with false by (symmetry; apply Z.ltb_ge; lia).
  replace (65535 <? port) with false by (symmetry; apply Z.ltb_ge; lia).
  reflexivity.
Qed.

Lemma connect_tcp_unfold c w :
  network (LogFluxClient.config c) = TCP ->
  LogFluxClient.connected c = false ->
  LogFluxClient.connect (c, w) =
  match tcpTarget (address (LogFluxClient.config c)) with
  | Throw e => (Throw e, (c, logged [Called CallConnect] w))
  | Ok sk => attempt sk c (logged [Called CallConnect] w)
  end.
Proof.
  destruct c as [cfg sk cn]. cbn. intros N ->. client_unfold.
  unfold tcpTarget, attempt, nextReply, afterReply, await_network, logged.
  cbn. rewrite N. cbn.
  destruct (negb _ || LogFluxClient.falsy_port _); cbn; [ reflexivity | ].
  destruct ((_ <? 0) || (65535 <? _)); cbn; [ reflexivity | ].
  rewrite <- ?app_assoc. cbn.
  destruct (script w) as [| r rest]; cbn;
    [ rewrite <- ?app_assoc; reflexivity | ].
  destruct (on_connect r); cbn; rewrite <- ?app_assoc; reflexivity.
Qed.

Lemma hostPort_truthy host port : Js.truthy (hostPort host port) = true.
Proof. unfold hostPort. destruct host; reflexivity. Qed.

Lemma createTCPClient_unfold host port secret w :
  createTCPClient host port secret w
  = (Ok {| LogFluxClient.config := createTCPConfig host port secret;
           LogFluxClient.socket := None;
           LogFluxClient.connected := false |},
     if falsy_string secret then logged [Console WarnTcpWithoutSecret] w
     else w).
Proof.
  unfold createTCPClient, LogFluxClient.new, validateConfig, nullish.
  cbn [address timeout batchSize conn_flushInterval maxRetries retryDelay
       network sharedSecret createDefaultConfig].
  rewrite hostPort_truthy. cbn [negb check first_error].
  change (first_error _) with (@None Error). cbv iota.
  unfold when, bind, ret, emit, modify, logged, createTCPConfig.
  cbn [is_TCP andb].
  destruct (falsy_string secret); reflexivity.
Qed.

(** X7.  [createTCPClient] never throws: the address it builds holds a
    colon and is never empty, and the other fields are the valid
    defaults.  The client it returns is the one the constructor builds
    from [createTCPConfig]: not connected and without socket.  A warning
    is printed exactly when the secret is missing or empty.  An empty
    host is not rejected here. *)
Theorem createTCPClient_never_throws (host : JsString) (port : Z)
  (secret : option JsString) (w : World) :
  exists c w',
    createTCPClient host port secret w = (Ok c, w') /\
    LogFluxClient.new (Some (createTCPConfig host port secret)) w
    = (Ok c, w') /\
    LogFluxClient.getConfig c = createTCPConfig host port secret /\
    LogFluxClient.isConnected c = false /\
    LogFluxClient.socket c = None /\
    log w'
    = log w ++ (if falsy_string secret then [Console WarnTcpWithoutSecret]
                else []).
Proof.
  eexists. eexists. split; [ apply createTCPClient_unfold | ].
  split; [ apply createTCPClient_unfold | ].
  repeat split.
  destruct (falsy_string secret); [ reflexivity | ].
  rewrite app_nil_r. reflexivity.
Qed.

Lemma attempt_world sk c w :
  connections (log (snd (snd (attempt sk c w)))) = connections (log w) ++ [sk] /\
  LogFluxClient.socket (fst (snd (attempt sk c w))) = Some sk /\
  script (snd (snd (attempt sk c w))) = List.tl (script w) /\
  (on_connect (nextReply w) = Connects ->
   fst (attempt sk c w) = Ok tt /\
   LogFluxClient.connected (fst (snd (attempt sk c w))) = true) /\
  (on_connect (nextReply w) <> Connects ->
   threw (fst (attempt sk c w)) = true /\
   LogFluxClient.connected (fst (snd (attempt sk c w)))
   = LogFluxClient.connected c).
Proof.
  unfold attempt. cbn zeta.
  destruct (on_connect (nextReply w)); cbn [fst snd];
    read_world; rewrite ?connections_app; cbn; rewrite ?app_nil_r;
    repeat split; try reflexivity; congruence.
Qed.

(** X8.  Host and port survive the trip through the address.  A client
    made by [createTCPClient] for a host that is not empty and holds no
    colon, and a port between 1 and 65535, dials exactly that host and
    port when it connects: one socket is created for them, and the
    client is connected when the peer accepts. *)
Theorem createTCPClient_round_trip (host : JsString) (port : Z)
  (secret : option JsString) (w0 w : World) :
  host <> [] -> ~ In 58%N host -> 1 <= port <= 65535 ->
  exists c w1,
    createTCPClient host port secret w0 = (Ok c, w1) /\
    let r := LogFluxClient.connect (c, w) in
    connections (log (snd (snd r)))
    = connections (log w) ++ [TcpSocket port host] /\
    LogFluxClient.socket (fst (snd r)) = Some (TcpSocket port host) /\
    (on_connect (nextReply w) = Connects ->
     fst r = Ok tt /\ LogFluxClient.isConnected (fst (snd r)) = true).
Proof.
  intros NE NC R.
  eexists. eexists. split; [ apply createTCPClient_unfold | ]. cbn zeta.
  rewrite connect_tcp_unfold by reflexivity.
  cbn [LogFluxClient.config createTCPConfig address].
  rewrite (tcpTarget_hostPort NE NC R).
  destruct (attempt_world (TcpSocket port host)
              {| LogFluxClient.config := createTCPConfig host port secret;
                 LogFluxClient.socket := None;
                 LogFluxClient.connected := false |}
              (logged [Called CallConnect] w)) as (Cs & Sk & _ & HOk & _).
  split; [ | split; [ exact Sk | exact HOk ] ].
  rewrite Cs. read_world. rewrite connections_app. cbn.
  rewrite app_nil_r. reflexivity.
Qed.

Lemma createTCPClient_round_trip_witness :
  let host := Js.of_ascii "localhost" in
  (host <> [] /\ ~ In 58%N host /\ 1 <= 8080 <= 65535) /\
  exists c w1,
    createTCPClient host 8080 None noAgentWorld = (Ok c, w1) /\
    address (LogFluxClient.config c) = Js.of_ascii "localhost:8080" /\
    connections
      (log (snd (snd (LogFluxClient.connect (c, agentWorld [healthy])))))
    = [TcpSocket 8080 host].
Proof.
  intro host.
  assert (NE : host <> []) by discriminate.
  assert (NC : ~ In 58%N host).
  { intro K. cbn in K.
    repeat (destruct K as [K | K]; [ discriminate K | ]). exact K. }
  assert (R : 1 <= 8080 <= 65535) by lia.
  split; [ repeat split; try assumption; lia | ].
  destruct (@createTCPClient_round_trip host 8080 None noAgentWorld
              (agentWorld [healthy]) NE NC R) as (c & w1 & E & Cs & _).
  exists c, w1. split; [ exact E | ]. cbn zeta in Cs.
  split; [ | exact Cs ].
  vm_compute in E. inversion E. reflexivity.
Defined.

Lemma tcpTarget_host addr sk :
  tcpTarget addr = Ok sk ->
  exists p,
    sk = TcpSocket p (List.hd [] (Js.split_on 58 addr)) /\ 1 <= p <= 65535.
Proof.
  unfold tcpTarget. cbn zeta.
  destruct (Js.parseInt10 _) as [p |]; cbn [LogFluxClient.falsy_port nullish].
  - destruct (negb _ || (p =? 0)) eqn:B1; [ discriminate | ].
    destruct ((p <? 0) || (65535 <? p)) eqn:B2; [ discriminate | ].
    intro H. inversion H. exists p. split; [ reflexivity | ].
    apply orb_false_elim in B1. destruct B1 as (_ & NZ).
    apply orb_false_elim in B2. destruct B2 as (Lo & Hi).
    apply Z.eqb_neq in NZ. apply Z.ltb_ge in Lo. apply Z.ltb_ge in Hi. lia.
  - rewrite orb_true_r. discriminate.
Qed.

(** X9.  A host that holds a colon, such as an IPv6 address, is never
    dialled.  [connectTCP] cuts the address at its first colon: what it
    dials, if anything, is a host without colon. *)
Theorem host_with_colon_is_never_dialled (c : LogFluxClient.t) (w : World)
  (host : JsString) (port : Z) :
  network (LogFluxClient.config c) = TCP ->
  address (LogFluxClient.config c) = hostPort host port ->
  In 58%N host ->
  forall p,
    In (TcpSocket p host)
       (connections (log (snd (snd (LogFluxClient.connect (c, w)))))) ->
    In (TcpSocket p host) (connections (log w)).
Proof.
  intros N A Colon p.
  destruct (LogFluxClient.connected c) eqn:Cn.
  - rewrite (@connect_idle c w Cn). cbn [fst snd]. read_world.
    rewrite connections_app. cbn. rewrite app_nil_r. auto.
  - rewrite (@connect_tcp_unfold c w N Cn).
    destruct (tcpTarget (address (LogFluxClient.config c))) as [sk | e] eqn:T.
    + destruct (attempt_world sk c (logged [Called CallConnect] w))
        as (Cs & _).
      rewrite Cs. read_world. rewrite connections_app. cbn.
      rewrite app_nil_r. intro K. apply in_app_or in K.
      destruct K as [K | [K | []]]; [ exact K | ].
      destruct (@tcpTarget_host _ sk T) as (q & -> & _).
      inversion K as [[Pq Hq]]. exfalso.
      apply (@split_on_first 58%N (address (LogFluxClient.config c))).
      rewrite Hq. exact Colon.
    + cbn [fst snd]. read_world. rewrite connections_app. cbn.
      rewrite app_nil_r. auto.
Qed.

Lemma host_with_colon_is_never_dialled_witness :
  let host := Js.of_ascii "::1" in
  let c := {| LogFluxClient.config := createTCPConfig host 8080 None;
              LogFluxClient.socket := None;
              LogFluxClient.connected := false |} in
  let w := agentWorld [healthy] in
  (network (LogFluxClient.config c) = TCP /\
   address (LogFluxClient.config c) = hostPort host 8080 /\
   In 58%N host) /\
  fst (LogFluxClient.connect (c, w))
  = Throw (ErrInvalidTcpAddress (Js.of_ascii "::1:8080")) /\
  ~ In (TcpSocket 8080 host)
       (connections (log (snd (snd (LogFluxClient.connect (c, w)))))).
Proof.
  intros host c w.
  assert (N : network (LogFluxClient.config c) = TCP) by reflexivity.
  assert (A : address (LogFluxClient.config c) = hostPort host 8080)
    by reflexivity.
  assert (Colon : In 58%N host) by (left; reflexivity).
  split; [ repeat split; assumption | ].
  split; [ vm_compute; reflexivity | ].
  intro K.
  exact (@host_with_colon_is_never_dialled c w host 8080 N A Colon 8080 K).
Defined.



(** X11.  [createUnixClient] throws 'address is required' exactly when
    it is given the empty path.  Otherwise it returns, without printing
    anything, a client that is not connected, for the given path or,
    without one, for [/tmp/logflux-agent.sock]; the other settings are
    the defaults. *)
Theorem createUnixClient_spec (socketPath : option JsString) (w : World) :
  (socketPath = Some [] ->
   LogFluxClient.createUnixClient socketPath w = (Throw ErrAddressRequired, w))
  /\
  (socketPath <> Some [] ->
   exists c,
     LogFluxClient.createUnixClient socketPath w = (Ok c, w) /\
     LogFluxClient.isConnected c = false /\
     LogFluxClient.socket c = None /\
     network (LogFluxClient.getConfig c) = Unix /\
     address (LogFluxClient.getConfig c)
     = socketPath ?? Js.of_ascii "/tmp/logflux-agent.sock" /\
     timeout (LogFluxClient.getConfig c) = DEFAULT_TIMEOUT /\
     sharedSecret (LogFluxClient.getConfig c) = None).
Proof.
  split.
  - intros ->. reflexivity.
  - intro NE.
    assert (T : Js.truthy (socketPath ?? Js.of_ascii "/tmp/logflux-agent.sock")
                = true).
    { destruct socketPath as [[| ch path] |];
        [ contradiction | reflexivity | reflexivity ]. }
    unfold LogFluxClient.createUnixClient, LogFluxClient.new, validateConfig.
    cbn [nullish address timeout batchSize conn_flushInterval maxRetries
         retryDelay network sharedSecret createDefaultConfig].
    rewrite T. cbn [negb check first_error].
    change (first_error _) with (@None Error). cbv iota.
    eexists. split; [ reflexivity | ]. repeat split.
Qed.













(** ** The books of the engine *)

Lemma sendLogBatchReturns_app l1 l2 :
  sendLogBatchReturns (l1 ++ l2)
  = sendLogBatchReturns l1 ++ sendLogBatchReturns l2.
Proof. apply flat_map_app. Qed.

Lemma dropped_app l1 l2 : dropped (l1 ++ l2) = dropped l1 + dropped l2.
Proof.
  unfold dropped. rewrite drops_app, map_app.
  unfold sumZ. induction (map Z.of_nat (drops l1)); cbn; lia.
Qed.

Lemma timerFlushErrors_app l1 l2 :
  timerFlushErrors (l1 ++ l2) = timerFlushErrors l1 + timerFlushErrors l2.
Proof.
  unfold timerFlushErrors.
  rewrite consoleLines_app, filter_app, length_app. lia.
Qed.

Lemma step_ledger J op s w :
  Ledger J ->
  J s (log w) ->
  J (fst (snd (step op (s, w)))) (log (snd (snd (step op (s, w))))).
Proof.
  intros L H.
  assert (Hstop : forall s w,
    J s (log w) ->
    J (fst (snd (BatchClient.stop (s, w))))
      (log (snd (snd (BatchClient.stop (s, w)))))).
  { clear s w H. intros s w H. rewrite stop_unfold.
    pose proof (led_halted L _ _ H) as Hh.
    destruct (BatchClient.batch s).
    - cbn [fst snd]. unfold logged. cbn [log].
      exact (led_closed L _ _ Hh).
    - pose proof (led_flush L (halted s) w Hh) as K.
      destruct (BatchClient.flush (halted s, w)) as [[[] | e] [s1 w1]];
        cbn [fst snd] in K |- *; unfold logged; cbn [log].
      + exact (led_closed L _ _ K).
      + apply (led_closed L).
        apply (led_console L); [ reflexivity | exact K ]. }
  destruct op as [entry | | | | | | ms]; cbn [step].
  - rewrite addLogEntry_unfold.
    destruct (BatchClient.stopped s); [ exact H | ].
    pose proof (led_accept L entry _ _ H) as Ha.
    destruct (mustFlush (accept entry s)).
    + exact (led_flush L _ w Ha).
    + exact Ha.
  - exact (led_flush L s w H).
  - rewrite onFlushTimer_unfold.
    destruct (BatchClient.stopped s); [ exact H | ]. cbn zeta.
    pose proof (led_timer L (Some (BatchClient.timerDelay s)) _ _ H) as Ht.
    destruct (BatchClient.batch s); [ exact Ht | ].
    pose proof (led_flush L _ w Ht) as K.
    destruct (BatchClient.flush _) as [[[] | e] [s1 w1]];
      cbn [fst snd] in K |- *.
    + exact K.
    + unfold logged. cbn [log]. exact (led_timer_error L _ _ e K).
  - apply Hstop, H.
  - rewrite exitHandler_unfold.
    destruct (BatchClient.stopped s); [ exact H | apply Hstop, H ].
  - rewrite syncExitHandler_unfold.
    destruct (BatchClient.stopped s), (BatchClient.batch s);
      cbn [fst snd]; try exact H.
    unfold logged. cbn [log]. apply (led_console L); [ reflexivity | exact H ].
  - exact H.
Qed.

Lemma run_ledger J ops :
  Ledger J ->
  forall st,
    J (fst st) (log (snd st)) ->
    J (fst (run ops st)) (log (snd (run ops st))).
Proof.
  intro L. induction ops as [| op ops IH]; intros [s w] H; cbn [run].
  - exact H.
  - apply IH. cbn [fst snd] in H.
    pose proof (@step_ledger J op s w L H) as K.
    destruct (step op (s, w)) as [r [s' w']]. exact K.
Qed.

Lemma afterSend_stats now sent s :
  let st := BatchClient.stats s in
  let st' := BatchClient.stats (afterSend now sent s) in
  entriesProcessed st' = entriesProcessed st /\
  batchesSent st' = batchesSent st + 1 /\
  errors st' = errors st /\
  averageBatchSize st'
  = ((averageBatchSize st * (of_Z (batchesSent st + 1) - 1)
      + of_Z (Z.of_nat (List.length sent)))
     / of_Z (batchesSent st + 1))%Q /\
  lastFlushTime st' = Some now.
Proof. unfold afterSend. cbn. repeat split. Qed.

Lemma afterFailure_stats now sent s :
  let st := BatchClient.stats s in
  let st' := BatchClient.stats (afterFailure now sent s) in
  entriesProcessed st' = entriesProcessed st /\
  batchesSent st' = batchesSent st /\
  errors st' = errors st + 1 /\
  averageBatchSize st' = averageBatchSize st /\
  lastFlushTime st' = lastFlushTime st.
Proof.
  unfold afterFailure. cbn.
  destruct (num_ge _ _); cbn; repeat split.
Qed.

(** The update of [updateAverageBatchSize] keeps the average exact. *)
Lemma running_mean (avg : Q) (n k d : Z) :
  0 <= n ->
  (avg * inject_Z n == inject_Z d)%Q ->
  ((avg * (inject_Z (n + 1) - 1) + inject_Z k) / inject_Z (n + 1)
   * inject_Z (n + 1)
   == inject_Z (d + k))%Q.
Proof.
  intros Hn H.
  assert (NZ : ~ (inject_Z (n + 1) == 0)%Q).
  { unfold Qeq. cbn. lia. }
  rewrite Qmult_comm, Qmult_div_r by exact NZ.
  rewrite !inject_Z_plus.
  setoid_replace (inject_Z n + inject_Z 1 - 1)%Q with (inject_Z n)
    by (change (inject_Z 1) with 1%Q; ring).
  rewrite H. reflexivity.
Qed.

Lemma closeEvents_quiet c :
  delivered (closeEvents c) = [] /\ dropped (closeEvents c) = 0 /\
  sendLogBatchReturns (closeEvents c) = [] /\
  unanswered (closeEvents c) = 0 /\ timerFlushErrors (closeEvents c) = 0.
Proof.
  unfold closeEvents. destruct (LogFluxClient.socket c); repeat split.
Qed.

Lemma inner_quiet evs :
  Forall inner_event evs ->
  delivered evs = [] /\ dropped evs = 0 /\ sendLogBatchReturns evs = [] /\
  unanswered evs = 0 /\ timerFlushErrors evs = 0.
Proof.
  intro F. destruct (inner_event_silent F) as (D & C & L & R & T).
  unfold dropped, unanswered, timerFlushErrors.
  rewrite D, C, L, R, T. repeat split.
Qed.

Lemma books_ledger : Ledger books.
Proof.
  constructor.
  - intros s w (E & B & A & R).
    destruct (flush_spec s w) as (evs & L & _ & Hcase).
    unfold books. rewrite L.
    rewrite delivered_app, dropped_app, sendLogBatchReturns_app,
      unanswered_app, timerFlushErrors_app, !length_app.
    destruct (flushOutcome (s, w)).
    + destruct Hcase as (_ & -> & Eq). rewrite Eq. cbn [fst snd].
      cbn. rewrite ?Z.add_0_r, ?Nat.add_0_r, ?app_nil_r. auto.
    + destruct Hcase as (_ & _ & -> & Eq). rewrite Eq. cbn [fst snd].
      cbn. rewrite ?Z.add_0_r, ?Nat.add_0_r, ?app_nil_r.
      repeat split; auto. rewrite E. unfold dropped. cbn. lia.
    + destruct Hcase as (_ & _ & c' & w' & inner & _ & F & -> & Eq).
      rewrite Eq. cbn [fst snd].
      destruct (inner_quiet F) as (Q1 & Q2 & Q3 & Q4 & Q5).
      destruct (afterSend_stats (clock w') (BatchClient.batch s)
                  (inFlight s (clock w) c')) as (S1 & S2 & S3 & S4 & _).
      destruct (afterSend_backoff (clock w') (BatchClient.batch s)
                  (inFlight s (clock w) c')) as (_ & _ & _ & Bt & _).
      destruct (inFlight_core s (clock w) c')
        as (_ & _ & _ & B0 & _ & St & _).
      cbn zeta in S1, S2, S3, S4. rewrite St in S1, S2, S3, S4.
      rewrite S1, S2, S3, S4, Bt, B0.
      change (Called (CallSendLogBatch (pendingBatch s)) :: inner ++ ?x)
        with ([Called (CallSendLogBatch (pendingBatch s))] ++ inner ++ x).
      rewrite !delivered_app, !dropped_app, !sendLogBatchReturns_app,
        !unanswered_app, !timerFlushErrors_app, !length_app.
      rewrite Q1, Q2, Q3, Q4, Q5. cbn.
      rewrite ?Z.add_0_r, ?Nat.add_0_r, ?app_nil_r.
      split; [ lia | ]. split; [ lia | ]. split; [ | lia ].
      rewrite Nat2Z.inj_add. unfold of_Z.
      apply running_mean; [ lia | exact A ].
    + destruct Hcase as (_ & _ & c' & w' & inner & _ & F & -> & Eq).
      rewrite Eq. cbn [fst snd].
      destruct (inner_quiet F) as (Q1 & Q2 & Q3 & Q4 & Q5).
      destruct (afterFailure_stats (clock w') (BatchClient.batch s)
                  (inFlight s (clock w) c')) as (S1 & S2 & S3 & S4 & _).
      destruct (afterFailure_backoff (clock w') (BatchClient.batch s)
                  (inFlight s (clock w) c')) as (_ & _ & _ & Bt & _).
      destruct (inFlight_core s (clock w) c')
        as (_ & _ & _ & B0 & _ & St & _).
      cbn zeta in S1, S2, S3, S4. rewrite St in S1, S2, S3, S4.
      rewrite S1, S2, S3, S4, Bt, B0.
      change (Called (CallSendLogBatch (pendingBatch s)) :: inner)
        with ([Called (CallSendLogBatch (pendingBatch s))] ++ inner).
      rewrite !delivered_app, !dropped_app, !sendLogBatchReturns_app,
        !unanswered_app, !timerFlushErrors_app, !length_app.
      rewrite Q1, Q2, Q3, Q4, Q5. cbn.
      rewrite ?Z.add_0_r, ?Nat.add_0_r, ?app_nil_r.
      repeat split; auto; lia.
  - intros entry s l (E & B & A & R). unfold books, accept. cbn.
    rewrite length_app. cbn. repeat split; auto. lia.
  - intros d s l H. exact H.
  - intros s l H. exact H.
  - intros s l (E & B & A & R).
    destruct (closeEvents_quiet (BatchClient.client s))
      as (Q1 & Q2 & Q3 & Q4 & Q5).
    unfold books.
    rewrite delivered_app, dropped_app, sendLogBatchReturns_app,
      unanswered_app, timerFlushErrors_app, Q1, Q2, Q3, Q4, Q5.
    cbn. rewrite ?Z.add_0_r, ?Nat.add_0_r, ?app_nil_r. auto.
  - intros s l line Hl (E & B & A & R). unfold books.
    rewrite delivered_app, dropped_app, sendLogBatchReturns_app,
      unanswered_app, timerFlushErrors_app.
    destruct line; try discriminate Hl; cbn;
      rewrite ?Z.add_0_r, ?Nat.add_0_r, ?app_nil_r; auto.
  - intros s l e (E & B & A & R). unfold books.
    rewrite delivered_app, dropped_app, sendLogBatchReturns_app,
      unanswered_app, timerFlushErrors_app.
    cbn. rewrite ?Z.add_0_r, ?Nat.add_0_r, ?app_nil_r. repeat split; auto. lia.
Qed.

Lemma new_books c cfg engine :
  BatchClient.new c cfg = Ok engine -> books engine [].
Proof.
  unfold BatchClient.new.
  destruct (validateBatchConfig (cfg ?? createDefaultBatchConfig));
    intro H; [ discriminate H | ].
  inversion H. unfold books. cbn. repeat split; reflexivity.
Qed.

Lemma run_books c cfg engine w0 ops :
  BatchClient.new c cfg = Ok engine ->
  log w0 = [] ->
  books (fst (run ops (engine, w0))) (log (snd (run ops (engine, w0)))).
Proof.
  intros N L0.
  apply (@run_ledger books ops books_ledger (engine, w0)).
  cbn [fst snd]. rewrite L0. exact (@new_books c cfg engine N).
Qed.

(** X15.  Conservation of entries.  Over any run of an engine built by
    the constructor, every entry that [addLogEntry] took in (the counter
    [entriesProcessed]) is in exactly one place: handed over by a
    [sendLogBatch] call that returned, dropped by the open circuit, or
    still pending. *)
Theorem entries_conserved (c : LogFluxClient.t) (cfg : option BatchConfig)
  (engine : BatchClient.t) (w0 : World) (ops : list Op) :
  BatchClient.new c cfg = Ok engine ->
  log w0 = [] ->
  let s := fst (run ops (engine, w0)) in
  let w := snd (run ops (engine, w0)) in
  entriesProcessed (BatchClient.getStats s)
  = Z.of_nat (List.length (delivered (log w))) + dropped (log w)
    + Z.of_nat (BatchClient.getPendingCount s).
Proof.
  intros N L0. cbn zeta.
  exact (proj1 (@run_books c cfg engine w0 ops N L0)).
Qed.

Lemma entries_conserved_witness :
  let engine := started unixClient manualConfig in
  let w0 := agentWorld [refusing; healthy; healthy] in
  let ops := [Add entryA; Flush; Add entryB; Flush; Sleep 10000;
              Add entryC; Flush; Add entryA] in
  let s := fst (run ops (engine, w0)) in
  let w := snd (run ops (engine, w0)) in
  (BatchClient.new unixClient (Some manualConfig) = Ok engine /\
   log w0 = []) /\
  entriesProcessed (BatchClient.getStats s) = 4 /\
  delivered (log w) = [entryC] /\ dropped (log w) = 2 /\
  BatchClient.getPendingCount s = 1%nat /\
  entriesProcessed (BatchClient.getStats s)
  = Z.of_nat (List.length (delivered (log w))) + dropped (log w)
    + Z.of_nat (BatchClient.getPendingCount s).
Proof.
  intros engine w0 ops s w.
  assert (N : BatchClient.new unixClient (Some manualConfig) = Ok engine)
    by reflexivity.
  assert (L0 : log w0 = []) by reflexivity.
  split; [ split; assumption | ].
  split; [ vm_compute; reflexivity | ].
  split; [ vm_compute; reflexivity | ].
  split; [ vm_compute; reflexivity | ].
  split; [ vm_compute; reflexivity | ].
  exact (@entries_conserved unixClient (Some manualConfig) engine w0 ops N L0).
Defined.



(** X17.  The error counter.  Over any run of an engine built by the
    constructor, [errors] is the number of [sendLogBatch] calls that
    threw plus the number of timer flushes that failed: a failure of a
    flush started by the timer is counted twice, once by [flush] and
    once by the timer's own handler. *)
Theorem errors_counted (c : LogFluxClient.t) (cfg : option BatchConfig)
  (engine : BatchClient.t) (w0 : World) (ops : list Op) :
  BatchClient.new c cfg = Ok engine ->
  log w0 = [] ->
  let s := fst (run ops (engine, w0)) in
  let w := snd (run ops (engine, w0)) in
  errors (BatchClient.getStats s)
  = unanswered (log w) + timerFlushErrors (log w).
Proof.
  intros N L0. cbn zeta.
  destruct (@run_books c cfg engine w0 ops N L0) as (_ & _ & _ & R).
  exact R.
Qed.

Lemma errors_counted_witness :
  let engine := started unixClient createDefaultBatchConfig in
  let w0 := noAgentWorld in
  let ops := [Add entryA; TimerFires; Flush] in
  let s := fst (run ops (engine, w0)) in
  let w := snd (run ops (engine, w0)) in
  (BatchClient.new unixClient (Some createDefaultBatchConfig) = Ok engine /\
   log w0 = []) /\
  unanswered (log w) = 2 /\
  errors (BatchClient.getStats s) = 3 /\
  errors (BatchClient.getStats s)
  = unanswered (log w) + timerFlushErrors (log w).
Proof.
  intros engine w0 ops s w.
  assert (N : BatchClient.new unixClient (Some createDefaultBatchConfig)
              = Ok engine) by reflexivity.
  assert (L0 : log w0 = []) by reflexivity.
  split; [ split; assumption | ].
  split; [ vm_compute; reflexivity | ].
  split; [ vm_compute; reflexivity | ].
  exact (@errors_counted unixClient (Some createDefaultBatchConfig) engine
           w0 ops N L0).
Defined.

(** ** The retry delay in closed form *)









(** ** The timer, the buffer bound and the stopped engine *)

(** What no flush touches. *)
Lemma flush_keeps_flags s w :
  let s' := fst (snd (BatchClient.flush (s, w))) in
  BatchClient.flushTimer s' = BatchClient.flushTimer s /\
  BatchClient.stopped s' = BatchClient.stopped s /\
  BatchClient.exitHandlers s' = BatchClient.exitHandlers s /\
  BatchClient.config s' = BatchClient.config s /\
  entriesProcessed (BatchClient.stats s')
  = entriesProcessed (BatchClient.stats s).
Proof.
  cbn zeta. destruct (flush_spec s w) as (evs & _ & _ & Hcase).
  destruct (flushOutcome (s, w)).
  - destruct Hcase as (_ & _ & E). rewrite E. repeat split.
  - destruct Hcase as (_ & _ & _ & E). rewrite E. repeat split.
  - destruct Hcase as (_ & _ & c' & w' & inner & _ & _ & _ & E).
    rewrite E. unfold afterSend, inFlight, probe. cbn.
    destruct (BatchClient.circuitOpen s && _); repeat split.
  - destruct Hcase as (_ & _ & c' & w' & inner & _ & _ & _ & E).
    rewrite E. unfold afterFailure, inFlight, probe. cbn.
    destruct (BatchClient.circuitOpen s && _); cbn;
      destruct (num_ge _ _); repeat split.
Qed.

(** How a flush leaves the buffer: emptied when it returns, as it was
    when it throws. *)
Lemma flush_buffer s w :
  let r := fst (BatchClient.flush (s, w)) in
  let s' := fst (snd (BatchClient.flush (s, w))) in
  (r = Ok tt -> BatchClient.batch s' = []) /\
  (forall e, r = Throw e -> BatchClient.batch s' = BatchClient.batch s /\
                            BatchClient.batch s <> []).
Proof.
  cbn zeta. destruct (flush_spec s w) as (evs & _ & _ & Hcase).
  destruct (flushOutcome (s, w)).
  - destruct Hcase as (B & _ & E). rewrite E. cbn [fst snd].
    split; [ auto | intros e K; discriminate K ].
  - destruct Hcase as (_ & _ & _ & E). rewrite E. cbn [fst snd].
    split; [ reflexivity | intros e K; discriminate K ].
  - destruct Hcase as (_ & _ & c' & w' & inner & _ & _ & _ & E).
    rewrite E. cbn [fst snd].
    destruct (afterSend_backoff (clock w') (BatchClient.batch s)
                (inFlight s (clock w) c')) as (_ & _ & _ & B & _).
    destruct (inFlight_core s (clock w) c') as (_ & _ & _ & B0 & _).
    rewrite B, B0. split; [ reflexivity | intros e K; discriminate K ].
  - destruct Hcase as (NE & _ & c' & w' & inner & _ & _ & _ & E).
    rewrite E. cbn [fst snd].
    destruct (afterFailure_backoff (clock w') (BatchClient.batch s)
                (inFlight s (clock w) c')) as (_ & _ & _ & B & _).
    destruct (inFlight_core s (clock w) c') as (_ & _ & _ & B0 & _).
    rewrite B, B0, app_nil_r.
    split; [ intro K; discriminate K | auto ].
Qed.

(** X19.  A tick of the flush timer.  The callback never throws.  On a
    stopped engine it does nothing.  Otherwise it schedules the next
    tick with the delay computed from the failure count as it is when
    the tick starts (the retry delay after a failure, the flush interval
    otherwise), before the flush it starts has settled: the backoff
    delay of a failure takes effect one tick later.  With an empty
    buffer the transport is not touched. *)
Theorem timer_tick (s : BatchClient.t) (w : World) :
  let r := fst (BatchClient.onFlushTimer (s, w)) in
  let s' := fst (snd (BatchClient.onFlushTimer (s, w))) in
  let w' := snd (snd (BatchClient.onFlushTimer (s, w))) in
  r = Ok tt /\
  (BatchClient.isStopped s = true -> s' = s /\ w' = w) /\
  (BatchClient.isStopped s = false ->
   BatchClient.flushTimer s'
   = Some (if 0 <? BatchClient.getConsecutiveFailures s
           then BatchClient.getCurrentRetryDelay s
           else flushInterval (BatchClient.getConfig s)) /\
   BatchClient.isStopped s' = false /\
   (BatchClient.getPendingCount s = 0%nat -> w' = w)).
Proof.
  cbn zeta. unfold BatchClient.isStopped, BatchClient.getPendingCount,
    BatchClient.getConsecutiveFailures, BatchClient.getCurrentRetryDelay,
    BatchClient.getConfig.
  rewrite onFlushTimer_unfold.
  destruct (BatchClient.stopped s) eqn:St; cbn zeta.
  - cbn. repeat split; intros; congruence.
  - fold (BatchClient.timerDelay s).
    destruct (BatchClient.batch s) as [| e0 pending] eqn:B.
    + cbn. repeat split; intros; try congruence; auto.
    + destruct (flush_keeps_flags
                  (BatchClient.set_flushTimer
                     (Some (BatchClient.timerDelay s)) s) w)
        as (Tm & Sp & _).
      cbn zeta in Tm, Sp.
      destruct (BatchClient.flush _) as [[[] | e] [s1 w1]];
        cbn [fst snd] in Tm, Sp |- *; cbn in Tm, Sp |- *;
        rewrite ?Tm, ?Sp; repeat split; intros; try congruence;
        try discriminate; auto.
Qed.

(** X20.  A failed timer flush is counted twice.  When the flush started
    by the timer throws, the callback still returns normally, the
    entries stay in the buffer in their order, one line is printed, and
    the error counter goes up by two: once in the [catch] block of
    [flush], once in the handler of the timer. *)
Theorem timer_failure_counts_twice (s : BatchClient.t) (w : World)
  (e : Error) :
  BatchClient.isStopped s = false ->
  fst (BatchClient.flush
         (BatchClient.set_flushTimer (Some (BatchClient.timerDelay s)) s, w))
  = Throw e ->
  let st' := snd (BatchClient.onFlushTimer (s, w)) in
  let flushed :=
    snd (BatchClient.flush
           (BatchClient.set_flushTimer (Some (BatchClient.timerDelay s)) s,
            w)) in
  fst (BatchClient.onFlushTimer (s, w)) = Ok tt /\
  errors (BatchClient.getStats (fst st'))
  = errors (BatchClient.getStats s) + 2 /\
  BatchClient.batch (fst st') = BatchClient.batch s /\
  log (snd st') = log (snd flushed) ++ [Console (ErrorDuringTimerFlush e)].
Proof.
  unfold BatchClient.isStopped, BatchClient.getStats. intros St F. cbn zeta.
  rewrite onFlushTimer_unfold, St. cbn zeta.
  pose proof (flush_failed _ _ F) as O.
  destruct (flush_spec
              (BatchClient.set_flushTimer (Some (BatchClient.timerDelay s)) s)
              w) as (evs & _ & _ & Hcase).
  rewrite O in Hcase.
  destruct Hcase as (NE & _ & c' & w' & inner & _ & _ & _ & E).
  cbn [BatchClient.batch BatchClient.set_flushTimer] in NE.
  destruct (BatchClient.batch s) as [| e0 pending] eqn:B;
    [ contradiction | ].
  rewrite E. cbn [fst snd].
  split; [ reflexivity | ].
  split; [ | split ].
  - unfold afterFailure, inFlight, probe. cbn.
    destruct (BatchClient.circuitOpen s && _); cbn;
      destruct (num_ge _ _); cbn; lia.
  - unfold afterFailure, inFlight, probe. cbn.
    destruct (BatchClient.circuitOpen s && _); cbn;
      destruct (num_ge _ _); cbn; rewrite B, app_nil_r; reflexivity.
  - reflexivity.
Qed.

Lemma timer_failure_counts_twice_witness :
  let s := fst (run [Add entryA]
                  (started unixClient createDefaultBatchConfig,
                   noAgentWorld)) in
  let w := noAgentWorld in
  let e := ErrUnixSocketNotFound agentSocket in
  (BatchClient.isStopped s = false /\
   fst (BatchClient.flush
          (BatchClient.set_flushTimer (Some (BatchClient.timerDelay s)) s, w))
   = Throw e) /\
  errors (BatchClient.getStats s) = 0 /\
  errors (BatchClient.getStats (fst (snd (BatchClient.onFlushTimer (s, w)))))
  = errors (BatchClient.getStats s) + 2.
Proof.
  intros s w e.
  assert (St : BatchClient.isStopped s = false) by reflexivity.
  assert (F : fst (BatchClient.flush
                     (BatchClient.set_flushTimer
                        (Some (BatchClient.timerDelay s)) s, w))
              = Throw e) by (vm_compute; reflexivity).
  split; [ split; assumption | ].
  split; [ vm_compute; reflexivity | ].
  exact (proj1 (proj2 (@timer_failure_counts_twice s w e St F))).
Defined.





(** X23.  A failed final flush loses nothing.  When the flush of [stop]
    throws, [stop] still returns normally and closes the transport, the
    error goes to the console, and the entries stay in the buffer in
    their order:  [getPendingCount] is as before. *)
Theorem stop_keeps_entries_when_flush_fails (s : BatchClient.t) (w : World)
  (e : Error) :
  fst (BatchClient.flush (halted s, w)) = Throw e ->
  let s' := fst (snd (BatchClient.stop (s, w))) in
  let w' := snd (snd (BatchClient.stop (s, w))) in
  fst (BatchClient.stop (s, w)) = Ok tt /\
  BatchClient.batch s' = BatchClient.batch s /\
  BatchClient.getPendingCount s' = BatchClient.getPendingCount s /\
  (0 < BatchClient.getPendingCount s)%nat /\
  BatchClient.isStopped s' = true /\
  LogFluxClient.isConnected (BatchClient.client s') = false /\
  In (ErrorDuringBatchStop e) (consoleLines (log w')).
Proof.
  intro F. cbn zeta.
  destruct (flush_buffer (halted s) w) as (_ & BThrow). cbn zeta in BThrow.
  destruct (BThrow e F) as (B & NE).
  destruct (flush_keeps_flags (halted s) w) as (_ & S1 & _). cbn zeta in S1.
  change (BatchClient.batch (halted s)) with (BatchClient.batch s) in B, NE.
  unfold BatchClient.getPendingCount, BatchClient.isStopped.
  rewrite stop_unfold.
  destruct (BatchClient.batch s) as [| e0 pending] eqn:Bs;
    [ contradiction | ].
  destruct (BatchClient.flush (halted s, w)) as [r [s1 w1]].
  cbn [fst snd] in F, B, S1 |- *. subst r.
  cbn [BatchClient.batch BatchClient.set_client BatchClient.stopped
       BatchClient.client closed LogFluxClient.isConnected
       LogFluxClient.connected].
  rewrite B.
  split; [ reflexivity | ]. split; [ reflexivity | ].
  split; [ reflexivity | ]. split; [ cbn; lia | ].
  split; [ exact S1 | ]. split; [ reflexivity | ].
  unfold logged. cbn [log]. rewrite !consoleLines_app.
  apply in_or_app. left. apply in_or_app. right. left. reflexivity.
Qed.

Lemma stop_keeps_entries_when_flush_fails_witness :
  let s := fst (run [Add entryA; Add entryB]
                  (started unixClient createDefaultBatchConfig,
                   noAgentWorld)) in
  let w := noAgentWorld in
  let e := ErrUnixSocketNotFound agentSocket in
  fst (BatchClient.flush (halted s, w)) = Throw e /\
  BatchClient.batch (fst (snd (BatchClient.stop (s, w))))
  = [entryA; entryB] /\
  BatchClient.batch (fst (snd (BatchClient.stop (s, w))))
  = BatchClient.batch s.
Proof.
  intros s w e.
  assert (F : fst (BatchClient.flush (halted s, w)) = Throw e)
    by (vm_compute; reflexivity).
  split; [ exact F | ]. split; [ vm_compute; reflexivity | ].
  exact (proj1 (proj2 (@stop_keeps_entries_when_flush_fails s w e F))).
Defined.

(** ** Log entries and their builder *)

Lemma replace_get key value o :
  JsObject.has key o = true ->
  JsObject.get key (JsObject.replace key value o) = Some value.
Proof.
  induction o as [| [k v] rest IH]; cbn; [ discriminate | ].
  destruct (Js.eqb k key) eqn:E; cbn; rewrite E; auto.
Qed.

Lemma replace_get_other key value other o :
  other <> key ->
  JsObject.get other (JsObject.replace key value o) = JsObject.get other o.
Proof.
  intro NE. induction o as [| [k v] rest IH]; cbn; [ reflexivity | ].
  destruct (Js.eqb k key) eqn:E; cbn.
  - apply Js_eqb_eq in E. subst k.
    destruct (Js.eqb key other) eqn:E2; [ | reflexivity ].
    apply Js_eqb_eq in E2. congruence.
  - rewrite IH. reflexivity.
Qed.

Lemma has_get key o : JsObject.has key o = false <-> JsObject.get key o = None.
Proof.
  induction o as [| [k v] rest IH]; cbn; [ tauto | ].
  destruct (Js.eqb k key); cbn; [ split; discriminate | exact IH ].
Qed.

Lemma insert_index_get n key value o :
  JsObject.has key o = false ->
  JsObject.get key (JsObject.insert_index n key value o) = Some value.
Proof.
  assert (R : Js.eqb key key = true) by (apply Js_eqb_eq; reflexivity).
  induction o as [| [k v] rest IH]; cbn; intro H.
  - rewrite R. reflexivity.
  - apply orb_false_elim in H. destruct H as (H1 & H2).
    destruct (JsObject.array_index k) as [m |]; cbn.
    + destruct (m <? n); cbn; rewrite ?H1, ?R; auto.
    + rewrite R. reflexivity.
Qed.

Lemma insert_index_get_other n key value other o :
  other <> key ->
  JsObject.get other (JsObject.insert_index n key value o)
  = JsObject.get other o.
Proof.
  intro NE.
  assert (R : Js.eqb key other = false).
  { destruct (Js.eqb key other) eqn:E; [ | reflexivity ].
    apply Js_eqb_eq in E. congruence. }
  induction o as [| [k v] rest IH]; cbn.
  - rewrite R. reflexivity.
  - destruct (JsObject.array_index k) as [m |]; cbn.
    + destruct (m <? n); cbn; rewrite ?R, ?IH; reflexivity.
    + rewrite R. reflexivity.
Qed.

Lemma get_app key o1 o2 :
  JsObject.get key (o1 ++ o2)
  = match JsObject.get key o1 with
    | Some v => Some v
    | None => JsObject.get key o2
    end.
Proof.
  induction o1 as [| [k v] rest IH]; cbn; [ reflexivity | ].
  destruct (Js.eqb k key); auto.
Qed.

(** Reading a property back after an assignment. *)
Lemma set_get key value o :
  JsObject.get key (JsObject.set key value o)
  = if negb (JsObject.has key o) && Js.eqb key (Js.of_ascii "__proto__")
    then None else Some value.
Proof.
  unfold JsObject.set.
  destruct (JsObject.has key o) eqn:H; cbn [negb andb].
  - apply replace_get. exact H.
  - destruct (Js.eqb key (Js.of_ascii "__proto__")).
    + apply has_get. exact H.
    + destruct (JsObject.array_index key) as [n |].
      * apply insert_index_get. exact H.
      * rewrite get_app. apply has_get in H. rewrite H. cbn.
        assert (R : Js.eqb key key = true) by (apply Js_eqb_eq; reflexivity).
        rewrite R. reflexivity.
Qed.

Lemma set_get_other key value other o :
  other <> key ->
  JsObject.get other (JsObject.set key value o) = JsObject.get other o.
Proof.
  intro NE. unfold JsObject.set.
  destruct (JsObject.has key o).
  - apply replace_get_other. exact NE.
  - destruct (Js.eqb key (Js.of_ascii "__proto__")); [ reflexivity | ].
    destruct (JsObject.array_index key) as [n |].
    + apply insert_index_get_other. exact NE.
    + rewrite get_app. destruct (JsObject.get other o); [ reflexivity | ].
      cbn. destruct (Js.eqb key other) eqn:E; [ | reflexivity ].
      apply Js_eqb_eq in E. congruence.
Qed.

Lemma weight_app o1 o2 : weight (o1 ++ o2) = weight o1 + weight o2.
Proof.
  unfold weight, sumZ. rewrite map_app.
  induction o1 as [| kv o1 IH]; cbn [map app fold_right].
  - reflexivity.
  - rewrite IH. apply Z.add_assoc.
Qed.

Lemma insert_index_weight n key value o :
  weight (JsObject.insert_index n key value o)
  = weight o + Js.byteLength (key ++ value).
Proof.
  induction o as [| [k v] rest IH]; cbn [JsObject.insert_index].
  - unfold weight, sumZ. cbn. lia.
  - destruct (JsObject.array_index k) as [m |].
    + destruct (m <? n).
      * change (weight ((k, v) :: ?l))
          with (Js.byteLength (k ++ v) + weight l).
        rewrite IH. lia.
      * unfold weight, sumZ. cbn. lia.
    + unfold weight, sumZ. cbn. lia.
Qed.




(** X25.  Setting and reading metadata.  [withMetadata] ignores an empty
    key.  For any other key it leaves every field but the metadata
    alone; the metadata then holds the value under the key, unless the
    key is [__proto__] and the object has no such property of its own,
    in which case the assignment is lost; the values under all other
    keys are as before. *)
Theorem withMetadata_sets_the_key (b : LogEntryBuilder.t)
  (key value : JsString) :
  let before := metadata (LogEntryBuilder.entry b) ?? [] in
  let b' := LogEntryBuilder.withMetadata key value b in
  (key = [] -> b' = b) /\
  (key <> [] ->
   exists after,
     LogEntryBuilder.entry b'
     = LogEntryBuilder.set_metadata (Some after) (LogEntryBuilder.entry b) /\
     JsObject.get key after
     = (if negb (JsObject.has key before)
           && Js.eqb key (Js.of_ascii "__proto__")
        then None else Some value) /\
     (forall other, other <> key ->
                    JsObject.get other after = JsObject.get other before)).
Proof.
  cbn zeta. unfold LogEntryBuilder.withMetadata. split.
  - intros ->. reflexivity.
  - intro NE. destruct key as [| ch key]; [ contradiction | ].
    cbn [Js.truthy negb]. eexists. split; [ reflexivity | ].
    split; [ apply set_get | ].
    intros other O. apply set_get_other. exact O.
Qed.

(** X26.  Entries built earlier see metadata added later.  [build]
    copies the fields of the entry but not its metadata object: after a
    later [withMetadata] call on the builder, the entry built before
    reads the new key as well, while a later [withLogLevel] call does
    not reach it. *)
Theorem built_entries_share_metadata (b : LogEntryBuilder.t)
  (key value : JsString) (level : Z) :
  metadata (LogEntryBuilder.entry b) <> None ->
  key <> [] ->
  JsObject.has key (metadata (LogEntryBuilder.entry b) ?? []) = false ->
  key <> Js.of_ascii "__proto__" ->
  let built := LogEntryBuilder.build b in
  LogEntryBuilder.read built b = LogEntryBuilder.entry b /\
  (exists m,
     metadata
       (LogEntryBuilder.read built (LogEntryBuilder.withMetadata key value b))
     = Some m /\
     JsObject.get key m = Some value) /\
  LogEntryBuilder.read built (LogEntryBuilder.withLogLevel level b)
  = LogEntryBuilder.entry b.
Proof.
  intros M NE Fresh NP. cbn zeta.
  destruct b as [e]. cbn in *.
  unfold LogEntryBuilder.read, LogEntryBuilder.build,
    LogEntryBuilder.withMetadata, LogEntryBuilder.withLogLevel. cbn.
  destruct key as [| ch key]; [ contradiction | ]. cbn [Js.truthy negb].
  destruct (metadata e) as [m |] eqn:Em; [ | contradiction ]. cbn.
  assert (Same : LogEntryBuilder.set_metadata (Some m) e = e).
  { destruct e. cbn in *. subst. reflexivity. }
  split; [ exact Same | ]. split; [ | exact Same ].
  eexists. split; [ reflexivity | ].
  rewrite set_get. cbn in Fresh. rewrite Fresh. cbn [negb andb].
  destruct (Js.eqb (ch :: key) (Js.of_ascii "__proto__")) eqn:E;
    [ | reflexivity ].
  apply Js_eqb_eq in E. contradiction.
Qed.

Lemma built_entries_share_metadata_witness :
  let b := LogEntryBuilder.mk entryA in
  let key := Js.of_ascii "user" in
  let value := Js.of_ascii "42" in
  (metadata (LogEntryBuilder.entry b) <> None /\
   key <> [] /\
   JsObject.has key (metadata (LogEntryBuilder.entry b) ?? []) = false /\
   key <> Js.of_ascii "__proto__") /\
  metadata (LogEntryBuilder.copied (LogEntryBuilder.build b)) = Some [] /\
  metadata
    (LogEntryBuilder.read (LogEntryBuilder.build b)
       (LogEntryBuilder.withMetadata key value b))
  = Some [(key, value)] /\
  LogEntryBuilder.read (LogEntryBuilder.build b)
    (LogEntryBuilder.withLogLevel 3 b)
  = LogEntryBuilder.entry b.
Proof.
  intros b key value.
  assert (M : metadata (LogEntryBuilder.entry b) <> None) by discriminate.
  assert (NE : key <> []) by discriminate.
  assert (Fresh : JsObject.has key (metadata (LogEntryBuilder.entry b) ?? [])
                  = false) by reflexivity.
  assert (NP : key <> Js.of_ascii "__proto__") by discriminate.
  split; [ repeat split; assumption | ].
  split; [ reflexivity | ]. split; [ reflexivity | ].
  exact (proj2 (proj2
    (@built_entries_share_metadata b key value 3 M NE Fresh NP))).
Defined.

(** X27.  What a metadata pair costs.  A new metadata key, set by
    [withMetadata], adds the UTF-8 length of key and value joined to the
    size [getEstimatedMemoryUsage] gives the entry, wherever
    [Object.entries] lists the new key. *)
Theorem new_metadata_key_weighs_its_pair (b : LogEntryBuilder.t)
  (key value : JsString) :
  key <> [] ->
  key <> Js.of_ascii "__proto__" ->
  JsObject.has key (metadata (LogEntryBuilder.entry b) ?? []) = false ->
  entrySize
    (LogEntryBuilder.entry (LogEntryBuilder.withMetadata key value b))
  = entrySize (LogEntryBuilder.entry b) + Js.byteLength (key ++ value).
Proof.
  intros NE NP Fresh. destruct b as [e]. cbn in *.
  unfold LogEntryBuilder.withMetadata.
  destruct key as [| ch key]; [ contradiction | ]. cbn [Js.truthy negb].
  cbn [LogEntryBuilder.entry]. unfold entrySize.
  cbn [payload metadata LogEntryBuilder.set_metadata].
  fold (weight (JsObject.set (ch :: key) value (metadata e ?? []))).
  assert (W : weight (JsObject.set (ch :: key) value (metadata e ?? []))
              = weight (metadata e ?? [])
                + Js.byteLength ((ch :: key) ++ value)).
  { unfold JsObject.set. rewrite Fresh.
    destruct (Js.eqb (ch :: key) (Js.of_ascii "__proto__")) eqn:E.
    - apply Js_eqb_eq in E. contradiction.
    - destruct (JsObject.array_index (ch :: key)) as [n |].
      + apply insert_index_weight.
      + rewrite weight_app. unfold weight at 2. unfold sumZ. cbn. lia. }
  rewrite W. destruct (metadata e) as [m |]; cbn [nullish].
  - fold (weight m). lia.
  - unfold weight, sumZ. cbn. lia.
Qed.

Lemma new_metadata_key_weighs_its_pair_witness :
  let b := LogEntryBuilder.mk entryA in
  let key := Js.of_ascii "7" in
  let value := Js.of_ascii "x" in
  (key <> [] /\ key <> Js.of_ascii "__proto__" /\
   JsObject.has key (metadata (LogEntryBuilder.entry b) ?? []) = false) /\
  entrySize (LogEntryBuilder.entry b) = 201 /\
  entrySize
    (LogEntryBuilder.entry (LogEntryBuilder.withMetadata key value b))
  = entrySize (LogEntryBuilder.entry b) + Js.byteLength (key ++ value).
Proof.
  intros b key value.
  assert (NE : key <> []) by discriminate.
  assert (NP : key <> Js.of_ascii "__proto__") by discriminate.
  assert (Fresh : JsObject.has key (metadata (LogEntryBuilder.entry b) ?? [])
                  = false) by reflexivity.
  split; [ repeat split; assumption | ].
  split; [ reflexivity | ].
  exact (@new_metadata_key_weighs_its_pair b key value NE NP Fresh).
Defined.

(** ** What is delivered *)

Lemma Subseq_refl A (l : list A) : Subseq l l.
Proof. induction l; [ apply Subseq_nil | apply Subseq_take; assumption ]. Qed.











(** X29.  A flush that returned has nothing left to do: a second flush
    right after it returns normally without touching the engine or the
    world. *)
Theorem flush_after_flush_is_idle (s : BatchClient.t) (w : World) :
  fst (BatchClient.flush (s, w)) = Ok tt ->
  BatchClient.getPendingCount (fst (snd (BatchClient.flush (s, w)))) = 0%nat /\
  BatchClient.flush (snd (BatchClient.flush (s, w)))
  = (Ok tt, snd (BatchClient.flush (s, w))).
Proof.
  intro R. destruct (flush_buffer s w) as (BOk & _). cbn zeta in BOk.
  specialize (BOk R).
  destruct (BatchClient.flush (s, w)) as [r [s1 w1]]. cbn [fst snd] in *.
  unfold BatchClient.getPendingCount. rewrite BOk.
  split; [ reflexivity | ].
  destruct (flush_spec s1 w1) as (evs & _ & _ & Hcase).
  unfold flushOutcome in Hcase. rewrite BOk in Hcase.
  destruct Hcase as (_ & _ & E). exact E.
Qed.

Lemma flush_after_flush_is_idle_witness :
  let s := fst (run [Add entryA; Add entryB]
                  (started unixClient createDefaultBatchConfig,
                   agentWorld [healthy; healthy])) in
  let w := agentWorld [healthy; healthy] in
  fst (BatchClient.flush (s, w)) = Ok tt /\
  delivered (log (snd (snd (BatchClient.flush (s, w))))) = [entryA; entryB] /\
  BatchClient.flush (snd (BatchClient.flush (s, w)))
  = (Ok tt, snd (BatchClient.flush (s, w))).
Proof.
  intros s w.
  assert (R : fst (BatchClient.flush (s, w)) = Ok tt)
    by (vm_compute; reflexivity).
  split; [ exact R | ]. split; [ vm_compute; reflexivity | ].
  exact (proj2 (@flush_after_flush_is_idle s w R)).
Defined.

(** ** The engine and its transport client *)

Lemma sendLogBatch_sound b c w :
  sound c ->
  sound (fst (snd (LogFluxClient.sendLogBatch b (c, w)))) /\
  ~ throws (fst (LogFluxClient.sendLogBatch b (c, w))) ErrNoSocket.
Proof.
  intro S. rewrite sendLogBatch_unfold. cbn zeta.
  destruct (entries b); [ split; [ exact S | cbn; discriminate ] | ].
  destruct (100 <? _); [ split; [ exact S | cbn; discriminate ] | ].
  pose proof (@sound_after_ensure c (logged [Called (CallSendLogBatch b)] w) S)
    as K.
  destruct (ensureConnected_outcome c (logged [Called (CallSendLogBatch b)] w))
    as (_ & HOk & HThrow).
  cbn zeta in *.
  destruct (ensureConnected _) as [[[] | e] [c1 w1]]; cbn [fst snd] in *.
  - destruct (HOk eq_refl) as (_ & _ & Sk). specialize (Sk S).
    pose proof (sendData_client (MsgBatch b) c1 w1) as Same.
    pose proof (@sendData_has_socket (MsgBatch b) c1 w1 Sk) as N.
    destruct (LogFluxClient.sendData _ _) as [[[] | e] [c2 w2]];
      cbn [fst snd] in *; subst c2; split; auto.
  - split; [ exact K | ].
    destruct (HThrow e eq_refl) as (_ & _ & N). exact N.
Qed.

Lemma sound_ledger :
  Ledger (fun s _ => sound (BatchClient.client s)).
Proof.
  constructor; try (intros; assumption).
  - intros s w S.
    destruct (flush_spec s w) as (evs & _ & _ & Hcase).
    destruct (flushOutcome (s, w)).
    + destruct Hcase as (_ & _ & E). rewrite E. exact S.
    + destruct Hcase as (_ & _ & _ & E). rewrite E. exact S.
    + destruct Hcase as (_ & _ & c' & w' & inner & SP & _ & _ & E).
      rewrite E. cbn [fst snd].
      replace (BatchClient.client
                 (afterSend (clock w') (BatchClient.batch s)
                    (inFlight s (clock w) c'))) with c'
        by (unfold afterSend, inFlight; reflexivity).
      destruct (@sendLogBatch_sound (pendingBatch s) (BatchClient.client s)
                  w S) as (K & _).
      unfold sendPending in SP. rewrite SP in K. exact K.
    + destruct Hcase as (_ & _ & c' & w' & inner & SP & _ & _ & E).
      rewrite E. cbn [fst snd].
      replace (BatchClient.client
                 (afterFailure (clock w') (BatchClient.batch s)
                    (inFlight s (clock w) c'))) with c'
        by (unfold afterFailure, inFlight; cbn;
            destruct (num_ge _ _); reflexivity).
      destruct (@sendLogBatch_sound (pendingBatch s) (BatchClient.client s)
                  w S) as (K & _).
      unfold sendPending in SP. rewrite SP in K. exact K.
  - intros s l S. cbn. intro H. discriminate H.
Qed.

Lemma flush_has_socket s w :
  sound (BatchClient.client s) ->
  ~ throws (fst (BatchClient.flush (s, w))) ErrNoSocket.
Proof.
  intro S. destruct (flush_spec s w) as (evs & _ & _ & Hcase).
  destruct (flushOutcome (s, w)).
  - destruct Hcase as (_ & _ & E). rewrite E. cbn. auto.
  - destruct Hcase as (_ & _ & _ & E). rewrite E. cbn. auto.
  - destruct Hcase as (_ & _ & c' & w' & inner & _ & _ & _ & E).
    rewrite E. cbn. auto.
  - destruct Hcase as (_ & _ & c' & w' & inner & SP & _ & _ & E).
    rewrite E. cbn [fst throws].
    destruct (@sendLogBatch_sound (pendingBatch s) (BatchClient.client s)
                w S) as (_ & K).
    unfold sendPending in SP. rewrite SP in K. exact K.
Qed.

(** X30.  The engine never lacks a socket.  An engine built on a sound
    client keeps its client sound over any run, so neither a flush nor
    an [addLogEntry] ever throws 'No socket connection': every failure
    the engine counts comes from validation, from connecting or from the
    socket. *)
Theorem engine_never_lacks_a_socket (c : LogFluxClient.t)
  (cfg : option BatchConfig) (engine : BatchClient.t) (w0 : World)
  (ops : list Op) :
  sound c ->
  BatchClient.new c cfg = Ok engine ->
  let s := fst (run ops (engine, w0)) in
  sound (BatchClient.client s) /\
  (forall w, ~ throws (fst (BatchClient.flush (s, w))) ErrNoSocket) /\
  (forall entry w,
     ~ throws (fst (BatchClient.addLogEntry entry (s, w))) ErrNoSocket).
Proof.
  intros S N. cbn zeta.
  assert (C : BatchClient.client engine = c).
  { unfold BatchClient.new in N.
    destruct (validateBatchConfig _); [ discriminate N | ].
    inversion N. reflexivity. }
  assert (K : sound (BatchClient.client (fst (run ops (engine, w0))))).
  { apply (@run_ledger (fun s _ => sound (BatchClient.client s)) ops
             sound_ledger (engine, w0)).
    cbn [fst]. rewrite C. exact S. }
  split; [ exact K | ]. split.
  - intro w. apply flush_has_socket. exact K.
  - intros entry w. rewrite addLogEntry_unfold.
    destruct (BatchClient.stopped _); [ cbn; discriminate | ].
    destruct (mustFlush _); [ | cbn; auto ].
    apply flush_has_socket. exact K.
Qed.

Lemma engine_never_lacks_a_socket_witness :
  let engine := started unixClient smallConfig in
  let ops := [Add entryA; Add entryB; Stop] in
  let s := fst (run ops (engine, agentWorld [refusing])) in
  (sound unixClient /\
   BatchClient.new unixClient (Some smallConfig) = Ok engine) /\
  BatchClient.getPendingCount s = 2%nat /\
  sound (BatchClient.client s).
Proof.
  intros engine ops s.
  assert (S : sound unixClient) by (intro H; discriminate H).
  assert (N : BatchClient.new unixClient (Some smallConfig) = Ok engine)
    by reflexivity.
  split; [ split; assumption | ].
  split; [ vm_compute; reflexivity | ].
  exact (proj1 (@engine_never_lacks_a_socket unixClient (Some smallConfig)
                  engine (agentWorld [refusing]) ops S N)).
Defined.
